(** * On-policy actor-critic training loop: PPO with RND / RLE exploration

    Shallow embedding of the numerical core of
    [four_room_grid_world/algorithms/ppo_rnd.py] and
    [old/jonatan_stuff/ppo_rle.py].

    Conventions of the embedding.
    - Python [int] is [Z]; [//] is floor division, which is [Z.div].
    - Tensor entries are exact rationals [Q]: every statement below is
      about the arithmetic the code writes down, in exact arithmetic.
      Scalars are compared with [==] ([Qeq]).
    - [torch.sqrt] and [torch.exp] have no rational counterpart; the
      functions that call them take them as parameters.
    - A 1-D tensor is a [list Q], a (T, N) buffer is a list of T rows.
      Where the code keeps a reference to a tensor and writes through it,
      the tensor lives in an explicit store (see [Store]). *)

From Stdlib Require Import ZArith QArith Qminmax Qabs Qfield Lqa Lia.
From stdpp Require Import base numbers strings list gmap.

Open Scope Q_scope.

(** ** Python results *)

Inductive py_error : Set :=
| ZeroDivisionError
| RuntimeError.

Inductive result (A : Type) : Type :=
| Ok (a : A)
| Raise (e : py_error).
Arguments Ok {A} a.
Arguments Raise {A} e.

#[global] Instance result_ret : MRet result := fun A a => Ok a.
#[global] Instance result_bind : MBind result := fun A B k r =>
  match r with
  | Ok a => k a
  | Raise e => Raise e
  end.

(** [a // b] on Python integers. *)
Definition floordiv (a b : Z) : result Z :=
  if (b =? 0)%Z then Raise ZeroDivisionError else Ok (a / b)%Z.

(** ** Hyperparameters: [parse_args] and the start of [__main__] *)

Module Config.

(** The command-line options the start-up code looks at. *)
Record Cli : Set := {
  num_envs : Z;
  num_steps : Z;
  num_minibatches : Z;
  total_timesteps : Z;
  reward_free : string
}.

(** [args] after [parse_args]: the options plus the two derived sizes. *)
Record Args : Set := {
  cli : Cli;
  batch_size : Z;
  minibatch_size : Z
}.

(** ppo_rnd.py, lines 138-142:
<<
  args = parser.parse_args()
  args.batch_size = int(args.num_envs * args.num_steps)
  args.minibatch_size = int(args.batch_size // args.num_minibatches)
  return args
>>
    ppo_rle.py, lines 364-366, runs the same two assignments. *)
Definition parse_args (c : Cli) : result Args :=
  let batch := (num_envs c * num_steps c)%Z in
  mb ← floordiv batch (num_minibatches c);
  mret {| cli := c; batch_size := batch; minibatch_size := mb |}.

(** ppo_rnd.py, lines 303-308: the one option the script validates. *)
Definition check_reward_free (c : Cli) : result bool :=
  if String.eqb (reward_free c) "True" then Ok true
  else if String.eqb (reward_free c) "False" then Ok false
  else Raise RuntimeError.

(** ppo_rnd.py line 397 / ppo_rle.py line 367: the number of updates,
    the last size computed before the training loop is entered. *)
Definition num_updates (a : Args) : result Z :=
  floordiv (total_timesteps (cli a)) (batch_size a).

(** What the start of [__main__] in ppo_rnd.py computes from the options
    before the first rollout step. *)
Definition startup (c : Cli) : result (Args * bool * Z) :=
  a ← parse_args c;
  rf ← check_reward_free c;
  n ← num_updates a;
  mret (a, rf, n).

(** The defaults of ppo_rnd.py with [--num-minibatches 5]. *)
Definition cli_five_minibatches : Cli :=
  {| num_envs := 32; num_steps := 128; num_minibatches := 5;
     total_timesteps := 2500000; reward_free := "True" |}.

End Config.

(** ** Running mean / variance / count *)

(** [torch.square] *)
Definition square (x : Q) : Q := x * x.

Fixpoint qsum (l : list Q) : Q :=
  match l with
  | [] => 0
  | x :: l' => x + qsum l'
  end.

(** Number of entries of a 1-D tensor, as a rational. *)
Definition qlen (l : list Q) : Q := inject_Z (Z.of_nat (length l)).

(** [torch.mean(x)] of a 1-D tensor with at least one entry.  On an
    empty tensor torch returns NaN, which [NaN.torch_mean] below keeps
    apart; the rational quotient is then 0 and stands for nothing. *)
Definition torch_mean (x : list Q) : Q := qsum x / qlen x.

(** [torch.var(x)] of a 1-D tensor with at least two entries: torch's
    default is the unbiased estimator (Bessel's correction, divisor
    [n - 1]).  With fewer than two entries torch returns NaN, which
    [NaN.torch_var] below keeps apart; the rational quotient is then 0
    and stands for nothing. *)
Definition torch_var (x : list Q) : Q :=
  let m := torch_mean x in
  qsum (map (fun xi => square (xi - m)) x) / (qlen x - 1).

(** ppo_rnd.py, lines 170-184. *)
Definition update_mean_var_count_from_moments
    (mean var count batch_mean batch_var batch_count : Q) : Q * Q * Q :=
  let delta := batch_mean - mean in
  let tot_count := count + batch_count in
  let new_mean := mean + delta * batch_count / tot_count in
  let m_a := var * count in
  let m_b := batch_var * batch_count in
  let M2 := m_a + m_b + square delta * count * batch_count / tot_count in
  let new_var := M2 / tot_count in
  let new_count := tot_count in
  (new_mean, new_var, new_count).

Module RunningMeanStd.

(** The object state, for [shape = ()] as the two reward statistics
    are built ([RunningMeanStd(device=device)]).  For a non-empty
    [shape] torch evaluates the same expressions once per feature,
    sharing [count]. *)
Record t : Set := {
  mean : Q;
  var : Q;
  count : Q
}.

(** [__init__(epsilon=1e-4)] *)
Definition init (epsilon : Q) : t :=
  {| mean := 0; var := 1; count := epsilon |}.

Definition default : t := init 0.0001.

(** [update_from_moments] *)
Definition update_from_moments (s : t) (batch_mean batch_var batch_count : Q) : t :=
  let '(m, v, c) :=
    update_mean_var_count_from_moments
      (mean s) (var s) (count s) batch_mean batch_var batch_count in
  {| mean := m; var := v; count := c |}.

(** [update]: moments of the batch, then [update_from_moments]. *)
Definition update (s : t) (x : list Q) : t :=
  let batch_mean := torch_mean x in
  let batch_var := torch_var x in
  let batch_count := qlen x in
  update_from_moments s batch_mean batch_var batch_count.

(** Two states agree up to the value of their rational fields. *)
Definition eqv (a b : t) : Prop :=
  mean a == mean b /\ var a == var b /\ count a == count b.

(** The moments of a batch, packed like a state: what
    [update_from_moments] consumes. *)
Definition absorb (s b : t) : t :=
  update_from_moments s (mean b) (var b) (count b).

End RunningMeanStd.


(** ** Tensors that are referred to and written in place *)

Module Store.

(** A location names the flat storage of one allocated tensor. *)
Definition loc : Set := nat.
Bind Scope nat_scope with loc.

(** A 1-D tensor as torch sees it: a window into a storage.  Indexing a
    (T, N) buffer with an integer, [buf[i]], does not copy: it returns
    such a window onto row [i]. *)
Record view : Set := {
  base : loc;
  off : nat;
  len : nat
}.

Definition storage (st : gmap nat (list Q)) (l : loc) : list Q :=
  default [] (st !! l).

(** [buf[i]] for a buffer of shape (T, N) stored row after row. *)
Definition row (buf : loc) (N i : nat) : view :=
  {| base := buf; off := i * N; len := N |}.

(** The values currently seen through a view (what [deepcopy] copies). *)
Definition load (st : gmap nat (list Q)) (v : view) : list Q :=
  take (len v) (drop (off v) (storage st (base v))).

(** [v[j]] *)
Definition get (st : gmap nat (list Q)) (v : view) (j : nat) : Q :=
  nth (off v + j) (storage st (base v)) 0.

(** [v[j] = x]: a write through the view reaches the storage. *)
Definition put (st : gmap nat (list Q)) (v : view) (j : nat) (x : Q)
    : gmap nat (list Q) :=
  <[base v := <[(off v + j)%nat := x]> (storage st (base v))]> st.

(** [v[mask] = vals] for an index tensor [mask]. *)
Definition index_put (st : gmap nat (list Q)) (v : view)
    (mask : list nat) (vals : list Q) : gmap nat (list Q) :=
  fold_left (fun s jx => put s v (fst jx) (snd jx)) (zip mask vals) st.

(** A new tensor with the given entries, in storage of its own. *)
Definition alloc (st : gmap nat (list Q)) (vals : list Q)
    : gmap nat (list Q) * view :=
  let l := fresh (dom st) in
  (<[l := vals]> st, {| base := l; off := 0; len := length vals |}).

(** [buf /= s]: in-place division of every entry of the storage. *)
Definition idiv (st : gmap nat (list Q)) (buf : loc) (s : Q)
    : gmap nat (list Q) :=
  <[buf := map (fun x => x / s) (storage st buf)]> st.

(** The window lies inside its storage. *)
Definition valid (st : gmap nat (list Q)) (v : view) : Prop :=
  (off v + len v <= length (storage st (base v)))%nat.

End Store.

(** [torch.where(x == c)] on a 1-D tensor: the indices where it holds. *)
Definition where_eq (x : list Q) (c : Q) : list nat :=
  List.filter (fun j => Qeq_bool (nth j x 0) c) (seq 0 (length x)).

(** ** Discounted reward accumulator *)

Module RewardForwardFilter.
Import Store.

(** [self.rewems] is [None] or a reference to a tensor. *)
Record t : Set := {
  rewems : option view;
  gamma : Q
}.

(** [__init__(gamma)] *)
Definition init (g : Q) : t := {| rewems := None; gamma := g |}.

(** What [update] hands back: the accumulator tensor itself, or a
    [deepcopy] of it, which shares nothing with the store. *)
Inductive returned : Set :=
| Ref (v : view)
| Copy (vals : list Q).

(** The entries of what was returned, read at once. *)
Definition values (st : gmap nat (list Q)) (r : returned) : list Q :=
  match r with
  | Ref v => load st v
  | Copy vals => vals
  end.

(** ppo_rnd.py, lines 275-288:
<<
    def update(self, rews, not_done=None):
        if not_done is None:
            if self.rewems is None:
                self.rewems = rews
            else:
                self.rewems = self.rewems * self.gamma + rews
            return self.rewems
        else:
            if self.rewems is None:
                self.rewems = rews
            else:
                mask = torch.where(not_done == 1.0)
                self.rewems[mask] = self.rewems[mask] * self.gamma + rews[mask]
            return deepcopy(self.rewems)
>>
    [self.rewems = rews] binds the caller's tensor, it does not copy it.
    Without [not_done] the accumulator is rebound to a new tensor; with
    it, the accumulator tensor is written in place, the right-hand side
    being evaluated before the write. *)
Definition update (f : t) (rews : view) (not_done : option (list Q))
    (st : gmap nat (list Q)) : gmap nat (list Q) * t * returned :=
  match not_done with
  | None =>
      match rewems f with
      | None =>
          (st, {| rewems := Some rews; gamma := gamma f |}, Ref rews)
      | Some acc =>
          let vals :=
            zip_with (fun a r => a * gamma f + r) (load st acc) (load st rews) in
          let '(st', v) := alloc st vals in
          (st', {| rewems := Some v; gamma := gamma f |}, Ref v)
      end
  | Some not_done =>
      match rewems f with
      | None =>
          let f' := {| rewems := Some rews; gamma := gamma f |} in
          (st, f', Copy (load st rews))
      | Some acc =>
          let mask := where_eq not_done 1 in
          let rhs := map (fun j => get st acc j * gamma f + get st rews j) mask in
          let st' := index_put st acc mask rhs in
          (st', f, Copy (load st' acc))
      end
  end.

(** [[flt.update(buf[i], not_dones[i]) for i in range(T)]], threading
    the store and the filter through the calls; [i0] is the first row.
    The results are collected as values, as [torch.stack] does. *)
Fixpoint update_rows (f : t) (buf : loc) (N i0 : nat)
    (not_dones : list (list Q)) (st : gmap nat (list Q))
    : gmap nat (list Q) * t * list (list Q) :=
  match not_dones with
  | [] => (st, f, [])
  | nd :: rest =>
      let '(st1, f1, out) := update f (row buf N i0) (Some nd) st in
      let '(st2, f2, outs) := update_rows f1 buf N (S i0) rest st1 in
      (st2, f2, values st1 out :: outs)
  end.

(** Three successive calls for one environment, gamma = 0.5, on the rows
    of a buffer holding rewards 1, 1, 1, with not_done 1, 1, 0. *)
Definition three_calls : gmap nat (list Q) * t * list (list Q) :=
  update_rows (init 0.5) 0%nat 1%nat 0%nat [[1]; [1]; [0]] {[ 0%nat := [1; 1; 1] ]}.

End RewardForwardFilter.

(** ** Reward normalization in the training loop *)

Module RewardNorm.
Import Store.

Section WithSqrt.
Variable sqrt : Q -> Q.

(** ppo_rnd.py, lines 498-503 (and 505-509 for the intrinsic stream):
<<
    not_dones = 1.0 - dones
    ext_reward_per_env = torch.stack(
        [ext_discounted_reward.update(rewards[i], not_dones[i])
         for i in range(args.num_steps)])
    ext_reward_rms.update(ext_reward_per_env.flatten())
    rewards /= torch.sqrt(ext_reward_rms.var)
>>
    [rewards] is the buffer at location [buf], of shape (T, N) with
    [T = length dones]. *)
Definition normalize (buf : loc) (N : nat) (dones : list (list Q))
    (flt : RewardForwardFilter.t) (rms : RunningMeanStd.t)
    (st : gmap nat (list Q))
    : gmap nat (list Q) * RewardForwardFilter.t * RunningMeanStd.t :=
  let not_dones := map (map (fun d => 1 - d)) dones in
  let '(st1, flt1, per_env) :=
    RewardForwardFilter.update_rows flt buf N 0 not_dones st in
  let rms1 := RunningMeanStd.update rms (concat per_env) in
  let st2 := idiv st1 buf (sqrt (RunningMeanStd.var rms1)) in
  (st2, flt1, rms1).

(** The first training iteration with two steps and one environment:
    the agent ran into a wall twice, so the buffer holds the raw rewards
    -1 and -1; no episode has ended; the filter and the statistic are
    fresh ([gamma = 0.99], the default). *)
Definition first_iteration
    : gmap nat (list Q) * RewardForwardFilter.t * RunningMeanStd.t :=
  normalize 0%nat 1%nat [[0]; [0]]
    (RewardForwardFilter.init 0.99) RunningMeanStd.default
    {[ 0%nat := [-1; -1] ]}.

End WithSqrt.

End RewardNorm.

(** ** Broadcasting arithmetic on per-environment tensors *)

(** A buffer has shape (T, N) + shape. *)
Definition has_shape {A : Type} (T N : nat) (buf : list (list A)) : Prop :=
  length buf = T /\ Forall (fun r => length r = N) buf.


(** A value in the advantage loop is a Python number / 0-dim tensor
    ([Scalar]) or one entry per environment ([Vec]); [+], [-], [*]
    broadcast a scalar over a vector.  A (1, N) tensor, which
    [next_value.reshape(1, -1)] produces, behaves entry for entry like
    the (N,) tensor with the same entries and is a [Vec] here. *)
Inductive tensor : Set :=
| Scalar (q : Q)
| Vec (v : list Q).

Definition broadcast (op : Q -> Q -> Q) (a b : tensor) : tensor :=
  match a, b with
  | Scalar x, Scalar y => Scalar (op x y)
  | Scalar x, Vec w => Vec (map (fun y => op x y) w)
  | Vec v, Scalar y => Vec (map (fun x => op x y) v)
  | Vec v, Vec w => Vec (zip_with op v w)
  end.

Definition tadd : tensor -> tensor -> tensor := broadcast Qplus.
Definition tsub : tensor -> tensor -> tensor := broadcast Qminus.
Definition tmul : tensor -> tensor -> tensor := broadcast Qmult.

(** Entry [n] of a tensor; a scalar has the same entry everywhere. *)
Definition entry (x : tensor) (n : nat) : Q :=
  match x with
  | Scalar q => q
  | Vec v => nth n v 0
  end.

(** A tensor can stand where one entry per environment is expected. *)
Definition fits (N : nat) (x : tensor) : Prop :=
  match x with
  | Scalar _ => True
  | Vec v => length v = N
  end.

(** A tensor with one entry per environment. *)
Definition is_vec (N : nat) (x : tensor) : Prop :=
  exists v, x = Vec v /\ length v = N.

(** Row [t] of a (T, N) buffer, [buf[t]]. *)
Definition row_of (buf : list (list Q)) (t : nat) : tensor :=
  Vec (nth t buf []).

(** Entry [(t, n)] of a (T, N) buffer. *)
Definition at2 (buf : list (list Q)) (t n : nat) : Q :=
  nth n (nth t buf []) 0.

(** [buf[t] = x]: the value is broadcast to the row's length. *)
Definition set_row (buf : list (list Q)) (t : nat) (x : tensor) : list (list Q) :=
  match x with
  | Scalar q => <[t := map (fun _ => q) (nth t buf [])]> buf
  | Vec v => <[t := v]> buf
  end.

(** [torch.zeros_like(buf)] *)
Definition zeros_like (buf : list (list Q)) : list (list Q) :=
  map (map (fun _ => 0)) buf.

(** [a + b] on two (T, N) buffers. *)
Definition add2 (a b : list (list Q)) : list (list Q) :=
  zip_with (zip_with Qplus) a b.

(** ** Generalized advantage estimation *)

Module GAE.

(** State of the dual-stream loop of ppo_rnd.py. *)
Record rnd_state : Set := {
  ext_advantages : list (list Q);
  int_advantages : list (list Q);
  ext_lastgaelam : tensor;
  int_lastgaelam : tensor
}.

Section Rnd.
Variables (gamma int_gamma gae_lambda : Q).
Variables (rewards curiosity_rewards ext_values int_values dones : list (list Q)).
Variables (next_done next_value_ext next_value_int : list Q).

(** [args.num_steps]: the buffers have that many rows. *)
Definition num_steps : nat := length rewards.

(** ppo_rnd.py, lines 520-538: one pass of the loop body. *)
Definition rnd_body (st : rnd_state) (t : nat) : rnd_state :=
  let ext_nextnonterminal :=
    if (t =? num_steps - 1)%nat
    then tsub (Scalar 1) (Vec next_done)
    else tsub (Scalar 1) (row_of dones (t + 1)) in
  let int_nextnonterminal := Scalar 1 in
  let ext_nextvalues :=
    if (t =? num_steps - 1)%nat
    then Vec next_value_ext
    else row_of ext_values (t + 1) in
  let int_nextvalues :=
    if (t =? num_steps - 1)%nat
    then Vec next_value_int
    else row_of int_values (t + 1) in
  let ext_delta :=
    tsub (tadd (row_of rewards t)
               (tmul (tmul (Scalar gamma) ext_nextvalues) ext_nextnonterminal))
         (row_of ext_values t) in
  let int_delta :=
    tsub (tadd (row_of curiosity_rewards t)
               (tmul (tmul (Scalar int_gamma) int_nextvalues) int_nextnonterminal))
         (row_of int_values t) in
  let ext_new :=
    tadd ext_delta
         (tmul (tmul (Scalar (gamma * gae_lambda)) ext_nextnonterminal)
               (ext_lastgaelam st)) in
  let int_new :=
    tadd int_delta
         (tmul (tmul (Scalar (int_gamma * gae_lambda)) int_nextnonterminal)
               (int_lastgaelam st)) in
  {| ext_advantages := set_row (ext_advantages st) t ext_new;
     int_advantages := set_row (int_advantages st) t int_new;
     ext_lastgaelam := ext_new;
     int_lastgaelam := int_new |}.

(** Lines 515-518: the state before the loop. *)
Definition rnd_init : rnd_state :=
  {| ext_advantages := zeros_like rewards;
     int_advantages := zeros_like curiosity_rewards;
     ext_lastgaelam := Scalar 0;
     int_lastgaelam := Scalar 0 |}.

(** [for t in reversed(range(args.num_steps))] *)
Definition rnd_loop : rnd_state :=
  fold_left rnd_body (rev (seq 0 num_steps)) rnd_init.

(** Lines 539-540. *)
Definition ext_returns : list (list Q) :=
  add2 (ext_advantages rnd_loop) ext_values.

Definition int_returns : list (list Q) :=
  add2 (int_advantages rnd_loop) int_values.

End Rnd.

(** State of the single-stream loop of ppo_rle.py. *)
Record rle_state : Set := {
  advantages : list (list Q);
  lastgaelam : tensor
}.

Section Rle.
Variables (gamma gae_lambda : Q).
Variables (rewards values dones : list (list Q)).
Variables (next_done next_value : list Q).

(** ppo_rle.py, lines 522-529. *)
Definition rle_body (st : rle_state) (t : nat) : rle_state :=
  let nextnonterminal :=
    if (t =? length rewards - 1)%nat
    then tsub (Scalar 1) (Vec next_done)
    else tsub (Scalar 1) (row_of dones (t + 1)) in
  let nextvalues :=
    if (t =? length rewards - 1)%nat
    then Vec next_value
    else row_of values (t + 1) in
  let delta :=
    tsub (tadd (row_of rewards t)
               (tmul (tmul (Scalar gamma) nextvalues) nextnonterminal))
         (row_of values t) in
  let new :=
    tadd delta
         (tmul (tmul (Scalar (gamma * gae_lambda)) nextnonterminal)
               (lastgaelam st)) in
  {| advantages := set_row (advantages st) t new; lastgaelam := new |}.

Definition rle_init : rle_state :=
  {| advantages := zeros_like rewards; lastgaelam := Scalar 0 |}.

Definition rle_loop : rle_state :=
  fold_left rle_body (rev (seq 0 (length rewards))) rle_init.

(** Line 530. *)
Definition returns : list (list Q) :=
  add2 (advantages rle_loop) values.

End Rle.

(** One reward stream of the loop, with the next-step value [nv t] and
    the non-terminal mask [nnt t] left open.  Both scripts' loops are
    instances; the invariant of the loop is proved once, on this form. *)
Section Stream.
Variables (g gl : Q) (r v : list (list Q)) (nv nnt : nat -> tensor).

Definition stream_new (last : tensor) (t : nat) : tensor :=
  tadd (tsub (tadd (row_of r t) (tmul (tmul (Scalar g) (nv t)) (nnt t)))
             (row_of v t))
       (tmul (tmul (Scalar gl) (nnt t)) last).

Definition stream_body (st : list (list Q) * tensor) (t : nat)
    : list (list Q) * tensor :=
  (set_row (fst st) t (stream_new (snd st) t), stream_new (snd st) t).

(** The value the recurrence gives entry [(t, n)] from the advantage
    [a] of the step after. *)
Definition rec_at (t n : nat) (a : Q) : Q :=
  at2 r t n + g * entry (nv t) n * entry (nnt t) n - at2 v t n
  + gl * entry (nnt t) n * a.

(** The loop invariant: the state once the rows [k .. T-1] of a (T, N)
    rollout have been processed. *)
Definition stream_inv (T N k : nat) (st : list (list Q) * tensor) : Prop :=
  has_shape T N (fst st) /\
  fits N (snd st) /\
  (forall n, (n < N)%nat ->
     entry (snd st) n = if (k =? T)%nat then 0 else at2 (fst st) k n) /\
  (forall t n, (k <= t < T)%nat -> (n < N)%nat ->
     at2 (fst st) t n
     = rec_at t n (if (t =? T - 1)%nat then 0 else at2 (fst st) (t + 1) n)).

End Stream.

End GAE.

(** ** Flattening the rollout batch *)

Module Batch.

(** [x.reshape((-1,) + shape)] on a buffer of shape (T, N) + shape:
    row-major, the rows one after the other. *)
Definition reshape_flat {A : Type} (buf : list (list A)) : list A :=
  concat buf.

(** [x.repeat_interleave(r, dim=0)]: every row [r] times in a row. *)
Definition repeat_interleave {A : Type} (x : list A) (r : nat) : list A :=
  flat_map (fun z => replicate r z) x.

(** What ppo_rnd.py keeps per transition; an observation is a vector. *)
Record rnd_rollout : Type := {
  obs : list (list (list Q));
  logprobs : list (list Q);
  actions : list (list Q);
  ext_advantages : list (list Q);
  int_advantages : list (list Q);
  ext_returns : list (list Q);
  int_returns : list (list Q);
  ext_values : list (list Q);
  int_values : list (list Q)
}.

Record rnd_batch : Type := {
  b_obs : list (list Q);
  b_logprobs : list Q;
  b_actions : list Q;
  b_ext_advantages : list Q;
  b_int_advantages : list Q;
  b_ext_returns : list Q;
  b_int_returns : list Q;
  b_ext_values : list Q;
  b_int_values : list Q
}.

(** ppo_rnd.py, lines 543-551. *)
Definition rnd_flatten (r : rnd_rollout) : rnd_batch :=
  {| b_obs := reshape_flat (obs r);
     b_logprobs := reshape_flat (logprobs r);
     b_actions := reshape_flat (actions r);
     b_ext_advantages := reshape_flat (ext_advantages r);
     b_int_advantages := reshape_flat (int_advantages r);
     b_ext_returns := reshape_flat (ext_returns r);
     b_int_returns := reshape_flat (int_returns r);
     b_ext_values := reshape_flat (ext_values r);
     b_int_values := reshape_flat (int_values r) |}.

(** Line 553. *)
Definition b_advantages (int_coef ext_coef : Q) (b : rnd_batch) : list Q :=
  zip_with Qplus
    (map (fun a => a * int_coef) (b_int_advantages b))
    (map (fun a => a * ext_coef) (b_ext_advantages b)).

(** What ppo_rle.py keeps: the per-transition buffers and the latent
    vectors, one per environment (shape (N, F)). *)
Record rle_rollout : Type := {
  rle_obs : list (list (list Q));
  rle_logprobs : list (list Q);
  rle_actions : list (list Q);
  rle_advantages : list (list Q);
  rle_returns : list (list Q);
  rle_values : list (list Q);
  latent_vectors : list (list Q)
}.

Record rle_batch : Type := {
  rle_b_obs : list (list Q);
  rle_b_logprobs : list Q;
  rle_b_actions : list Q;
  rle_b_advantages : list Q;
  rle_b_returns : list Q;
  rle_b_values : list Q;
  b_latents : list (list Q)
}.

(** ppo_rle.py, lines 535-541. *)
Definition rle_flatten (num_steps : nat) (r : rle_rollout) : rle_batch :=
  {| rle_b_obs := reshape_flat (rle_obs r);
     rle_b_logprobs := reshape_flat (rle_logprobs r);
     rle_b_actions := reshape_flat (rle_actions r);
     rle_b_advantages := reshape_flat (rle_advantages r);
     rle_b_returns := reshape_flat (rle_returns r);
     rle_b_values := reshape_flat (rle_values r);
     b_latents := repeat_interleave (latent_vectors r) num_steps |}.

(** The entry a (T, N) buffer holds for step [k / N] and environment
    [k mod N]. *)
Definition transition {A : Type} (N : nat) (buf : list (list A)) (k : nat)
    : option A :=
  match buf !! (k / N)%nat with
  | Some row => row !! (k mod N)%nat
  | None => None
  end.

(** A two-step, two-environment rollout in which every entry names the
    transition it belongs to: observation [(t, n)] is the vector
    [[t; n]], and the latent vector of environment [n] is [[n]]. *)
Definition tagged_rollout : rle_rollout :=
  {| rle_obs := [[[0; 0]; [0; 1]]; [[1; 0]; [1; 1]]];
     rle_logprobs := [[0; 0]; [0; 0]];
     rle_actions := [[0; 0]; [0; 0]];
     rle_advantages := [[0; 0]; [0; 0]];
     rle_returns := [[0; 0]; [0; 0]];
     rle_values := [[0; 0]; [0; 0]];
     latent_vectors := [[0]; [1]] |}.

End Batch.

(** ** The PPO losses of one minibatch *)

(** The mean of [f 0, ..., f (m - 1)], written index by index; the
    vectorised losses below are compared with this form. *)
Definition mean_over (m : nat) (f : nat -> Q) : Q :=
  qsum (map f (seq 0 m)) / inject_Z (Z.of_nat m).

(** [x[mb_inds]] *)
Definition gather (x : list Q) (inds : list nat) : list Q :=
  map (fun i => nth i x 0) inds.

(** [torch.clamp(x, lo, hi)] *)
Definition clamp (x lo hi : Q) : Q := Qmin (Qmax x lo) hi.

Module PPO.

Section WithExpSqrt.
Variables (exp sqrt : Q -> Q).

(** [x.std()]: the square root of the unbiased variance. *)
Definition torch_std (x : list Q) : Q := sqrt (torch_var x).

(** ppo_rnd.py line 597 / ppo_rle.py line 563. *)
Definition normalize_advantages (mb_advantages : list Q) : list Q :=
  map (fun a => (a - torch_mean mb_advantages)
                / (torch_std mb_advantages + 1e-8)) mb_advantages.

(** ppo_rnd.py lines 586-587, ppo_rle.py lines 557-558. *)
Definition ratio (newlogprob b_logprobs : list Q) (mb_inds : list nat) : list Q :=
  let logratio := zip_with Qminus newlogprob (gather b_logprobs mb_inds) in
  map exp logratio.

(** ppo_rnd.py lines 595-602, ppo_rle.py lines 561-567. *)
Definition pg_loss (norm_adv : bool) (clip_coef : Q)
    (b_advantages b_logprobs : list Q) (mb_inds : list nat)
    (newlogprob : list Q) : Q :=
  let ratio := ratio newlogprob b_logprobs mb_inds in
  let mb_advantages := gather b_advantages mb_inds in
  let mb_advantages :=
    if norm_adv then normalize_advantages mb_advantages else mb_advantages in
  let pg_loss1 := zip_with (fun a r => - a * r) mb_advantages ratio in
  let pg_loss2 :=
    zip_with (fun a r => - a * clamp r (1 - clip_coef) (1 + clip_coef))
             mb_advantages ratio in
  torch_mean (zip_with Qmax pg_loss1 pg_loss2).

End WithExpSqrt.

(** [0.5 * ((newvalue - returns[mb_inds]) ** 2).mean()] *)
Definition v_loss_plain (newvalue b_returns : list Q) (mb_inds : list nat) : Q :=
  0.5 * torch_mean
          (zip_with (fun v r => (v - r) ^ 2) newvalue (gather b_returns mb_inds)).

(** The clipped branch, ppo_rnd.py lines 608-616 and ppo_rle.py lines
    572-580. *)
Definition v_loss_clip (clip_coef : Q) (newvalue b_returns b_values : list Q)
    (mb_inds : list nat) : Q :=
  let v_loss_unclipped :=
    zip_with (fun v r => (v - r) ^ 2) newvalue (gather b_returns mb_inds) in
  let v_clipped :=
    zip_with Qplus (gather b_values mb_inds)
      (map (fun d => clamp d (- clip_coef) clip_coef)
           (zip_with Qminus newvalue (gather b_values mb_inds))) in
  let v_loss_clipped :=
    zip_with (fun v r => (v - r) ^ 2) v_clipped (gather b_returns mb_inds) in
  let v_loss_max := zip_with Qmax v_loss_unclipped v_loss_clipped in
  0.5 * torch_mean v_loss_max.

(** ppo_rle.py lines 570-582: the single value head. *)
Definition rle_v_loss (clip_vloss : bool) (clip_coef : Q)
    (newvalue b_returns b_values : list Q) (mb_inds : list nat) : Q :=
  if clip_vloss
  then v_loss_clip clip_coef newvalue b_returns b_values mb_inds
  else v_loss_plain newvalue b_returns mb_inds.

(** ppo_rnd.py lines 606-621: the two value heads.  Only the extrinsic
    head looks at [clip_vloss]. *)
Definition rnd_v_loss (clip_vloss : bool) (clip_coef : Q)
    (new_ext_values b_ext_returns b_ext_values : list Q)
    (new_int_values b_int_returns : list Q)
    (mb_inds : list nat) : Q :=
  let ext_v_loss :=
    if clip_vloss
    then v_loss_clip clip_coef new_ext_values b_ext_returns b_ext_values mb_inds
    else v_loss_plain new_ext_values b_ext_returns mb_inds in
  let int_v_loss := v_loss_plain new_int_values b_int_returns mb_inds in
  ext_v_loss + int_v_loss.

End PPO.

(** ** RND predictor loss *)

Module RND.

(** [F.mse_loss(predict, target, reduction="none").mean(-1)]: per
    sample, the mean over the features of the squared difference. *)
Definition mse_per_sample (predict target : list (list Q)) : list Q :=
  zip_with (fun p t => torch_mean (zip_with (fun a b => (a - b) ^ 2) p t))
           predict target.

(** Lines 577-578: [torch.rand(len(forward_loss))] compared with
    [update_proportion] and cast to float.  [rand i] is the i-th draw. *)
Definition sample_mask (rand : nat -> Q) (update_proportion : Q) (n : nat) : list Q :=
  map (fun i => if Qlt_le_dec (rand i) update_proportion then 1 else 0)
      (seq 0 n).


(** The divisor of line 579: [torch.max(mask.sum(), tensor([1]))]. *)
Definition divisor (mask : list Q) : Q := Qmax (qsum mask) 1.

(** Lines 573-581. *)
Definition forward_loss (predict target : list (list Q))
    (rand : nat -> Q) (update_proportion : Q) : Q :=
  let forward_loss := mse_per_sample predict target in
  let mask := sample_mask rand update_proportion (length forward_loss) in
  qsum (zip_with Qmult forward_loss mask) / divisor mask.

End RND.

(** ** The grid world: [FourRoomGridWorld] *)

Module FourRoom.

Inductive gym_error : Set :=
| AssertionError
| KeyError.

Inductive outcome (A : Type) : Type :=
| Done (a : A)
| Fail (e : gym_error).
Arguments Done {A} a.
Arguments Fail {A} e.

(** What [__init__] fixes: [self.size], the wall lines and the holes. *)
Record grid : Set := {
  size : Z;
  x_wall_position : Z;
  y_wall_position : Z;
  hole_1_position : Z * Z;
  hole_2_position : Z * Z;
  hole_3_position : Z * Z;
  hole_4_position : Z * Z
}.

(** What [reset] and [step] keep. *)
Record state : Set := {
  agent_location : Z * Z;
  target_location : Z * Z;
  start_location : Z * Z
}.

(** FourRoomGridWorld.py, lines 13-26 ([render_mode] left at [None]). *)
Definition make (size : Z) : outcome grid :=
  if negb (size mod 2 =? 0)%Z then Fail AssertionError
  else if negb (10 <=? size)%Z then Fail AssertionError
  else
    Done {| size := (size + 1)%Z;
            x_wall_position := (size / 2)%Z;
            y_wall_position := (size / 2)%Z;
            hole_1_position := ((size / 2)%Z, (size / 2 - 5)%Z);
            hole_2_position := ((size / 2)%Z, (size / 2 + 5)%Z);
            hole_3_position := ((size / 2 - 5)%Z, (size / 2)%Z);
            hole_4_position := ((size / 2 + 5)%Z, (size / 2)%Z) |}.

(** [np.array_equal] on two positions. *)
Definition array_equal (p q : Z * Z) : bool :=
  (fst p =? fst q)%Z && (snd p =? snd q)%Z.

(** Lines 56-65. *)
Definition position_is_not_in_wall (g : grid) (pos : Z * Z) : bool :=
  (negb (fst pos =? x_wall_position g)%Z && negb (snd pos =? y_wall_position g)%Z)
  || (array_equal pos (hole_1_position g)
      || array_equal pos (hole_2_position g)
      || array_equal pos (hole_3_position g)
      || array_equal pos (hole_4_position g)).

(** Lines 38-43: [self._action_to_direction[action]]. *)
Definition action_to_direction (action : Z) : outcome (Z * Z) :=
  if (action =? 0)%Z then Done (1, 0)%Z
  else if (action =? 1)%Z then Done (0, 1)%Z
  else if (action =? 2)%Z then Done (-1, 0)%Z
  else if (action =? 3)%Z then Done (0, -1)%Z
  else Fail KeyError.

Definition add_pos (p d : Z * Z) : Z * Z :=
  ((fst p + fst d)%Z, (snd p + snd d)%Z).

(** [np.clip(p, lo, hi)] *)
Definition clip_pos (p : Z * Z) (lo hi : Z) : Z * Z :=
  (Z.min (Z.max (fst p) lo) hi, Z.min (Z.max (snd p) lo) hi).

(** The test of line 111. *)
Definition outside (g : grid) (p : Z * Z) : bool :=
  (fst p <? 0)%Z || (size g - 1 <? fst p)%Z
  || (snd p <? 0)%Z || (size g - 1 <? snd p)%Z.

(** [_get_info]: the L1 distance from the agent to the target. *)
Definition distance (s : state) : Z :=
  (Z.abs (fst (agent_location s) - fst (target_location s))
   + Z.abs (snd (agent_location s) - snd (target_location s)))%Z.

(** What [step] returns; the observation is the three locations of the
    new state. *)
Record step_result : Set := {
  next_state : state;
  reward : Z;
  terminated : bool;
  truncated : bool;
  info_distance : Z
}.

(** Lines 93-125. *)
Definition step (g : grid) (s : state) (action : Z) : outcome step_result :=
  match action_to_direction action with
  | Fail e => Fail e
  | Done direction =>
      let new_position :=
        clip_pos (add_pos (agent_location s) direction) 0 (size g - 1) in
      let agent :=
        if position_is_not_in_wall g new_position
        then new_position else agent_location s in
      let terminated := array_equal agent (target_location s) in
      let reward := 0%Z in
      let reward :=
        if negb (position_is_not_in_wall g new_position) then (-1)%Z else reward in
      let new_position := add_pos agent direction in
      let reward := if outside g new_position then (-1)%Z else reward in
      let reward := if terminated then 1%Z else reward in
      let s' := {| agent_location := agent;
                   target_location := target_location s;
                   start_location := start_location s |} in
      Done {| next_state := s';
              reward := reward;
              terminated := terminated;
              truncated := false;
              info_distance := distance s' |}
  end.

(** The rejection loops of [reset] read [np_random.integers(0, self.size,
    size=2)] again and again; [draws] is the sequence of positions the
    generator yields.  The first accepted draw is returned with the
    draws that are left; [None] when the sequence is used up before a
    draw is accepted. *)
Fixpoint draw_until (ok : Z * Z -> bool) (draws : list (Z * Z))
    : option ((Z * Z) * list (Z * Z)) :=
  match draws with
  | [] => None
  | p :: rest => if ok p then Some (p, rest) else draw_until ok rest
  end.

(** Lines 67-90.  The target starts out equal to the agent, so its loop
    always draws at least once. *)
Definition reset (g : grid) (draws : list (Z * Z))
    : option (state * list (Z * Z)) :=
  match draw_until (position_is_not_in_wall g) draws with
  | None => None
  | Some (agent, rest) =>
      match draw_until
              (fun p => position_is_not_in_wall g p && negb (array_equal p agent))
              rest with
      | None => None
      | Some (target, rest') =>
          Some ({| agent_location := agent;
                   target_location := target;
                   start_location := agent |}, rest')
      end
  end.

(** A position lies on the board: both coordinates in [0, self.size - 1]. *)
Definition on_board (g : grid) (p : Z * Z) : Prop :=
  (0 <= fst p <= size g - 1)%Z /\ (0 <= snd p <= size g - 1)%Z.

End FourRoom.

(** ** Discounted returns of the actor-critic baseline *)

Module ActorCritic.

(** policy_gradient_actor_critic.py, lines 72-78:
<<
    returns = []
    G = 0
    for reward in reversed(rewards):
        G = reward + gamma * G
        returns.insert(0, G)
    return returns
>>
    The loop state is the pair of [G] and [returns]. *)
Definition compute_returns (rewards : list Q) (gamma : Q) : list Q :=
  snd (fold_left
         (fun st reward =>
            let G := reward + gamma * fst st in (G, G :: snd st))
         (rev rewards) (0, [])).

End ActorCritic.

(** [x] to the power [k]. *)
Fixpoint qpow (x : Q) (k : nat) : Q :=
  match k with
  | O => 1
  | S k' => x * qpow x k'
  end.

(** The discounted sum [r_0 + gamma r_1 + gamma^2 r_2 + ...] of a reward
    sequence, term by term. *)
Definition discounted_sum (gamma : Q) (rs : list Q) : Q :=
  qsum (map (fun k => qpow gamma k * nth k rs 0) (seq 0 (length rs))).

(** ** A statistic over its lifetime, and the moments of a sample *)

(** The statistic after it has been shown the batches one by one. *)
Definition update_all (s : RunningMeanStd.t) (batches : list (list Q))
    : RunningMeanStd.t :=
  fold_left RunningMeanStd.update batches s.

(** The variance of a sample about its mean with divisor [n] (the
    population variance), and the three moments of a sample packed like
    a statistic. *)
Definition pop_var (x : list Q) : Q :=
  qsum (map (fun xi => square (xi - torch_mean x)) x) / qlen x.

Definition moments_of (x : list Q) : RunningMeanStd.t :=
  {| RunningMeanStd.mean := torch_mean x;
     RunningMeanStd.var := pop_var x;
     RunningMeanStd.count := qlen x |}.

(** ** Further quantities of the optimization step *)

Module Metrics.

(** ppo_rnd.py line 593 / ppo_rle.py line 595:
    [((ratio - 1.0).abs() > args.clip_coef).float().mean()]. *)
Definition clipfrac (clip_coef : Q) (ratio : list Q) : Q :=
  torch_mean
    (map (fun r => if Qlt_le_dec clip_coef (Qabs (r - 1)) then 1 else 0) ratio).

(** [pg_loss1.mean()]: the surrogate loss without clipping. *)
Definition surrogate (mb_advantages ratio : list Q) : Q :=
  torch_mean (zip_with (fun a r => - a * r) mb_advantages ratio).

(** The advantages that enter the loss (ppo_rnd.py lines 595-597). *)
Definition mb_advantages (sqrt : Q -> Q) (norm_adv : bool)
    (b_advantages : list Q) (mb_inds : list nat) : list Q :=
  if norm_adv
  then PPO.normalize_advantages sqrt (gather b_advantages mb_inds)
  else gather b_advantages mb_inds.

End Metrics.

Module Curiosity.

(** ppo_rnd.py line 492:
    [(target_next_feature - predict_next_feature).pow(2).sum(1) / 2],
    one reward per environment. *)
Definition curiosity_rewards (target predict : list (list Q)) : list Q :=
  zip_with (fun t p => qsum (map (fun d => d ^ 2) (zip_with Qminus t p)) / 2)
           target predict.

(** Lines 483-489 and 557-562: an observation minus the running mean,
    over the square root of the running variance, feature by feature,
    clipped to [-5, 5]. *)
Definition normalize_obs (sqrt : Q -> Q) (mean var obs : list Q) : list Q :=
  map (fun x => clamp x (-5) 5)
      (zip_with (fun d v => d / sqrt v) (zip_with Qminus obs mean) var).

End Curiosity.

(** ** The loops around the update *)

Module Loops.

(** [range(0, stop, step)] for [step >= 0].  Python raises ValueError
    for a step of 0, modelled as [None]. *)
Definition py_range (stop step : nat) : option (list nat) :=
  if (step =? 0)%nat then None
  else Some (map (fun k => (k * step)%nat) (seq 0 ((stop + step - 1) / step))).

(** [l[start:end]] for [0 <= start <= end]: the slice stops at the end
    of the list. *)
Definition py_slice {A : Type} (l : list A) (start end_ : nat) : list A :=
  take (end_ - start) (drop start l).

(** ppo_rnd.py lines 568-570 / ppo_rle.py lines 547-549:
<<
  for start in range(0, args.batch_size, args.minibatch_size):
      end = start + args.minibatch_size
      mb_inds = b_inds[start:end]
>>
    The index sets of one epoch, in the order the loop visits them. *)
Definition minibatches (b_inds : list nat) (batch_size minibatch_size : nat)
    : option (list (list nat)) :=
  (fun starts =>
     map (fun start =>
            let end_ := (start + minibatch_size)%nat in
            py_slice b_inds start end_) starts)
  <$> py_range batch_size minibatch_size.

(** ppo_rnd.py lines 423-426 / ppo_rle.py lines 443-446:
<<
  frac = 1.0 - (update - 1.0) / num_updates
  lrnow = frac * args.learning_rate
>>
    inside [for update in range(1, num_updates + 1)]. *)
Definition lrnow (learning_rate : Q) (num_updates update : Z) : Q :=
  let frac := 1 - (inject_Z update - 1) / inject_Z num_updates in
  frac * learning_rate.

(** ppo_rnd.py lines 400-416, for one feature of the observation:
    [next_obs_at step] holds that feature for each environment after
    [envs.step].  The state is [obs_rms] and the list [next_ob]. *)
Definition warmup_body (num_steps : nat) (next_obs_at : nat -> list Q)
    (st : RunningMeanStd.t * list (list Q)) (step : nat)
    : RunningMeanStd.t * list (list Q) :=
  let '(obs_rms, next_ob) := st in
  let next_ob := next_ob ++ [next_obs_at step] in
  if (step mod num_steps =? 0)%nat
  then (RunningMeanStd.update obs_rms (concat next_ob), [])
  else (obs_rms, next_ob).

Definition warmup (num_steps num_iterations_obs_norm_init : nat)
    (next_obs_at : nat -> list Q) (obs_rms : RunningMeanStd.t)
    : RunningMeanStd.t * list (list Q) :=
  fold_left (warmup_body num_steps next_obs_at)
            (seq 0 (num_steps * num_iterations_obs_norm_init))
            (obs_rms, []).

End Loops.

(** ** Random latent exploration: latents and the feature network *)

Module RLE.

(** [t[mask] = rows] with a boolean mask and as many rows as the mask
    has True entries: the rows are written, in order, to the positions
    where the mask is True.  [None] where torch raises: the mask does
    not have the tensor's length, or the rows run out or are left
    over. *)
Fixpoint assign_rows {A : Type} (mask : list bool) (old new : list A)
    : option (list A) :=
  match mask, old with
  | [], [] => match new with [] => Some [] | _ :: _ => None end
  | true :: mask', _ :: old' =>
      match new with
      | x :: new' => cons x <$> assign_rows mask' old' new'
      | [] => None
      end
  | false :: mask', o :: old' => cons o <$> assign_rows mask' old' new
  | _, _ => None
  end.

(** [t[mask] = rows]: a single row is broadcast, so it goes to every
    position where the mask is True, however many there are; any other
    number of rows has to be the number of True entries. *)
Definition masked_assign {A : Type} (mask : list bool) (old new : list A)
    : option (list A) :=
  match new with
  | [x] =>
      if (length mask =? length old)%nat
      then Some (zip_with (fun (m : bool) o => if m then x else o) mask old)
      else None
  | _ => assign_rows mask old new
  end.

(** [mask.sum()] *)
Definition count_true (mask : list bool) : nat :=
  length (List.filter (fun b : bool => b) mask).

(** ppo_rle.py lines 481-487:
<<
  steps_since_z_reset += 1
  reset_z = (steps_since_z_reset >= z_reset_frequency) | torch.tensor(next_done)
  if reset_z.any():
      new_z = feature_network.sample_z(reset_z.sum())
      latent_vectors[reset_z] = new_z
      steps_since_z_reset[reset_z] = 0
>>
    [sample_z k] is the draw of [k] latents. *)
Definition resample (z_reset_frequency : Q) (sample_z : nat -> list (list Q))
    (next_done : list bool)
    (latent_vectors : list (list Q)) (steps_since_z_reset : list Q)
    : option (list (list Q) * list Q) :=
  let steps_since_z_reset := map (fun s => s + 1) steps_since_z_reset in
  let reset_z :=
    zip_with orb
      (map (fun s => if Qlt_le_dec s z_reset_frequency then false else true)
           steps_since_z_reset)
      next_done in
  if existsb (fun b : bool => b) reset_z then
    let new_z := sample_z (count_true reset_z) in
    (fun latent_vectors =>
       (latent_vectors,
        zip_with (fun (m : bool) s => if m then 0 else s)
                 reset_z steps_since_z_reset))
    <$> masked_assign reset_z latent_vectors new_z
  else Some (latent_vectors, steps_since_z_reset).

(** One parameter tensor: its shape and its entries. *)
Record param : Set := {
  shape : list nat;
  data : list Q
}.

(** [nn.Linear(in_features, out_features).parameters()]: the weight of
    shape (out, in), then the bias of shape (out). *)
Definition linear (in_features out_features : nat) (weight bias : list Q)
    : list param :=
  [ {| shape := [out_features; in_features]; data := weight |};
    {| shape := [out_features]; data := bias |} ].

(** [tau * policy + (1 - tau) * feat], entry by entry. *)
Definition mix (tau : Q) (policy feat : list Q) : list Q :=
  zip_with (fun p f => tau * p + (1 - tau) * f) policy feat.

(** Lines 294-299: the body of the inner loop. *)
Definition blend (tau : Q) (feat_param policy_param : param) : param :=
  if decide (shape feat_param = shape policy_param)
  then {| shape := shape feat_param;
          data := mix tau (data policy_param) (data feat_param) |}
  else feat_param.

(** [for x, y in zip(xs, ys): x <- f x y]: the entries of [xs] that
    [zip] reaches are rewritten, the rest stay. *)
Fixpoint zip_in_place {A B : Type} (f : A -> B -> A) (xs : list A) (ys : list B)
    : list A :=
  match xs, ys with
  | x :: xs', y :: ys' => f x y :: zip_in_place f xs' ys'
  | _, _ => xs
  end.

(** [update_from_policy_net], lines 282-299, on the Linear layers of
    [self.shared_layers] and of the policy network. *)
Definition update_from_policy_net (tau : Q)
    (shared_linear policy_linear : list (list param)) : list (list param) :=
  let feature_layers := shared_linear in
  let policy_layers := take (length feature_layers) policy_linear in
  zip_in_place (zip_in_place (blend tau)) feature_layers policy_layers.

(** [z.norm(dim=1)] of one row. *)
Definition norm (sqrt : Q -> Q) (row : list Q) : Q :=
  sqrt (qsum (map (fun x => x ^ 2) row)).

(** [sample_z], lines 307-311, from the normal draws [z]. *)
Definition sample_z (sqrt : Q -> Q) (z : list (list Q)) : list (list Q) :=
  map (fun row => map (fun x => x / norm sqrt row) row) z.

(** [normalize_features], lines 263-265. *)
Definition normalize_features (feat_mean feat_std features : list Q) : list Q :=
  zip_with (fun d s => d / (s + 1e-8)) (zip_with Qminus features feat_mean) feat_std.

(** [compute_reward], lines 267-279: one reward per row of features. *)
Definition compute_reward (feat_mean feat_std : list Q)
    (raw_features z : list (list Q)) : list Q :=
  zip_with (fun f zr => qsum (zip_with Qmult (normalize_features feat_mean feat_std f) zr))
           raw_features z.

End RLE.

(** ** Floats that are not a number *)

(** The rational definitions above give the value the code computes
    whenever that value is a finite number.  Torch returns NaN where
    they divide by zero: [torch.mean] of an empty tensor, [torch.var]
    and [.std()] of a tensor with fewer than two entries.  The
    definitions of this module follow the same source lines with that
    case kept apart. *)

Module NaN.

(** A float as the code holds it: a finite number, or [None] for a
    value that is not one (NaN, or an infinity out of a division by
    zero).  In every expression below an operand that is not finite
    gives a result that is not finite. *)
Definition lift1 (f : Q -> Q) (a : option Q) : option Q :=
  match a with
  | Some x => Some (f x)
  | None => None
  end.

Definition lift2 (op : Q -> Q -> Q) (a b : option Q) : option Q :=
  match a, b with
  | Some x, Some y => Some (op x y)
  | _, _ => None
  end.

Definition add : option Q -> option Q -> option Q := lift2 Qplus.
Definition sub : option Q -> option Q -> option Q := lift2 Qminus.
Definition mul : option Q -> option Q -> option Q := lift2 Qmult.

Definition div (a b : option Q) : option Q :=
  match a, b with
  | Some x, Some y => if Qeq_bool y 0 then None else Some (x / y)
  | _, _ => None
  end.

(** [torch.mean(x)] of a tensor of finite entries: NaN when [x] is
    empty. *)
Definition torch_mean (x : list Q) : option Q :=
  match x with
  | [] => None
  | _ :: _ => Some (torch_mean x)
  end.

(** [torch.var(x)] of a tensor of finite entries: NaN with fewer than
    two entries (the divisor [n - 1] is then 0 or negative). *)
Definition torch_var (x : list Q) : option Q :=
  if (length x <? 2)%nat then None else Some (torch_var x).

(** [x.std()] *)
Definition torch_std (sqrt : Q -> Q) (x : list Q) : option Q :=
  lift1 sqrt (torch_var x).

(** The entries of a tensor, when all of them are finite. *)
Fixpoint finite (x : list (option Q)) : option (list Q) :=
  match x with
  | [] => Some []
  | None :: _ => None
  | Some a :: x' =>
      match finite x' with
      | Some l => Some (a :: l)
      | None => None
      end
  end.

(** [x.mean()] of a tensor whose entries may be NaN. *)
Definition mean_of (x : list (option Q)) : option Q :=
  match finite x with
  | Some l => torch_mean l
  | None => None
  end.

(** *** [RunningMeanStd] *)

(** The object state: [mean] and [var] are tensors, [count] is a Python
    number. *)
Record t : Set := {
  mean : option Q;
  var : option Q;
  count : Q
}.

(** A state whose fields are finite. *)
Definition of_finite (s : RunningMeanStd.t) : t :=
  {| mean := Some (RunningMeanStd.mean s);
     var := Some (RunningMeanStd.var s);
     count := RunningMeanStd.count s |}.

(** ppo_rnd.py, lines 170-184. *)
Definition update_mean_var_count_from_moments
    (mean var : option Q) (count : Q)
    (batch_mean batch_var : option Q) (batch_count : Q)
    : option Q * option Q * Q :=
  let delta := sub batch_mean mean in
  let tot_count := count + batch_count in
  let new_mean :=
    add mean (div (mul delta (Some batch_count)) (Some tot_count)) in
  let m_a := mul var (Some count) in
  let m_b := mul batch_var (Some batch_count) in
  let M2 :=
    add (add m_a m_b)
        (div (mul (mul (lift1 square delta) (Some count)) (Some batch_count))
             (Some tot_count)) in
  let new_var := div M2 (Some tot_count) in
  let new_count := tot_count in
  (new_mean, new_var, new_count).

(** [update_from_moments], lines 163-167. *)
Definition update_from_moments (s : t)
    (batch_mean batch_var : option Q) (batch_count : Q) : t :=
  let '(m, v, c) :=
    update_mean_var_count_from_moments
      (mean s) (var s) (count s) batch_mean batch_var batch_count in
  {| mean := m; var := v; count := c |}.

(** [update], lines 156-161: [batch_count] is [x.shape[0]]. *)
Definition update (s : t) (x : list Q) : t :=
  let batch_mean := torch_mean x in
  let batch_var := torch_var x in
  let batch_count := qlen x in
  update_from_moments s batch_mean batch_var batch_count.

(** *** The policy loss *)

Section WithExpSqrt.
Variables (exp sqrt : Q -> Q).

(** ppo_rnd.py line 597 / ppo_rle.py line 563:
    [(mb_advantages - mb_advantages.mean()) / (mb_advantages.std() + 1e-8)]. *)
Definition normalize_advantages (mb_advantages : list Q) : list (option Q) :=
  map (fun a => div (sub (Some a) (torch_mean mb_advantages))
                    (add (torch_std sqrt mb_advantages) (Some 1e-8)))
      mb_advantages.

(** ppo_rnd.py lines 595-602, ppo_rle.py lines 561-567.  [torch.max] of
    two tensors and [.mean()] hand a NaN entry on. *)
Definition pg_loss (norm_adv : bool) (clip_coef : Q)
    (b_advantages b_logprobs : list Q) (mb_inds : list nat)
    (newlogprob : list Q) : option Q :=
  let ratio := PPO.ratio exp newlogprob b_logprobs mb_inds in
  let mb_advantages := gather b_advantages mb_inds in
  let mb_advantages :=
    if norm_adv then normalize_advantages mb_advantages
    else map Some mb_advantages in
  let pg_loss1 :=
    zip_with (fun a r => lift1 (fun a => - a * r) a) mb_advantages ratio in
  let pg_loss2 :=
    zip_with (fun a r =>
                lift1 (fun a => - a * clamp r (1 - clip_coef) (1 + clip_coef)) a)
             mb_advantages ratio in
  mean_of (zip_with (lift2 Qmax) pg_loss1 pg_loss2).

End WithExpSqrt.

End NaN.

(** * Theorems *)

(** ** Configuration *)

Lemma floordiv_ok (a b : Z) : b <> 0%Z -> floordiv a b = Ok (a / b)%Z.
Proof.
  intros Hb. unfold floordiv.
  destruct (Z.eqb_spec b 0) as [E|_]; [contradiction | reflexivity].
Qed.

Lemma floordiv_zero (a : Z) : floordiv a 0 = Raise ZeroDivisionError.
Proof. reflexivity. Qed.

Lemma parse_args_floor (c : Config.Cli) :
  Config.num_minibatches c <> 0%Z ->
  Config.parse_args c =
    Ok {| Config.cli := c;
          Config.batch_size := (Config.num_envs c * Config.num_steps c)%Z;
          Config.minibatch_size :=
            ((Config.num_envs c * Config.num_steps c) / Config.num_minibatches c)%Z |}.
Proof.
  intros Hnm. unfold Config.parse_args.
  rewrite (floordiv_ok _ _ Hnm). reflexivity.
Qed.

(** C3, as stated, fails: with 32 environments, 128 steps and 5
    minibatches the batch of 4096 transitions is not divisible by 5, and
    the start-up code raises nothing; it goes on with the minibatch size
    rounded down to 819. *)
Lemma C3_indivisible_batch_is_accepted :
  ((32 * 128) mod 5 <> 0)%Z /\
  Config.startup Config.cli_five_minibatches =
    Ok ({| Config.cli := Config.cli_five_minibatches;
           Config.batch_size := 4096;
           Config.minibatch_size := 819 |}, true, 610%Z) /\
  ~ (exists e, Config.startup Config.cli_five_minibatches = Raise e).
Proof.
  split; [discriminate|]. split; [reflexivity|].
  intros [e He]. discriminate He.
Qed.

(** C3, amended: [parse_args] has no divisibility check.  Whatever the
    options, it either returns with [minibatch_size] equal to the floor
    of [batch_size / num_minibatches], or raises [ZeroDivisionError], and
    it raises exactly when the minibatch count is zero. *)
Theorem C3_minibatch_size_is_floor (c : Config.Cli) :
  let batch := (Config.num_envs c * Config.num_steps c)%Z in
  match Config.parse_args c with
  | Ok a =>
      Config.num_minibatches c <> 0%Z /\
      Config.batch_size a = batch /\
      Config.minibatch_size a = (batch / Config.num_minibatches c)%Z
  | Raise e =>
      e = ZeroDivisionError /\ Config.num_minibatches c = 0%Z
  end.
Proof.
  intros batch.
  destruct (Z.eq_dec (Config.num_minibatches c) 0%Z) as [Hnm|Hnm].
  - unfold Config.parse_args. rewrite Hnm, floordiv_zero. cbn. auto.
  - rewrite (parse_args_floor c Hnm). cbn. auto.
Qed.

(** ** Running statistics *)

Lemma square_pow (x : Q) : square x == x ^ 2.
Proof. unfold square. ring. Qed.

(** The constructor's count is positive and a batch count is never
    negative, so the count of a statistic stays positive. *)
Lemma count_update_from_moments (s : RunningMeanStd.t) (bm bv bc : Q) :
  RunningMeanStd.count (RunningMeanStd.update_from_moments s bm bv bc)
  = RunningMeanStd.count s + bc.
Proof. reflexivity. Qed.

Lemma qlen_nonneg (x : list Q) : 0 <= qlen x.
Proof.
  unfold qlen. change 0 with (inject_Z 0). rewrite <- Zle_Qle. lia.
Qed.

Lemma count_positive_update (s : RunningMeanStd.t) (x : list Q) :
  0 < RunningMeanStd.count s ->
  0 < RunningMeanStd.count (RunningMeanStd.update s x).
Proof.
  intros H. unfold RunningMeanStd.update.
  rewrite count_update_from_moments.
  pose proof (qlen_nonneg x). lra.
Qed.

Lemma count_positive_default : 0 < RunningMeanStd.count RunningMeanStd.default.
Proof. reflexivity. Qed.

Lemma Qeq_bool_pos (q : Q) : 0 < q -> Qeq_bool q 0 = false.
Proof.
  intros H. destruct (Qeq_bool q 0) eqn:E; [|reflexivity].
  apply Qeq_bool_eq in E. lra.
Qed.

(** On a batch of two or more samples nothing is NaN, and [update]
    with torch's NaN kept apart is [update] on the rationals. *)
Lemma update_finite (s : RunningMeanStd.t) (x : list Q) :
  0 < RunningMeanStd.count s -> (2 <= length x)%nat ->
  NaN.update (NaN.of_finite s) x = NaN.of_finite (RunningMeanStd.update s x).
Proof.
  intros Hc Hx.
  assert (Ht : Qeq_bool (RunningMeanStd.count s + qlen x) 0 = false).
  { apply Qeq_bool_pos. pose proof (qlen_nonneg x). lra. }
  unfold NaN.update, NaN.update_from_moments,
    NaN.update_mean_var_count_from_moments, NaN.torch_var, NaN.torch_mean.
  destruct x as [|a x]; [cbn in Hx; lia|].
  destruct (Nat.ltb_spec (length (a :: x)) 2) as [C|_]; [lia|].
  repeat (progress (cbn [NaN.of_finite NaN.mean NaN.var NaN.count NaN.sub
                          NaN.add NaN.mul NaN.lift1 NaN.lift2 NaN.div];
                    rewrite ?Ht)).
  reflexivity.
Qed.

(** C4, as stated, fails in its last sentence: [update] computes a
    batch count of zero only from an empty tensor, and torch's mean and
    variance of an empty tensor are NaN; the running mean and variance
    become NaN and only the count is left as it was. *)
Lemma C4_empty_batch_is_not_a_noop :
  let s := NaN.of_finite RunningMeanStd.default in
  qlen [] == 0 /\
  NaN.mean (NaN.update s []) = None /\
  NaN.var (NaN.update s []) = None /\
  NaN.count (NaN.update s []) == NaN.count s /\
  NaN.update s [] <> s.
Proof.
  intros s. split; [reflexivity|]. split; [reflexivity|].
  split; [reflexivity|]. split; [reflexivity|].
  intros H. apply (f_equal NaN.mean) in H. discriminate H.
Qed.

(** C4, amended: on a statistic with a positive count (the
    constructor's count is positive and [update] keeps it so) the new
    count is always [count + batch_count].  For a batch of two or more
    samples [update] folds the batch's mean, variance and size into the
    statistic by the parallel merge identity, with
    [delta = batch_mean - mean] and [total = count + batch_count].  For
    a batch of one sample the mean is merged in the same way and the
    variance becomes NaN; for an empty batch, the only one with
    [batch_count = 0], mean and variance become NaN.  A batch count of
    zero is a no-op only below [update], in [update_from_moments] when
    it is handed finite moments. *)
Theorem C4_update_is_parallel_merge (s : RunningMeanStd.t) (x : list Q) :
  0 < RunningMeanStd.count s ->
  let batch_count := qlen x in
  let delta := torch_mean x - RunningMeanStd.mean s in
  let total := RunningMeanStd.count s + batch_count in
  let s' := NaN.update (NaN.of_finite s) x in
  NaN.count s' = total /\
  ((2 <= length x)%nat ->
     s' = NaN.of_finite (RunningMeanStd.update s x) /\
     RunningMeanStd.mean (RunningMeanStd.update s x)
       == RunningMeanStd.mean s + delta * batch_count / total /\
     RunningMeanStd.var (RunningMeanStd.update s x)
       == (RunningMeanStd.var s * RunningMeanStd.count s
           + torch_var x * batch_count
           + delta ^ 2 * RunningMeanStd.count s * batch_count / total) / total /\
     RunningMeanStd.count (RunningMeanStd.update s x) == total) /\
  (length x = 1%nat ->
     NaN.mean s' = Some (RunningMeanStd.mean s + delta * batch_count / total) /\
     NaN.var s' = None) /\
  (x = [] ->
     batch_count == 0 /\ NaN.mean s' = None /\ NaN.var s' = None /\
     NaN.count s' == RunningMeanStd.count s) /\
  (forall batch_mean batch_var zero_count : Q,
     zero_count == 0 ->
     RunningMeanStd.eqv
       (RunningMeanStd.update_from_moments s batch_mean batch_var zero_count) s).
Proof.
  intros Hc batch_count delta total s'.
  assert (Ht : Qeq_bool total 0 = false).
  { apply Qeq_bool_pos. subst total batch_count. pose proof (qlen_nonneg x). lra. }
  split; [reflexivity|]. split; [|split; [|split]].
  - intros Hx. split; [apply update_finite; assumption|].
    subst delta total batch_count. cbn. rewrite square_pow.
    repeat split; reflexivity.
  - intros Hx. destruct x as [|a [|b x]]; try discriminate Hx.
    subst s'. unfold NaN.update, NaN.update_from_moments,
      NaN.update_mean_var_count_from_moments, NaN.torch_var, NaN.torch_mean.
    subst total batch_count.
    repeat (progress (cbn [length Nat.ltb Nat.leb NaN.of_finite NaN.mean NaN.var
                            NaN.count NaN.sub NaN.add NaN.mul NaN.lift1 NaN.lift2
                            NaN.div];
                      rewrite ?Ht)).
    split; reflexivity.
  - intros ->. split; [reflexivity|]. split; [reflexivity|].
    split; [reflexivity|].
    subst s' total batch_count. cbn. unfold qlen. cbn. ring.
  - intros bm bv bc Hb. unfold RunningMeanStd.eqv. cbn.
    rewrite square_pow. rewrite Hb.
    repeat split; field; lra.
Qed.

(** C5: the merge is associative.  Folding batch [A], then [B], then [C]
    into a statistic gives the same mean, variance and count as folding
    [A] and then the combined moments of [B] and [C]. *)
Theorem C5_merge_is_associative (s A B C : RunningMeanStd.t) :
  0 < RunningMeanStd.count s ->
  0 <= RunningMeanStd.count A ->
  0 <= RunningMeanStd.count B ->
  0 <= RunningMeanStd.count C ->
  0 < RunningMeanStd.count B + RunningMeanStd.count C ->
  RunningMeanStd.eqv
    (RunningMeanStd.absorb (RunningMeanStd.absorb (RunningMeanStd.absorb s A) B) C)
    (RunningMeanStd.absorb (RunningMeanStd.absorb s A) (RunningMeanStd.absorb B C)).
Proof.
  intros Hs HA HB HC HBC.
  destruct s as [ms vs cs], A as [mA vA cA], B as [mB vB cB], C as [mC vC cC].
  cbn in *. unfold RunningMeanStd.eqv, RunningMeanStd.absorb. cbn.
  unfold square.
  repeat split; field; repeat split; lra.
Qed.

(** ** The store *)

Section StoreFacts.
Import Store.

Lemma storage_put_same st v j x :
  storage (put st v j x) (base v) = <[(off v + j)%nat := x]> (storage st (base v)).
Proof. unfold storage at 1, put. rewrite lookup_insert_eq. reflexivity. Qed.

Lemma storage_put_other st v j x l :
  l <> base v -> storage (put st v j x) l = storage st l.
Proof.
  intros Hl. unfold storage, put.
  rewrite lookup_insert_ne by congruence. reflexivity.
Qed.

Lemma valid_put st v j x w : valid st w -> valid (put st v j x) w.
Proof.
  unfold valid. intros H.
  destruct (decide (base w = base v)) as [E|E].
  - rewrite E, storage_put_same, length_insert. rewrite <- E. exact H.
  - rewrite storage_put_other by exact E. exact H.
Qed.

Lemma nth_insert_same (l : list Q) (i : nat) (x d : Q) :
  (i < length l)%nat -> nth i (<[i := x]> l) d = x.
Proof.
  intros H. rewrite nth_lookup, list_lookup_insert_eq by exact H. reflexivity.
Qed.

Lemma nth_insert_other (l : list Q) (i k : nat) (x d : Q) :
  i <> k -> nth k (<[i := x]> l) d = nth k l d.
Proof.
  intros H. rewrite !nth_lookup, list_lookup_insert_ne by exact H. reflexivity.
Qed.

Lemma get_put_same st v j x :
  valid st v -> (j < len v)%nat -> get (put st v j x) v j = x.
Proof.
  unfold valid, get. intros Hv Hj.
  rewrite storage_put_same. apply nth_insert_same. lia.
Qed.

Lemma get_put_other st v j k x :
  j <> k -> get (put st v j x) v k = get st v k.
Proof.
  unfold get. intros Hjk.
  rewrite storage_put_same. apply nth_insert_other. lia.
Qed.

(** A masked assignment whose values were computed beforehand, one per
    index, leaves exactly the indexed entries changed. *)
Lemma get_index_put (f : nat -> Q) (v : view) (mask : list nat) :
  forall st j,
    valid st v ->
    (forall i, In i mask -> (i < len v)%nat) ->
    get (index_put st v mask (map f mask)) v j
    = if in_dec Nat.eq_dec j mask then f j else get st v j.
Proof.
  unfold index_put.
  induction mask as [|i mask IH]; intros st j Hv Hm; cbn [map zip zip_with fold_left].
  - destruct (in_dec Nat.eq_dec j []) as [[]|_]. reflexivity.
  - cbn [fst snd].
    rewrite IH; [| apply valid_put; exact Hv | intros k Hk; apply Hm; right; exact Hk].
    destruct (in_dec Nat.eq_dec j mask) as [Hin|Hout];
      destruct (in_dec Nat.eq_dec j (i :: mask)) as [Hin'|Hout']; try reflexivity.
    + exfalso. apply Hout'. right. exact Hin.
    + destruct Hin' as [->|Hin'']; [| contradiction].
      apply get_put_same; [exact Hv | apply Hm; left; reflexivity].
    + apply get_put_other. intros ->. apply Hout'. left. reflexivity.
Qed.

Lemma valid_index_put st v mask vals w :
  valid st w -> valid (index_put st v mask vals) w.
Proof.
  unfold index_put. generalize (zip mask vals). intros l.
  revert st. induction l as [|[i x] l IH]; intros st Hv; cbn; [exact Hv|].
  apply IH. apply valid_put. exact Hv.
Qed.

Lemma in_where_eq (x : list Q) (c : Q) (j : nat) :
  In j (where_eq x c) <-> (j < length x)%nat /\ Qeq_bool (nth j x 0) c = true.
Proof.
  unfold where_eq. rewrite filter_In, in_seq. intuition lia.
Qed.

Lemma length_load st v : valid st v -> length (load st v) = len v.
Proof.
  unfold valid, load. intros H.
  rewrite length_take, length_drop. lia.
Qed.

Lemma nth_load st v j : (j < len v)%nat -> nth j (load st v) 0 = get st v j.
Proof.
  unfold load, get. intros H.
  rewrite !nth_lookup, lookup_take.
  destruct (decide (j < len v)%nat) as [_|C]; [| lia].
  rewrite lookup_drop. reflexivity.
Qed.

End StoreFacts.

(** ** The discounted reward accumulator *)

(** The first call binds the accumulator to the rewards tensor it was
    handed and returns its values; nothing is written. *)
Lemma update_first_call (g : Q) (rews : Store.view) (not_done : list Q)
    (st : gmap nat (list Q)) :
  RewardForwardFilter.update (RewardForwardFilter.init g) rews (Some not_done) st
  = (st, {| RewardForwardFilter.rewems := Some rews;
            RewardForwardFilter.gamma := g |},
     RewardForwardFilter.Copy (Store.load st rews)).
Proof. reflexivity. Qed.

(** C1, as stated, fails: on the third call [not_done] is false, the raw
    reward is 1, and the accumulator keeps its value 1.5 instead of
    being overwritten with 1; the three returned values are 1, 1.5,
    1.5. *)
Lemma C1_done_slot_keeps_accumulator :
  map (map Qred) (snd RewardForwardFilter.three_calls) = [[1]; [3 # 2]; [3 # 2]] /\
  ~ Forall2 (Forall2 Qeq) (snd RewardForwardFilter.three_calls) [[1]; [1.5]; [1]].
Proof.
  split; [vm_compute; reflexivity|].
  intros H. vm_compute in H.
  inversion H as [|? ? ? ? _ H1]; subst.
  inversion H1 as [|? ? ? ? _ H2]; subst.
  inversion H2 as [|? ? ? ? H3 _]; subst.
  inversion H3 as [|? ? ? ? H4 _]; subst.
  discriminate H4.
Qed.

(** C1, amended: once the accumulator exists, [update] replaces it by
    [accumulator * gamma + reward] in every slot whose [not_done] equals
    1 and leaves it unchanged in every other slot (no reset to the raw
    reward); it keeps referring to the same tensor and returns a copy of
    its values.  The very first call instead binds the accumulator to
    the rewards it receives and returns them.  For one environment,
    gamma = 0.5, rewards 1, 1, 1 and not_done 1, 1, 0 the returned values
    are 1, 1.5, 1.5. *)
Theorem C1_update_decays_not_done_slots
    (f : RewardForwardFilter.t) (acc rews : Store.view)
    (not_done : list Q) (st : gmap nat (list Q)) :
  RewardForwardFilter.rewems f = Some acc ->
  Store.valid st acc ->
  length not_done = Store.len acc ->
  let '(st', f', ret) := RewardForwardFilter.update f rews (Some not_done) st in
  (f' = f /\
   ret = RewardForwardFilter.Copy (Store.load st' acc) /\
   length (Store.load st' acc) = Store.len acc /\
   forall j, (j < Store.len acc)%nat ->
     nth j (Store.load st' acc) 0 =
       if Qeq_bool (nth j not_done 0) 1
       then Store.get st acc j * RewardForwardFilter.gamma f + Store.get st rews j
       else Store.get st acc j) /\
  (forall g rews0 nd0 st0,
     RewardForwardFilter.update (RewardForwardFilter.init g) rews0 (Some nd0) st0
     = (st0, {| RewardForwardFilter.rewems := Some rews0;
                RewardForwardFilter.gamma := g |},
        RewardForwardFilter.Copy (Store.load st0 rews0))) /\
  map (map Qred) (snd RewardForwardFilter.three_calls) = [[1]; [3 # 2]; [3 # 2]].
Proof.
  intros Hacc Hv Hlen. unfold RewardForwardFilter.update. rewrite Hacc.
  set (mask := where_eq not_done 1).
  set (rhs := fun j => Store.get st acc j * RewardForwardFilter.gamma f + Store.get st rews j).
  assert (Hmask : forall i, In i mask -> (i < Store.len acc)%nat).
  { intros i Hi. apply in_where_eq in Hi. lia. }
  assert (Hv' : Store.valid (Store.index_put st acc mask (map rhs mask)) acc)
    by (apply valid_index_put; exact Hv).
  split; [|split; [intros; reflexivity | vm_compute; reflexivity]].
  split; [reflexivity|]. split; [reflexivity|]. split.
  - apply length_load. exact Hv'.
  - intros j Hj. rewrite nth_load by exact Hj.
    rewrite (get_index_put rhs acc mask st j Hv Hmask).
    destruct (in_dec Nat.eq_dec j mask) as [Hin|Hout].
    + apply in_where_eq in Hin. destruct Hin as [_ ->]. reflexivity.
    + destruct (Qeq_bool (nth j not_done 0) 1) eqn:E; [|reflexivity].
      exfalso. apply Hout. apply in_where_eq. split; [lia | exact E].
Qed.

(** ** Entries of broadcast tensors and of buffers *)

Lemma nth_map_lt (f : Q -> Q) (v : list Q) (n : nat) :
  (n < length v)%nat -> nth n (map f v) 0 = f (nth n v 0).
Proof.
  intros H. rewrite !nth_lookup.
  change (map f v) with (f <$> v). rewrite list_lookup_fmap.
  destruct (lookup_lt_is_Some_2 v n H) as [x ->]. reflexivity.
Qed.

Lemma nth_zip_with_lt (op : Q -> Q -> Q) (v w : list Q) (n : nat) :
  (n < length v)%nat -> (n < length w)%nat ->
  nth n (zip_with op v w) 0 = op (nth n v 0) (nth n w 0).
Proof.
  intros Hv Hw. rewrite !nth_lookup, lookup_zip_with.
  destruct (lookup_lt_is_Some_2 v n Hv) as [x ->].
  destruct (lookup_lt_is_Some_2 w n Hw) as [y ->]. reflexivity.
Qed.

Lemma entry_broadcast (op : Q -> Q -> Q) (N : nat) (a b : tensor) (n : nat) :
  fits N a -> fits N b -> (n < N)%nat ->
  entry (broadcast op a b) n = op (entry a n) (entry b n).
Proof.
  destruct a as [x|v], b as [y|w]; cbn; intros Ha Hb Hn.
  - reflexivity.
  - apply nth_map_lt. lia.
  - apply (nth_map_lt (fun x => op x y)). lia.
  - apply nth_zip_with_lt; lia.
Qed.

Lemma fits_broadcast (op : Q -> Q -> Q) (N : nat) (a b : tensor) :
  fits N a -> fits N b -> fits N (broadcast op a b).
Proof.
  destruct a as [x|v], b as [y|w]; cbn; intros Ha Hb.
  - exact I.
  - rewrite length_map. exact Hb.
  - rewrite length_map. exact Ha.
  - rewrite length_zip_with. lia.
Qed.

Lemma is_vec_fits N x : is_vec N x -> fits N x.
Proof. intros (v & -> & H). exact H. Qed.

Lemma is_vec_broadcast_l (op : Q -> Q -> Q) (N : nat) (a b : tensor) :
  is_vec N a -> fits N b -> is_vec N (broadcast op a b).
Proof.
  intros (v & -> & Hv) Hb. destruct b as [y|w]; cbn in *.
  - eexists. split; [reflexivity|]. rewrite length_map. exact Hv.
  - eexists. split; [reflexivity|]. rewrite length_zip_with. lia.
Qed.

Lemma is_vec_broadcast_r (op : Q -> Q -> Q) (N : nat) (a b : tensor) :
  fits N a -> is_vec N b -> is_vec N (broadcast op a b).
Proof.
  intros Ha (w & -> & Hw). destruct a as [x|v]; cbn in *.
  - eexists. split; [reflexivity|]. rewrite length_map. exact Hw.
  - eexists. split; [reflexivity|]. rewrite length_zip_with. lia.
Qed.

Lemma has_shape_row {A : Type} (T N : nat) (buf : list (list A)) (t : nat) :
  has_shape T N buf -> (t < T)%nat -> length (nth t buf []) = N.
Proof.
  intros [HT HN] Ht. rewrite Forall_lookup in HN.
  destruct (nth_lookup_or_length buf t []) as [E|E]; [|lia].
  exact (HN _ _ E).
Qed.

Lemma is_vec_row_of (T N : nat) (buf : list (list Q)) (t : nat) :
  has_shape T N buf -> (t < T)%nat -> is_vec N (row_of buf t).
Proof.
  intros H Ht. exists (nth t buf []). split; [reflexivity|].
  apply (has_shape_row T N); assumption.
Qed.

Lemma entry_row_of (buf : list (list Q)) (t n : nat) :
  entry (row_of buf t) n = at2 buf t n.
Proof. reflexivity. Qed.

Lemma has_shape_zeros_like (T N : nat) (buf : list (list Q)) :
  has_shape T N buf -> has_shape T N (zeros_like buf).
Proof.
  intros [HT HN]. split.
  - unfold zeros_like. rewrite length_map. exact HT.
  - unfold zeros_like. rewrite Forall_lookup in *.
    intros i r Hr. change (map (map (fun _ : Q => 0)) buf)
      with (map (fun _ : Q => 0) <$> buf) in Hr.
    rewrite list_lookup_fmap in Hr.
    destruct (buf !! i) as [r0|] eqn:E; [|discriminate].
    injection Hr as <-. rewrite length_map. exact (HN _ _ E).
Qed.

Lemma has_shape_insert {A : Type} (T N : nat) (buf : list (list A)) (t : nat) (v : list A) :
  has_shape T N buf -> length v = N -> has_shape T N (<[t := v]> buf).
Proof.
  intros [HT HN] Hv. split.
  - rewrite length_insert. exact HT.
  - apply Forall_insert; assumption.
Qed.

Lemma at2_insert_same (buf : list (list Q)) (t n : nat) (v : list Q) :
  (t < length buf)%nat -> at2 (<[t := v]> buf) t n = nth n v 0.
Proof.
  intros Ht. unfold at2.
  rewrite (nth_lookup (<[t := v]> buf)), list_lookup_insert_eq by exact Ht.
  reflexivity.
Qed.

Lemma at2_insert_other (buf : list (list Q)) (t t' n : nat) (v : list Q) :
  t <> t' -> at2 (<[t := v]> buf) t' n = at2 buf t' n.
Proof.
  intros Ht. unfold at2.
  rewrite (nth_lookup (<[t := v]> buf)), list_lookup_insert_ne by exact Ht.
  rewrite <- nth_lookup. reflexivity.
Qed.

Lemma at2_add2 (T N : nat) (a b : list (list Q)) (t n : nat) :
  has_shape T N a -> has_shape T N b -> (t < T)%nat -> (n < N)%nat ->
  at2 (add2 a b) t n = at2 a t n + at2 b t n.
Proof.
  intros Ha Hb Ht Hn. unfold at2, add2.
  pose proof (has_shape_row T N a t Ha Ht) as La.
  pose proof (has_shape_row T N b t Hb Ht) as Lb.
  destruct Ha as [HTa _], Hb as [HTb _].
  rewrite (nth_lookup (zip_with _ a b)), lookup_zip_with.
  rewrite (nth_lookup a t []) in La |- *. rewrite (nth_lookup b t []) in Lb |- *.
  destruct (lookup_lt_is_Some_2 a t ltac:(lia)) as [ra Hra].
  destruct (lookup_lt_is_Some_2 b t ltac:(lia)) as [rb Hrb].
  rewrite Hra, Hrb in *. cbn in *.
  apply nth_zip_with_lt; lia.
Qed.

(** ** The advantage loop *)

Section StreamInvariant.
Variables (g gl : Q) (T N : nat) (r v : list (list Q)) (nv nnt : nat -> tensor).
Hypothesis Hr : has_shape T N r.
Hypothesis Hv : has_shape T N v.
Hypothesis Hnv : forall t, (t < T)%nat -> fits N (nv t).
Hypothesis Hnnt : forall t, (t < T)%nat -> fits N (nnt t).

Let rec_at := GAE.rec_at g gl r v nv nnt.
Let stream_inv := GAE.stream_inv g gl r v nv nnt T N.

Lemma stream_new_vec (last : tensor) (t : nat) :
  (t < T)%nat -> fits N last -> is_vec N (GAE.stream_new g gl r v nv nnt last t).
Proof.
  intros Ht Hl. unfold GAE.stream_new, tadd, tsub, tmul.
  apply is_vec_broadcast_l.
  - apply is_vec_broadcast_l; [| apply is_vec_fits, (is_vec_row_of T N); assumption].
    apply is_vec_broadcast_l; [apply (is_vec_row_of T N); assumption|].
    apply fits_broadcast; [apply fits_broadcast; [exact I|] |]; auto.
  - apply fits_broadcast; [apply fits_broadcast; [exact I|] |]; auto.
Qed.

Lemma stream_new_entry (last : tensor) (t n : nat) :
  (t < T)%nat -> (n < N)%nat -> fits N last ->
  entry (GAE.stream_new g gl r v nv nnt last t) n = rec_at t n (entry last n).
Proof.
  intros Ht Hn Hl. unfold rec_at, GAE.rec_at, GAE.stream_new, tadd, tsub, tmul.
  pose proof (is_vec_fits _ _ (is_vec_row_of T N r t Hr Ht)) as Fr.
  pose proof (is_vec_fits _ _ (is_vec_row_of T N v t Hv Ht)) as Fv.
  pose proof (Hnv t Ht) as Fnv. pose proof (Hnnt t Ht) as Fnnt.
  assert (Fg : fits N (Scalar g)) by exact I.
  assert (Fgl : fits N (Scalar gl)) by exact I.
  repeat (rewrite (entry_broadcast _ N); auto using fits_broadcast).
Qed.

Lemma stream_inv_step (k : nat) (st : list (list Q) * tensor) :
  (k < T)%nat -> stream_inv (S k) st ->
  stream_inv k (GAE.stream_body g gl r v nv nnt st k).
Proof.
  intros Hk (Hsh & Hfit & Hlast & Hrec).
  destruct (stream_new_vec (snd st) k Hk Hfit) as (w & Ew & Lw).
  pose proof (fun n Hn => stream_new_entry (snd st) k n Hk Hn Hfit) as Hent.
  rewrite Ew in Hent. cbn [entry] in Hent.
  unfold stream_inv, GAE.stream_inv, GAE.stream_body. rewrite Ew.
  cbn [fst snd set_row entry]. fold rec_at.
  assert (HkT : (k < length (fst st))%nat) by (destruct Hsh; lia).
  split; [apply has_shape_insert; assumption|].
  split; [exact Lw|]. split.
  - intros n Hn. destruct (Nat.eqb_spec k T) as [E|_]; [lia|].
    rewrite at2_insert_same by exact HkT. reflexivity.
  - intros t n Ht Hn.
    destruct (Nat.eq_dec t k) as [->|Hne].
    + rewrite at2_insert_same by exact HkT.
      rewrite (Hent n Hn), (Hlast n Hn). f_equal.
      destruct (Nat.eqb_spec (S k) T) as [E|E];
        destruct (Nat.eqb_spec k (T - 1)) as [E'|E']; try lia; try reflexivity.
      rewrite at2_insert_other by lia. f_equal. lia.
    + rewrite at2_insert_other by lia.
      rewrite (Hrec t n ltac:(lia) Hn). f_equal.
      destruct (Nat.eqb_spec t (T - 1)) as [E'|E']; [reflexivity|].
      rewrite at2_insert_other by lia. reflexivity.
Qed.

Lemma stream_inv_init : stream_inv T (zeros_like r, Scalar 0).
Proof.
  split; [apply has_shape_zeros_like; exact Hr|].
  split; [exact I|]. split.
  - intros n _. cbn. rewrite Nat.eqb_refl. reflexivity.
  - intros t n Ht. lia.
Qed.

Lemma stream_inv_loop (m : nat) :
  (m <= T)%nat ->
  stream_inv (T - m)
    (fold_left (GAE.stream_body g gl r v nv nnt) (rev (seq (T - m) m))
               (zeros_like r, Scalar 0)).
Proof.
  induction m as [|m IH]; intros Hm.
  - rewrite Nat.sub_0_r. cbn. apply stream_inv_init.
  - replace (seq (T - S m) (S m)) with ((T - S m)%nat :: seq (T - m) m)
      by (cbn; f_equal; f_equal; lia).
    cbn [rev]. rewrite fold_left_app. cbn [fold_left].
    apply stream_inv_step; [lia|].
    replace (S (T - S m)) with (T - m)%nat by lia.
    apply IH. lia.
Qed.

(** After the whole loop every entry obeys the recurrence. *)
Lemma stream_loop_recurrence :
  let adv := fst (fold_left (GAE.stream_body g gl r v nv nnt) (rev (seq 0 T))
                            (zeros_like r, Scalar 0)) in
  has_shape T N adv /\
  forall t n, (t < T)%nat -> (n < N)%nat ->
    at2 adv t n
    = at2 r t n + g * entry (nv t) n * entry (nnt t) n - at2 v t n
      + gl * entry (nnt t) n * (if (t =? T - 1)%nat then 0 else at2 adv (t + 1) n).
Proof.
  pose proof (stream_inv_loop T (Nat.le_refl T)) as H.
  rewrite Nat.sub_diag in H. destruct H as (Hsh & _ & _ & Hrec).
  split; [exact Hsh|].
  intros t n Ht Hn. apply (Hrec t n); lia.
Qed.

End StreamInvariant.

Section GaeLoops.
Variables (gamma int_gamma gae_lambda : Q).
Variables (rewards curiosity_rewards ext_values int_values dones : list (list Q)).
Variables (next_done next_value_ext next_value_int : list Q).

Let last_step (t : nat) : bool := (t =? length rewards - 1)%nat.

Let ext_mask (t : nat) : tensor :=
  if last_step t then tsub (Scalar 1) (Vec next_done)
  else tsub (Scalar 1) (row_of dones (t + 1)).

Let ext_next (t : nat) : tensor :=
  if last_step t then Vec next_value_ext else row_of ext_values (t + 1).

Let int_next (t : nat) : tensor :=
  if last_step t then Vec next_value_int else row_of int_values (t + 1).

(** The extrinsic half of the dual loop is a stream with mask
    [1 - done]. *)
Lemma rnd_fold_ext (l : list nat) (st : GAE.rnd_state) :
  let st' :=
    fold_left (GAE.rnd_body gamma int_gamma gae_lambda rewards curiosity_rewards
                 ext_values int_values dones next_done next_value_ext next_value_int)
              l st in
  (GAE.ext_advantages st', GAE.ext_lastgaelam st')
  = fold_left (GAE.stream_body gamma (gamma * gae_lambda) rewards ext_values
                 ext_next ext_mask)
              l (GAE.ext_advantages st, GAE.ext_lastgaelam st).
Proof.
  revert st. induction l as [|t l IH]; intros st; [reflexivity|].
  cbn [fold_left]. cbv zeta in IH. rewrite IH. reflexivity.
Qed.

(** The intrinsic half is a stream whose mask is the constant 1. *)
Lemma rnd_fold_int (l : list nat) (st : GAE.rnd_state) :
  let st' :=
    fold_left (GAE.rnd_body gamma int_gamma gae_lambda rewards curiosity_rewards
                 ext_values int_values dones next_done next_value_ext next_value_int)
              l st in
  (GAE.int_advantages st', GAE.int_lastgaelam st')
  = fold_left (GAE.stream_body int_gamma (int_gamma * gae_lambda)
                 curiosity_rewards int_values int_next (fun _ => Scalar 1))
              l (GAE.int_advantages st, GAE.int_lastgaelam st).
Proof.
  revert st. induction l as [|t l IH]; intros st; [reflexivity|].
  cbn [fold_left]. cbv zeta in IH. rewrite IH. reflexivity.
Qed.

(** The single loop of ppo_rle.py is the same stream as the extrinsic
    half. *)
Lemma rle_fold (l : list nat) (st : GAE.rle_state) :
  let st' :=
    fold_left (GAE.rle_body gamma gae_lambda rewards ext_values dones
                 next_done next_value_ext) l st in
  (GAE.advantages st', GAE.lastgaelam st')
  = fold_left (GAE.stream_body gamma (gamma * gae_lambda) rewards ext_values
                 ext_next ext_mask)
              l (GAE.advantages st, GAE.lastgaelam st).
Proof.
  revert st. induction l as [|t l IH]; intros st; [reflexivity|].
  cbn [fold_left]. cbv zeta in IH. rewrite IH. reflexivity.
Qed.

Lemma rle_advantages_eq_ext :
  GAE.advantages (GAE.rle_loop gamma gae_lambda rewards ext_values dones
                    next_done next_value_ext)
  = GAE.ext_advantages
      (GAE.rnd_loop gamma int_gamma gae_lambda rewards curiosity_rewards
         ext_values int_values dones next_done next_value_ext next_value_int).
Proof.
  unfold GAE.rle_loop, GAE.rnd_loop, GAE.num_steps.
  pose proof (rle_fold (rev (seq 0 (length rewards)))
                (GAE.rle_init rewards)) as H1.
  pose proof (rnd_fold_ext (rev (seq 0 (length rewards)))
                (GAE.rnd_init rewards curiosity_rewards)) as H2.
  cbv zeta in H1, H2. cbn [GAE.rle_init GAE.rnd_init GAE.advantages
    GAE.lastgaelam GAE.ext_advantages GAE.ext_lastgaelam] in H1, H2.
  rewrite <- H2 in H1. injection H1 as H1 _. exact H1.
Qed.

End GaeLoops.

(** C6: the advantage loops of both scripts satisfy, for every step
    [t < T] and environment [n < N], the backward recurrence
    [A_t = delta_t + gamma * lambda * (1 - done_{t+1}) * A_{t+1}] with
    [delta_t = r_t + gamma * V_{t+1} * (1 - done_{t+1}) - V_t], where at
    [t = T-1] the flag is [next_done], the value is the bootstrap value
    and the advantage after the last step is 0; the intrinsic stream
    obeys the same recurrence with the mask replaced by the constant 1 at
    every step; the returns are advantages plus values, entry by entry;
    and the single-stream loop of ppo_rle.py yields the extrinsic
    advantages and returns. *)
Theorem C6_gae_backward_recurrence
    (gamma int_gamma gae_lambda : Q) (T N : nat)
    (rewards curiosity_rewards ext_values int_values dones : list (list Q))
    (next_done next_value_ext next_value_int : list Q) :
  has_shape T N rewards -> has_shape T N curiosity_rewards ->
  has_shape T N ext_values -> has_shape T N int_values ->
  has_shape T N dones ->
  length next_done = N -> length next_value_ext = N ->
  length next_value_int = N ->
  let st := GAE.rnd_loop gamma int_gamma gae_lambda rewards curiosity_rewards
              ext_values int_values dones next_done next_value_ext next_value_int in
  let A := at2 (GAE.ext_advantages st) in
  let Ai := at2 (GAE.int_advantages st) in
  let R := GAE.ext_returns gamma int_gamma gae_lambda rewards curiosity_rewards
              ext_values int_values dones next_done next_value_ext next_value_int in
  let Ri := GAE.int_returns gamma int_gamma gae_lambda rewards curiosity_rewards
              ext_values int_values dones next_done next_value_ext next_value_int in
  (forall t n, (t < T)%nat -> (n < N)%nat ->
     let last := (t =? T - 1)%nat in
     let done_next := if last then nth n next_done 0 else at2 dones (t + 1) n in
     let v_next := if last then nth n next_value_ext 0 else at2 ext_values (t + 1) n in
     let vi_next := if last then nth n next_value_int 0 else at2 int_values (t + 1) n in
     let A_next := if last then 0 else A (t + 1)%nat n in
     let Ai_next := if last then 0 else Ai (t + 1)%nat n in
     let delta := at2 rewards t n + gamma * v_next * (1 - done_next) - at2 ext_values t n in
     let int_delta :=
       at2 curiosity_rewards t n + int_gamma * vi_next * 1 - at2 int_values t n in
     A t n = delta + gamma * gae_lambda * (1 - done_next) * A_next /\
     Ai t n = int_delta + int_gamma * gae_lambda * 1 * Ai_next /\
     at2 R t n = A t n + at2 ext_values t n /\
     at2 Ri t n = Ai t n + at2 int_values t n) /\
  GAE.advantages (GAE.rle_loop gamma gae_lambda rewards ext_values dones
                    next_done next_value_ext)
  = GAE.ext_advantages st /\
  GAE.returns gamma gae_lambda rewards ext_values dones next_done next_value_ext = R.
Proof.
  intros Hr Hc Hve Hvi Hd Lnd Lnve Lnvi st A Ai R Ri.
  assert (HT : length rewards = T) by (destruct Hr; assumption).
  pose (ext_mask := fun t =>
         if (t =? T - 1)%nat then tsub (Scalar 1) (Vec next_done)
         else tsub (Scalar 1) (row_of dones (t + 1))).
  pose (ext_next := fun t =>
         if (t =? T - 1)%nat then Vec next_value_ext else row_of ext_values (t + 1)).
  pose (int_next := fun t =>
         if (t =? T - 1)%nat then Vec next_value_int else row_of int_values (t + 1)).
  assert (Fmask : forall t, (t < T)%nat -> fits N (ext_mask t)).
  { intros t Ht. unfold ext_mask, tsub.
    destruct (Nat.eqb_spec t (T - 1)) as [E|E];
      apply fits_broadcast; try exact I; [exact Lnd|].
    apply is_vec_fits, (is_vec_row_of T N); [exact Hd | lia]. }
  assert (Fnext : forall t, (t < T)%nat -> fits N (ext_next t)).
  { intros t Ht. unfold ext_next.
    destruct (Nat.eqb_spec t (T - 1)) as [E|E]; [exact Lnve|].
    apply is_vec_fits, (is_vec_row_of T N); [exact Hve | lia]. }
  assert (Finext : forall t, (t < T)%nat -> fits N (int_next t)).
  { intros t Ht. unfold int_next.
    destruct (Nat.eqb_spec t (T - 1)) as [E|E]; [exact Lnvi|].
    apply is_vec_fits, (is_vec_row_of T N); [exact Hvi | lia]. }
  assert (Emask : forall t n, (t < T)%nat -> (n < N)%nat ->
            entry (ext_mask t) n
            = 1 - (if (t =? T - 1)%nat then nth n next_done 0
                   else at2 dones (t + 1) n)).
  { intros t n Ht Hn. unfold ext_mask, tsub.
    destruct (Nat.eqb_spec t (T - 1)) as [E|E].
    - rewrite (entry_broadcast _ N); [reflexivity | exact I | exact Lnd | exact Hn].
    - rewrite (entry_broadcast _ N); [reflexivity | exact I | | exact Hn].
      apply is_vec_fits, (is_vec_row_of T N); [exact Hd | lia]. }
  assert (Enext : forall t n,
            entry (ext_next t) n
            = if (t =? T - 1)%nat then nth n next_value_ext 0
              else at2 ext_values (t + 1) n).
  { intros t n. unfold ext_next. destruct (t =? T - 1)%nat; reflexivity. }
  assert (Einext : forall t n,
            entry (int_next t) n
            = if (t =? T - 1)%nat then nth n next_value_int 0
              else at2 int_values (t + 1) n).
  { intros t n. unfold int_next. destruct (t =? T - 1)%nat; reflexivity. }
  pose proof (stream_loop_recurrence gamma (gamma * gae_lambda) T N
                rewards ext_values ext_next ext_mask Hr Hve Fnext Fmask) as He.
  pose proof (stream_loop_recurrence int_gamma (int_gamma * gae_lambda) T N
                curiosity_rewards int_values int_next (fun _ => Scalar 1)
                Hc Hvi Finext (fun _ _ => I)) as Hi.
  cbv zeta in He, Hi.
  pose proof (rnd_fold_ext gamma int_gamma gae_lambda rewards curiosity_rewards
                ext_values int_values dones next_done next_value_ext next_value_int
                (rev (seq 0 T)) (GAE.rnd_init rewards curiosity_rewards)) as Fe.
  pose proof (rnd_fold_int gamma int_gamma gae_lambda rewards curiosity_rewards
                ext_values int_values dones next_done next_value_ext next_value_int
                (rev (seq 0 T)) (GAE.rnd_init rewards curiosity_rewards)) as Fi.
  cbv zeta in Fe, Fi. rewrite HT in Fe, Fi.
  assert (Est : st = fold_left
            (GAE.rnd_body gamma int_gamma gae_lambda rewards curiosity_rewards
               ext_values int_values dones next_done next_value_ext next_value_int)
            (rev (seq 0 T)) (GAE.rnd_init rewards curiosity_rewards)).
  { unfold st, GAE.rnd_loop, GAE.num_steps. rewrite HT. reflexivity. }
  rewrite <- Est in Fe, Fi.
  change (fold_left (GAE.stream_body gamma (gamma * gae_lambda) rewards
            ext_values ext_next ext_mask) (rev (seq 0 T)) (zeros_like rewards, Scalar 0))
    with (fold_left (GAE.stream_body gamma (gamma * gae_lambda) rewards
            ext_values ext_next ext_mask) (rev (seq 0 T))
            (GAE.ext_advantages (GAE.rnd_init rewards curiosity_rewards),
             GAE.ext_lastgaelam (GAE.rnd_init rewards curiosity_rewards))) in He.
  change (fold_left (GAE.stream_body int_gamma (int_gamma * gae_lambda)
            curiosity_rewards int_values int_next (fun _ => Scalar 1))
            (rev (seq 0 T)) (zeros_like curiosity_rewards, Scalar 0))
    with (fold_left (GAE.stream_body int_gamma (int_gamma * gae_lambda)
            curiosity_rewards int_values int_next (fun _ => Scalar 1))
            (rev (seq 0 T))
            (GAE.int_advantages (GAE.rnd_init rewards curiosity_rewards),
             GAE.int_lastgaelam (GAE.rnd_init rewards curiosity_rewards))) in Hi.
  assert (Fe' : (GAE.ext_advantages st, GAE.ext_lastgaelam st)
                = fold_left (GAE.stream_body gamma (gamma * gae_lambda) rewards
                    ext_values ext_next ext_mask) (rev (seq 0 T))
                    (GAE.ext_advantages (GAE.rnd_init rewards curiosity_rewards),
                     GAE.ext_lastgaelam (GAE.rnd_init rewards curiosity_rewards)))
    by exact Fe.
  assert (Fi' : (GAE.int_advantages st, GAE.int_lastgaelam st)
                = fold_left (GAE.stream_body int_gamma (int_gamma * gae_lambda)
                    curiosity_rewards int_values int_next (fun _ => Scalar 1))
                    (rev (seq 0 T))
                    (GAE.int_advantages (GAE.rnd_init rewards curiosity_rewards),
                     GAE.int_lastgaelam (GAE.rnd_init rewards curiosity_rewards)))
    by exact Fi.
  rewrite <- Fe' in He. rewrite <- Fi' in Hi. cbn [fst] in He, Hi.
  destruct He as [She He], Hi as [Shi Hi].
  assert (EA : GAE.advantages (GAE.rle_loop gamma gae_lambda rewards ext_values
                 dones next_done next_value_ext) = GAE.ext_advantages st).
  { apply (rle_advantages_eq_ext gamma int_gamma gae_lambda rewards
             curiosity_rewards ext_values int_values dones next_done
             next_value_ext next_value_int). }
  assert (ER : GAE.returns gamma gae_lambda rewards ext_values dones
                 next_done next_value_ext = R).
  { subst R. unfold GAE.returns, GAE.ext_returns. f_equal.
    apply rle_advantages_eq_ext. }
  split; [| split; [exact EA | exact ER]].
  intros t n Ht Hn last done_next v_next vi_next A_next Ai_next delta int_delta.
  assert (ERt : R = add2 (GAE.ext_advantages st) ext_values) by reflexivity.
  assert (ERi : Ri = add2 (GAE.int_advantages st) int_values) by reflexivity.
  repeat split.
  - subst A. cbv beta.
    rewrite (He t n Ht Hn), (Emask t n Ht Hn), Enext. reflexivity.
  - subst Ai. cbv beta. rewrite (Hi t n Ht Hn), Einext. reflexivity.
  - rewrite ERt. apply (at2_add2 T N); assumption.
  - rewrite ERi. apply (at2_add2 T N); assumption.
Qed.

(** ** Flattening *)

Lemma reshape_flat_lookup {A : Type} (N : nat) (buf : list (list A)) :
  Forall (fun r => length r = N) buf ->
  forall t n, (n < N)%nat ->
    Batch.reshape_flat buf !! (t * N + n)%nat = buf !! t ≫= (fun r => r !! n).
Proof.
  unfold Batch.reshape_flat.
  induction buf as [|r buf IH]; intros HN t n Hn.
  - reflexivity.
  - apply Forall_cons in HN. destruct HN as [Hr HN]. cbn [concat].
    destruct t as [|t].
    + cbn. rewrite lookup_app_l by lia. reflexivity.
    + rewrite lookup_app_r by (rewrite Hr; lia).
      replace (S t * N + n - length r)%nat with (t * N + n)%nat by (rewrite Hr; lia).
      rewrite IH by assumption. reflexivity.
Qed.

(** Flat index [k] of a reshaped buffer is transition
    [(k / N, k mod N)]. *)
Lemma reshape_flat_index {A : Type} (T N : nat) (buf : list (list A)) (k : nat) :
  has_shape T N buf -> (0 < N)%nat ->
  Batch.reshape_flat buf !! k = Batch.transition N buf k.
Proof.
  intros [_ HN] HNpos. unfold Batch.transition.
  change (match buf !! (k / N)%nat with
          | Some row => row !! (k mod N)%nat
          | None => None
          end) with (buf !! (k / N)%nat ≫= (fun r : list A => r !! (k mod N)%nat)).
  rewrite <- (reshape_flat_lookup N buf HN (k / N) (k mod N)).
  - f_equal. rewrite (Nat.div_mod_eq k N) at 1. lia.
  - apply Nat.mod_upper_bound. lia.
Qed.

Lemma repeat_interleave_lookup {A : Type} (r : nat) (x : list A) (k : nat) :
  (0 < r)%nat ->
  Batch.repeat_interleave x r !! k = x !! (k / r)%nat.
Proof.
  intros Hr. unfold Batch.repeat_interleave. revert k.
  induction x as [|z x IH]; intros k.
  - reflexivity.
  - cbn [flat_map]. destruct (Nat.lt_ge_cases k r) as [Hk|Hk].
    + rewrite lookup_app_l by (rewrite length_replicate; exact Hk).
      rewrite Nat.div_small by exact Hk. cbn.
      apply lookup_replicate. auto.
    + rewrite lookup_app_r by (rewrite length_replicate; exact Hk).
      rewrite length_replicate, IH.
      replace (k / r)%nat with (S ((k - r) / r)).
      * reflexivity.
      * replace k with ((k - r) + 1 * r)%nat at 2 by lia.
        rewrite Nat.div_add by lia. lia.
Qed.

(** In ppo_rnd.py every per-transition field goes through the same
    reshape, so flat index [k] holds transition [(k / N, k mod N)] in
    each of them. *)
Lemma rnd_flatten_aligned (T N : nat) (r : Batch.rnd_rollout) (k : nat) :
  (0 < N)%nat ->
  has_shape T N (Batch.obs r) -> has_shape T N (Batch.logprobs r) ->
  has_shape T N (Batch.actions r) ->
  has_shape T N (Batch.ext_advantages r) -> has_shape T N (Batch.int_advantages r) ->
  has_shape T N (Batch.ext_returns r) -> has_shape T N (Batch.int_returns r) ->
  has_shape T N (Batch.ext_values r) -> has_shape T N (Batch.int_values r) ->
  let b := Batch.rnd_flatten r in
  let pick {A : Type} (buf : list (list A)) := Batch.transition N buf k in
  Batch.b_obs b !! k = pick (Batch.obs r) /\
  Batch.b_logprobs b !! k = pick (Batch.logprobs r) /\
  Batch.b_actions b !! k = pick (Batch.actions r) /\
  Batch.b_ext_advantages b !! k = pick (Batch.ext_advantages r) /\
  Batch.b_int_advantages b !! k = pick (Batch.int_advantages r) /\
  Batch.b_ext_returns b !! k = pick (Batch.ext_returns r) /\
  Batch.b_int_returns b !! k = pick (Batch.int_returns r) /\
  Batch.b_ext_values b !! k = pick (Batch.ext_values r) /\
  Batch.b_int_values b !! k = pick (Batch.int_values r).
Proof.
  intros HN H1 H2 H3 H4 H5 H6 H7 H8 H9. cbn.
  repeat split; apply (reshape_flat_index T N); assumption.
Qed.

(** C2 on ppo_rle.py: the per-transition buffers are reshaped row-major,
    so flat index [k] holds the transition of step [k / N] in
    environment [k mod N]; [b_latents] instead holds at [k] the latent
    vector of environment [k / T].  In the tagged two-step,
    two-environment rollout, flat index 1 pairs the observation of
    environment 1 with the latent vector of environment 0. *)
Theorem C2_latents_follow_a_different_order
    (T N : nat) (r : Batch.rle_rollout) (k : nat) :
  (0 < T)%nat -> (0 < N)%nat ->
  has_shape T N (Batch.rle_obs r) -> has_shape T N (Batch.rle_logprobs r) ->
  has_shape T N (Batch.rle_actions r) -> has_shape T N (Batch.rle_advantages r) ->
  has_shape T N (Batch.rle_returns r) -> has_shape T N (Batch.rle_values r) ->
  let b := Batch.rle_flatten T r in
  let pick {A : Type} (buf : list (list A)) := Batch.transition N buf k in
  (Batch.rle_b_obs b !! k = pick (Batch.rle_obs r) /\
   Batch.rle_b_logprobs b !! k = pick (Batch.rle_logprobs r) /\
   Batch.rle_b_actions b !! k = pick (Batch.rle_actions r) /\
   Batch.rle_b_advantages b !! k = pick (Batch.rle_advantages r) /\
   Batch.rle_b_returns b !! k = pick (Batch.rle_returns r) /\
   Batch.rle_b_values b !! k = pick (Batch.rle_values r)) /\
  Batch.b_latents b !! k = Batch.latent_vectors r !! (k / T)%nat /\
  (let b2 := Batch.rle_flatten 2 Batch.tagged_rollout in
   Batch.rle_b_obs b2 !! 1%nat = Some [0; 1] /\
   Batch.b_latents b2 !! 1%nat = Some [0] /\
   Batch.latent_vectors Batch.tagged_rollout !! 1%nat = Some [1]).
Proof.
  intros HT HN H1 H2 H3 H4 H5 H6. cbn.
  split; [| split; [| repeat split]].
  - repeat split; apply (reshape_flat_index T N); assumption.
  - apply repeat_interleave_lookup. exact HT.
Qed.

(** ** Reward normalization *)

(** The three stages run in the order filter, statistic, division: the
    statistic absorbs the discounted stream the filter returned, and the
    buffer, as the filter pass left it, is divided by the square root
    of the new variance. *)
Lemma normalize_order (sqrt : Q -> Q) (buf : Store.loc) (N : nat)
    (dones : list (list Q)) (flt : RewardForwardFilter.t)
    (rms : RunningMeanStd.t) (st : gmap nat (list Q)) :
  let '(st1, flt1, per_env) :=
    RewardForwardFilter.update_rows flt buf N 0
      (map (map (fun d => 1 - d)) dones) st in
  let '(st2, flt2, rms2) := RewardNorm.normalize sqrt buf N dones flt rms st in
  flt2 = flt1 /\
  rms2 = RunningMeanStd.update rms (concat per_env) /\
  Store.storage st2 buf
  = map (fun x => x / sqrt (RunningMeanStd.var rms2)) (Store.storage st1 buf).
Proof.
  unfold RewardNorm.normalize.
  destruct (RewardForwardFilter.update_rows flt buf N 0
              (map (map (fun d => 1 - d)) dones) st) as [[st1 flt1] per_env].
  split; [reflexivity|]. split; [reflexivity|].
  unfold Store.idiv, Store.storage at 1. rewrite lookup_insert_eq. reflexivity.
Qed.

(** C9 at the first iteration with two steps, one environment and raw
    rewards -1, -1: the filter's accumulator is the buffer's row 0
    itself, so the second filter call writes [-1 * 0.99 + -1] into that
    row; the statistic absorbs the stream [-1; -1.99], and the division
    then turns row 0 into [-1.99 / sigma] and row 1 into [-1 / sigma].
    Row 0 is not the raw reward over [sigma]. *)
Theorem C9_row0_is_divided_accumulator (sqrt : Q -> Q) :
  let '(st', flt', rms') := RewardNorm.first_iteration sqrt in
  let sigma := sqrt (RunningMeanStd.var rms') in
  RewardForwardFilter.rewems flt' = Some (Store.row 0 1 0) /\
  rms' = RunningMeanStd.update RunningMeanStd.default [-1; -1 * 0.99 + -1] /\
  Store.storage st' 0 = [(-1 * 0.99 + -1) / sigma; -1 / sigma] /\
  (~ sigma == 0 -> ~ Store.get st' (Store.row 0 1 0) 0 == -1 / sigma).
Proof.
  assert (E : RewardForwardFilter.update_rows (RewardForwardFilter.init 0.99)
                0 1 0 (map (map (fun d => 1 - d)) [[0]; [0]]) {[ 0%nat := [-1; -1] ]}
              = ({[ 0%nat := [-1 * 0.99 + -1; -1] ]},
                 {| RewardForwardFilter.rewems := Some (Store.row 0 1 0);
                    RewardForwardFilter.gamma := 0.99 |},
                 [[-1]; [-1 * 0.99 + -1]])) by reflexivity.
  unfold RewardNorm.first_iteration, RewardNorm.normalize. rewrite E.
  cbv zeta. split; [reflexivity|]. split; [reflexivity|]. split; [reflexivity|].
  intros Hs H. apply Hs.
  change (Store.get _ _ _) with
    ((-1 * 0.99 + -1) /
     sqrt (RunningMeanStd.var
             (RunningMeanStd.update RunningMeanStd.default
                (concat [[-1]; [-1 * 0.99 + -1]])))) in H.
  revert H. cbn [concat app].
  generalize (sqrt (RunningMeanStd.var
                      (RunningMeanStd.update RunningMeanStd.default
                         [-1; -1 * 0.99 + -1]))).
  intros s H.
  destruct (Qeq_dec s 0) as [Z|NZ]; [exact Z|].
  exfalso.
  assert (H' : (-1 * 0.99 + -1) / s * s == -1 / s * s) by (rewrite H; reflexivity).
  assert (K : forall x, x / s * s == x) by (intros x; field; exact NZ).
  rewrite !K in H'. vm_compute in H'. discriminate H'.
Qed.

(** ** Sums *)

Lemma qsum_ext (f h : nat -> Q) (l : list nat) :
  (forall i, In i l -> f i == h i) -> qsum (map f l) == qsum (map h l).
Proof.
  induction l as [|i l IH]; intros H; cbn; [reflexivity|].
  rewrite (H i (or_introl eq_refl)), IH; [reflexivity|].
  intros j Hj. apply H. right. exact Hj.
Qed.

Lemma qsum_zeros {A : Type} (l : list A) : qsum (map (fun _ => 0) l) == 0.
Proof. induction l as [|x l IH]; cbn; [reflexivity|]. rewrite IH. ring. Qed.


Lemma inject_Z_S (n : nat) : inject_Z (Z.of_nat (S n)) == 1 + inject_Z (Z.of_nat n).
Proof. rewrite Nat2Z.inj_succ, <- Z.add_1_l, inject_Z_plus. reflexivity. Qed.

(** ** The masked predictor loss *)




(** ** Vectorised expressions, index by index *)

Lemma nth_map_from {A : Type} (f : A -> Q) (l : list A) (d : A) (i : nat) :
  (i < length l)%nat -> nth i (map f l) 0 = f (nth i l d).
Proof.
  intros H. rewrite (nth_indep _ 0 (f d)) by (rewrite length_map; exact H).
  apply map_nth.
Qed.

Lemma list_as_map_seq (l : list Q) :
  l = map (fun i => nth i l 0) (seq 0 (length l)).
Proof.
  apply (nth_ext _ _ 0 0).
  - rewrite length_map, length_seq. reflexivity.
  - intros i Hi. rewrite (nth_map_from _ _ 0%nat) by (rewrite length_seq; exact Hi).
    rewrite seq_nth by exact Hi. reflexivity.
Qed.

Lemma map_seq_ext (f h : nat -> Q) (m : nat) :
  (forall i, (i < m)%nat -> f i = h i) -> map f (seq 0 m) = map h (seq 0 m).
Proof.
  intros H. apply map_ext_in. intros i Hi. apply in_seq in Hi. apply H. lia.
Qed.

Lemma length_gather (x : list Q) (inds : list nat) :
  length (gather x inds) = length inds.
Proof. unfold gather. apply length_map. Qed.

Lemma nth_gather (x : list Q) (inds : list nat) (i : nat) :
  (i < length inds)%nat -> nth i (gather x inds) 0 = nth (nth i inds 0%nat) x 0.
Proof.
  intros H. unfold gather.
  exact (nth_map_from (fun j => nth j x 0) inds 0%nat i H).
Qed.

(** The mean of a vector of known length, index by index. *)
Lemma torch_mean_as_mean_over (l : list Q) (m : nat) (f : nat -> Q) :
  length l = m -> (forall i, (i < m)%nat -> nth i l 0 = f i) ->
  torch_mean l = mean_over m f.
Proof.
  intros Hl Hf. unfold torch_mean, mean_over, qlen. rewrite Hl.
  f_equal. f_equal.
  transitivity (map (fun i => nth i l 0) (seq 0 m)).
  - rewrite <- Hl. apply list_as_map_seq.
  - apply map_seq_ext. exact Hf.
Qed.


Lemma qsum_scale (f : Q -> Q) (c : Q) (l : list Q) :
  qsum (map (fun x => f x * c) l) == qsum (map f l) * c.
Proof.
  induction l as [|x l IH]; cbn; [ring|]. rewrite IH. ring.
Qed.


Lemma qlen_pos (l : list Q) : l <> [] -> 0 < qlen l.
Proof.
  intros H. destruct l as [|x l]; [contradiction|].
  unfold qlen. cbn [length]. rewrite inject_Z_S.
  pose proof (qlen_nonneg l) as P. unfold qlen in P. lra.
Qed.








(** ** The policy loss *)

Section PolicyLoss.
Variables (exp sqrt : Q -> Q).









End PolicyLoss.

(** ** The value loss *)

Lemma v_loss_plain_pointwise (newvalue b_returns : list Q) (mb_inds : list nat) :
  length newvalue = length mb_inds ->
  PPO.v_loss_plain newvalue b_returns mb_inds
  = 0.5 * mean_over (length mb_inds) (fun i =>
            (nth i newvalue 0 - nth (nth i mb_inds 0%nat) b_returns 0) ^ 2).
Proof.
  intros Hl. unfold PPO.v_loss_plain. f_equal.
  apply torch_mean_as_mean_over.
  - rewrite length_zip_with, length_gather. lia.
  - intros i Hi. rewrite nth_zip_with_lt by (rewrite ?length_gather; lia).
    rewrite nth_gather by exact Hi. reflexivity.
Qed.

Lemma v_loss_clip_pointwise (clip_coef : Q) (newvalue b_returns b_values : list Q)
    (mb_inds : list nat) :
  length newvalue = length mb_inds ->
  PPO.v_loss_clip clip_coef newvalue b_returns b_values mb_inds
  = 0.5 * mean_over (length mb_inds) (fun i =>
            let ret := nth (nth i mb_inds 0%nat) b_returns 0 in
            let old := nth (nth i mb_inds 0%nat) b_values 0 in
            Qmax ((nth i newvalue 0 - ret) ^ 2)
                 ((old + clamp (nth i newvalue 0 - old) (- clip_coef) clip_coef
                   - ret) ^ 2)).
Proof.
  intros Hl. unfold PPO.v_loss_clip. f_equal.
  apply torch_mean_as_mean_over.
  - rewrite !length_zip_with, length_map, !length_zip_with, !length_gather. lia.
  - intros i Hi. cbv zeta.
    rewrite nth_zip_with_lt
      by (rewrite !length_zip_with, ?length_map, ?length_zip_with, ?length_gather; lia).
    rewrite (nth_zip_with_lt _ newvalue) by (rewrite ?length_gather; lia).
    rewrite nth_zip_with_lt
      by (rewrite ?length_zip_with, ?length_map, ?length_zip_with, ?length_gather; lia).
    rewrite nth_zip_with_lt
      by (rewrite ?length_map, ?length_zip_with, ?length_gather; lia).
    rewrite (nth_map_from _ _ 0) by (rewrite length_zip_with, length_gather; lia).
    rewrite nth_zip_with_lt by (rewrite ?length_gather; lia).
    rewrite !nth_gather by exact Hi. reflexivity.
Qed.

(** C8, as stated, fails on the intrinsic head: with clipping enabled,
    an intrinsic prediction 1 against return 1 and stored old value 0
    costs 0 in the code, while the clipped form would charge
    [0.5 * (0.2 - 1)^2 = 0.32]; so the total value loss is not the sum of
    two clipped head losses. *)
Lemma C8_intrinsic_head_is_not_clipped :
  PPO.rnd_v_loss true 0.2 [0] [0] [0] [1] [1] [0%nat] == 0 /\
  PPO.v_loss_clip 0.2 [0] [0] [0] [0%nat]
    + PPO.v_loss_clip 0.2 [1] [1] [0] [0%nat] == 0.32 /\
  ~ PPO.rnd_v_loss true 0.2 [0] [0] [0] [1] [1] [0%nat]
    == PPO.v_loss_clip 0.2 [0] [0] [0] [0%nat]
       + PPO.v_loss_clip 0.2 [1] [1] [0] [0%nat].
Proof.
  split; [|split].
  - vm_compute. reflexivity.
  - vm_compute. reflexivity.
  - intros H. vm_compute in H. discriminate H.
Qed.

(** C8, amended: with value-loss clipping enabled, the loss of the
    single head of ppo_rle.py and of the extrinsic head of ppo_rnd.py is
    0.5 times the mean of the larger of the unclipped squared error and
    the squared error of the old value plus the value change clipped to
    plus/minus the clip coefficient; the intrinsic head's loss is always
    0.5 times the mean of the unclipped squared error; and the total
    value loss of ppo_rnd.py is the unweighted sum of the two. *)
Theorem C8_value_loss_clips_extrinsic_head_only
    (clip_coef : Q)
    (new_ext_values b_ext_returns b_ext_values : list Q)
    (new_int_values b_int_returns : list Q) (mb_inds : list nat) :
  length new_ext_values = length mb_inds ->
  length new_int_values = length mb_inds ->
  let m := length mb_inds in
  let clipped_head := 0.5 * mean_over m (fun i =>
        let ret := nth (nth i mb_inds 0%nat) b_ext_returns 0 in
        let old := nth (nth i mb_inds 0%nat) b_ext_values 0 in
        Qmax ((nth i new_ext_values 0 - ret) ^ 2)
             ((old + clamp (nth i new_ext_values 0 - old) (- clip_coef) clip_coef
               - ret) ^ 2)) in
  let plain_int_head := 0.5 * mean_over m (fun i =>
        (nth i new_int_values 0 - nth (nth i mb_inds 0%nat) b_int_returns 0) ^ 2) in
  PPO.rle_v_loss true clip_coef new_ext_values b_ext_returns b_ext_values mb_inds
  = clipped_head /\
  (forall clip_vloss,
     PPO.rnd_v_loss clip_vloss clip_coef new_ext_values b_ext_returns b_ext_values
       new_int_values b_int_returns mb_inds
     = PPO.rle_v_loss clip_vloss clip_coef new_ext_values b_ext_returns
         b_ext_values mb_inds
       + plain_int_head) /\
  PPO.rnd_v_loss true clip_coef new_ext_values b_ext_returns b_ext_values
    new_int_values b_int_returns mb_inds
  = clipped_head + plain_int_head.
Proof.
  intros He Hi m clipped_head plain_int_head.
  assert (E1 : PPO.rle_v_loss true clip_coef new_ext_values b_ext_returns
                 b_ext_values mb_inds = clipped_head)
    by (apply v_loss_clip_pointwise; exact He).
  assert (E2 : PPO.v_loss_plain new_int_values b_int_returns mb_inds = plain_int_head)
    by (apply v_loss_plain_pointwise; exact Hi).
  split; [exact E1|]. split.
  - intros clip_vloss. unfold PPO.rnd_v_loss. rewrite E2. reflexivity.
  - unfold PPO.rnd_v_loss. rewrite E2. cbn [PPO.rle_v_loss] in E1.
    unfold PPO.rle_v_loss in E1. rewrite E1. reflexivity.
Qed.

(** * Instances at concrete inputs *)

(** C1 on the third of the three calls: the accumulator is row 0 of the
    buffer and holds 1.5, the call passes row 2 (reward 1) with
    [not_done = 0], and the value returned is the accumulator 1.5. *)
Lemma C1_update_decays_not_done_slots_witness :
  let f := {| RewardForwardFilter.rewems := Some (Store.row 0 1 0);
              RewardForwardFilter.gamma := 0.5 |} in
  let st : gmap nat (list Q) := {[ 0%nat := [1.5; 1; 1] ]} in
  (RewardForwardFilter.rewems f = Some (Store.row 0 1 0) /\
   Store.valid st (Store.row 0 1 0) /\
   length [0] = Store.len (Store.row 0 1 0)) /\
  let '(st', _, _) :=
    RewardForwardFilter.update f (Store.row 0 1 2) (Some [0]) st in
  nth 0 (Store.load st' (Store.row 0 1 0)) 0 = 1.5.
Proof.
  intros f st.
  assert (H1 : RewardForwardFilter.rewems f = Some (Store.row 0 1 0)) by reflexivity.
  assert (H2 : Store.valid st (Store.row 0 1 0)) by (vm_compute; lia).
  assert (H3 : length [0] = Store.len (Store.row 0 1 0)) by reflexivity.
  split; [auto|].
  pose proof (C1_update_decays_not_done_slots f (Store.row 0 1 0) (Store.row 0 1 2)
                [0] st H1 H2 H3) as H.
  destruct (RewardForwardFilter.update f (Store.row 0 1 2) (Some [0]) st)
    as [[st' f'] ret].
  destruct H as [(_ & _ & _ & H) _].
  exact (H 0%nat (Nat.lt_0_succ 0)).
Defined.

(** C2 on the tagged rollout, at flat index 1. *)
Lemma C2_latents_follow_a_different_order_witness :
  let b := Batch.rle_flatten 2 Batch.tagged_rollout in
  Batch.rle_b_obs b !! 1%nat = Batch.transition 2 (Batch.rle_obs Batch.tagged_rollout) 1 /\
  Batch.b_latents b !! 1%nat = Batch.latent_vectors Batch.tagged_rollout !! (1 / 2)%nat.
Proof.
  assert (Ho : has_shape 2 2 (Batch.rle_obs Batch.tagged_rollout))
    by (split; [reflexivity | cbn; repeat constructor]).
  assert (Hz : has_shape 2 2 [[0; 0]; [0; 0]])
    by (split; [reflexivity | repeat constructor]).
  pose proof (C2_latents_follow_a_different_order 2 2 Batch.tagged_rollout 1
                (Nat.lt_0_succ 1) (Nat.lt_0_succ 1) Ho Hz Hz Hz Hz Hz) as H.
  cbv zeta in H. destruct H as [[H1 _] [H2 _]].
  split; [exact H1 | exact H2].
Defined.

(** C4 at the fresh statistic and a batch of three samples. *)
Lemma C4_update_is_parallel_merge_witness :
  0 < RunningMeanStd.count RunningMeanStd.default /\
  NaN.update (NaN.of_finite RunningMeanStd.default) [1; 2; 4]
  = NaN.of_finite (RunningMeanStd.update RunningMeanStd.default [1; 2; 4]).
Proof.
  split; [reflexivity|].
  pose proof (C4_update_is_parallel_merge RunningMeanStd.default [1; 2; 4]
                eq_refl) as H.
  cbv zeta in H. destruct H as (_ & H & _).
  exact (proj1 (H (le_S 2 2 (le_n 2)))).
Defined.

(** C5 on three batches of sizes 2, 3 and 4. *)
Lemma C5_merge_is_associative_witness :
  let A := {| RunningMeanStd.mean := 1; RunningMeanStd.var := 2; RunningMeanStd.count := 2 |} in
  let B := {| RunningMeanStd.mean := -1; RunningMeanStd.var := 0.5; RunningMeanStd.count := 3 |} in
  let C := {| RunningMeanStd.mean := 4; RunningMeanStd.var := 1; RunningMeanStd.count := 4 |} in
  let s := RunningMeanStd.default in
  (0 < RunningMeanStd.count s /\ 0 <= RunningMeanStd.count A /\
   0 <= RunningMeanStd.count B /\ 0 <= RunningMeanStd.count C /\
   0 < RunningMeanStd.count B + RunningMeanStd.count C) /\
  RunningMeanStd.eqv
    (RunningMeanStd.absorb (RunningMeanStd.absorb (RunningMeanStd.absorb s A) B) C)
    (RunningMeanStd.absorb (RunningMeanStd.absorb s A) (RunningMeanStd.absorb B C)).
Proof.
  intros A B C s.
  assert (H1 : 0 < RunningMeanStd.count s) by reflexivity.
  assert (H2 : 0 <= RunningMeanStd.count A) by (vm_compute; discriminate).
  assert (H3 : 0 <= RunningMeanStd.count B) by (vm_compute; discriminate).
  assert (H4 : 0 <= RunningMeanStd.count C) by (vm_compute; discriminate).
  assert (H5 : 0 < RunningMeanStd.count B + RunningMeanStd.count C) by reflexivity.
  split; [auto 6|].
  exact (C5_merge_is_associative s A B C H1 H2 H3 H4 H5).
Defined.

(** C6 on a two-step rollout of one environment, at the last step. *)
Lemma C6_gae_backward_recurrence_witness :
  let rewards : list (list Q) := [[1]; [-1]] in
  let curiosity : list (list Q) := [[0.5]; [0.25]] in
  let ext_values : list (list Q) := [[0.1]; [0.2]] in
  let int_values : list (list Q) := [[0.3]; [0.4]] in
  let dones : list (list Q) := [[0]; [0]] in
  (has_shape 2 1 rewards /\ has_shape 2 1 curiosity /\
   has_shape 2 1 ext_values /\ has_shape 2 1 int_values /\ has_shape 2 1 dones) /\
  at2 (GAE.ext_advantages
         (GAE.rnd_loop 0.99 0.99 0.95 rewards curiosity ext_values int_values
            dones [1] [0.7] [0.9])) 1 0
  = -1 + 0.99 * 0.7 * (1 - 1) - 0.2 + 0.99 * 0.95 * (1 - 1) * 0.
Proof.
  intros rewards curiosity ext_values int_values dones.
  assert (Sh : forall x y : Q, has_shape 2 1 [[x]; [y]])
    by (intros x y; split; [reflexivity | repeat constructor]).
  split; [repeat split; try reflexivity; repeat constructor|].
  pose proof (C6_gae_backward_recurrence 0.99 0.99 0.95 2 1
                rewards curiosity ext_values int_values dones [1] [0.7] [0.9]
                (Sh _ _) (Sh _ _) (Sh _ _) (Sh _ _) (Sh _ _)
                eq_refl eq_refl eq_refl) as H.
  cbv zeta in H. destruct H as [H _].
  destruct (H 1%nat 0%nat ltac:(lia) ltac:(lia)) as [HA _].
  exact HA.
Defined.


(** C8 on a minibatch of one transition. *)
Lemma C8_value_loss_clips_extrinsic_head_only_witness :
  (length [1] = length [0%nat] /\ length [1] = length [0%nat]) /\
  PPO.rnd_v_loss true 0.2 [1] [1] [0] [1] [1] [0%nat]
  = PPO.rle_v_loss true 0.2 [1] [1] [0] [0%nat]
    + 0.5 * mean_over 1 (fun i => (nth i [1] 0 - nth (nth i [0%nat] 0%nat) [1] 0) ^ 2).
Proof.
  split; [split; reflexivity|].
  pose proof (C8_value_loss_clips_extrinsic_head_only 0.2 [1] [1] [0] [1] [1]
                [0%nat] eq_refl eq_refl) as H.
  cbv zeta in H. destruct H as (_ & H & _). exact (H true).
Defined.

(** C9 with a stand-in for the square root that is nowhere zero. *)
Lemma C9_row0_is_divided_accumulator_witness :
  ~ Store.get (fst (fst (RewardNorm.first_iteration (fun _ => 2))))
      (Store.row 0 1 0) 0 == -1 / 2.
Proof.
  pose proof (C9_row0_is_divided_accumulator (fun _ => 2)) as H.
  destruct (RewardNorm.first_iteration (fun _ => 2)) as [[st' flt'] rms'].
  cbv zeta in H. destruct H as (_ & _ & _ & H).
  apply H. discriminate.
Defined.


(** The statistics used for normalization are the minibatch's own: in a
    batch of advantages 1, 2, 3, 4 the minibatch of indices 1 and 3 is
    centred on 3, not on the batch mean 2.5. *)
Lemma minibatch_mean_is_not_batch_mean :
  torch_mean (gather [1; 2; 3; 4] [1%nat; 3%nat]) == 3 /\
  torch_mean [1; 2; 3; 4] == 2.5.
Proof. split; vm_compute; reflexivity. Qed.

(** * Further properties of the code *)

(** ** The grid world *)

(** Boolean tests on integers, read as propositions. *)
Ltac zprop :=
  repeat match goal with
  | H : _ && _ = true |- _ => apply andb_true_iff in H; destruct H
  | H : _ && _ = false |- _ => apply andb_false_iff in H
  | H : _ || _ = true |- _ => apply orb_true_iff in H
  | H : _ || _ = false |- _ => apply orb_false_iff in H; destruct H
  | H : negb _ = true |- _ => apply negb_true_iff in H
  | H : negb _ = false |- _ => apply negb_false_iff in H
  | H : (_ =? _)%Z = true |- _ => apply Z.eqb_eq in H
  | H : (_ =? _)%Z = false |- _ => apply Z.eqb_neq in H
  | H : (_ <? _)%Z = true |- _ => apply Z.ltb_lt in H
  | H : (_ <? _)%Z = false |- _ => apply Z.ltb_ge in H
  | H : (_ <=? _)%Z = true |- _ => apply Z.leb_le in H
  | H : (_ <=? _)%Z = false |- _ => apply Z.leb_gt in H
  end.

Section FourRoomFacts.
Import FourRoom.

Lemma array_equal_eq (p q : Z * Z) : array_equal p q = true <-> p = q.
Proof.
  destruct p as [a b], q as [c d]. unfold array_equal. cbn.
  rewrite andb_true_iff, !Z.eqb_eq. split.
  - intros [-> ->]. reflexivity.
  - intros E. injection E. auto.
Qed.

Lemma array_equal_neq (p q : Z * Z) : array_equal p q = false <-> p <> q.
Proof.
  rewrite <- array_equal_eq. destruct (array_equal p q); split; congruence.
Qed.

(** [__init__] accepts exactly the even sizes from 10 on; the board then
    has [size + 1] cells a side, the four holes lie on the board and are
    free cells, and the cell where the two wall lines cross is wall. *)
Theorem make_accepts_even_sizes_from_ten (sz : Z) :
  match make sz with
  | Done g =>
      (sz mod 2 = 0 /\ 10 <= sz)%Z /\
      size g = (sz + 1)%Z /\
      Forall (fun h => on_board g h /\ position_is_not_in_wall g h = true)
        [hole_1_position g; hole_2_position g;
         hole_3_position g; hole_4_position g] /\
      position_is_not_in_wall g (x_wall_position g, y_wall_position g) = false
  | Fail e => e = AssertionError /\ (sz mod 2 <> 0 \/ sz < 10)%Z
  end.
Proof.
  unfold make.
  destruct (sz mod 2 =? 0)%Z eqn:E2; cbn [negb].
  2:{ zprop. split; [reflexivity | left; assumption]. }
  destruct (10 <=? sz)%Z eqn:E10; cbn [negb].
  2:{ zprop. split; [reflexivity | right; assumption]. }
  zprop.
  assert (Hw : (5 <= sz / 2 /\ 2 * (sz / 2) = sz)%Z).
  { pose proof (Z.div_mod sz 2 ltac:(lia)). lia. }
  split; [auto|]. split; [reflexivity|]. split.
  - repeat constructor; unfold on_board, position_is_not_in_wall, array_equal; cbn;
      try lia;
      rewrite ?Z.eqb_refl; cbn; rewrite ?orb_true_r; reflexivity.
  - unfold position_is_not_in_wall, array_equal. cbn.
    rewrite !Z.eqb_refl. cbn.
    repeat match goal with
    | |- context [(?a =? ?b)%Z] =>
        destruct (Z.eqb_spec a b); try lia; cbn
    end;
    try reflexivity.
Qed.

(** On a wall line the only free cells are the two holes of that line. *)
Theorem wall_lines_are_open_only_at_holes (sz : Z) (g : grid) (p : Z * Z) :
  make sz = Done g ->
  position_is_not_in_wall g p = true ->
  (fst p = x_wall_position g ->
     p = hole_1_position g \/ p = hole_2_position g) /\
  (snd p = y_wall_position g ->
     p = hole_3_position g \/ p = hole_4_position g).
Proof.
  unfold make.
  destruct (sz mod 2 =? 0)%Z; cbn [negb]; [|discriminate].
  destruct (10 <=? sz)%Z; cbn [negb]; [|discriminate].
  intros [= <-]. destruct p as [x y].
  unfold position_is_not_in_wall. cbn. intros H.
  split; intros ->.
  - rewrite Z.eqb_refl in H. cbn in H.
    repeat (zprop; match goal with H : _ \/ _ |- _ => destruct H end);
      match goal with H : array_equal _ _ = true |- _ =>
        apply array_equal_eq in H; injection H; intros end;
      first [left; f_equal; lia | right; f_equal; lia | lia].
  - rewrite Z.eqb_refl in H. rewrite andb_false_r in H. cbn in H.
    repeat (zprop; match goal with H : _ \/ _ |- _ => destruct H end);
      match goal with H : array_equal _ _ = true |- _ =>
        apply array_equal_eq in H; injection H; intros end;
      first [left; f_equal; lia | right; f_equal; lia | lia].
Qed.

End FourRoomFacts.

Section FourRoomStep.
Import FourRoom.

Lemma action_to_direction_cases (a : Z) :
  match action_to_direction a with
  | Done d =>
      (0 <= a <= 3)%Z /\
      (d = (1, 0) \/ d = (0, 1) \/ d = (-1, 0) \/ d = (0, -1))%Z
  | Fail e => e = KeyError /\ (a < 0 \/ 3 < a)%Z
  end.
Proof.
  unfold action_to_direction.
  repeat match goal with
  | |- context [(?x =? ?y)%Z] => destruct (Z.eqb_spec x y)
  end; (split; [try reflexivity; lia | auto 6; lia]).
Qed.

Lemma outside_on_board (g : grid) (p : Z * Z) :
  outside g p = false <-> on_board g p.
Proof.
  unfold outside, on_board. rewrite !orb_false_iff, !Z.ltb_ge. lia.
Qed.

(** One step from a board cell either stays on the board or is clipped
    back to the cell it started from. *)
Lemma clip_unit_step (g : grid) (p d : Z * Z) :
  on_board g p ->
  (d = (1, 0) \/ d = (0, 1) \/ d = (-1, 0) \/ d = (0, -1))%Z ->
  clip_pos (add_pos p d) 0 (size g - 1)
  = if outside g (add_pos p d) then p else add_pos p d.
Proof.
  intros Hp Hd. destruct p as [x y].
  destruct (outside g (add_pos (x, y) d)) eqn:E.
  - assert (Hn : ~ on_board g (add_pos (x, y) d)).
    { rewrite <- outside_on_board. congruence. }
    unfold on_board, clip_pos, add_pos in *. cbn in *.
    destruct Hd as [-> | [-> | [-> | ->]]]; cbn in *; f_equal; lia.
  - apply outside_on_board in E.
    unfold on_board, clip_pos, add_pos in *. cbn in *. f_equal; lia.
Qed.

(** [step] fails, with [KeyError], exactly on an action outside 0..3.
    From a free board cell it otherwise returns, and the agent is again
    on a free board cell: it has stayed or moved one cell in the
    action's direction; the target and the start are untouched and the
    step never reports truncation. *)
Theorem step_keeps_agent_on_free_board_cells (g : grid) (s : state) (a : Z) :
  on_board g (agent_location s) ->
  position_is_not_in_wall g (agent_location s) = true ->
  match step g s a with
  | Done r =>
      (0 <= a <= 3)%Z /\
      on_board g (agent_location (next_state r)) /\
      position_is_not_in_wall g (agent_location (next_state r)) = true /\
      target_location (next_state r) = target_location s /\
      start_location (next_state r) = start_location s /\
      truncated r = false /\
      (agent_location (next_state r) = agent_location s \/
       exists d, action_to_direction a = Done d /\
                 agent_location (next_state r) = add_pos (agent_location s) d)
  | Fail e => e = KeyError /\ (a < 0 \/ 3 < a)%Z
  end.
Proof.
  intros Hb Hw. unfold step.
  pose proof (action_to_direction_cases a) as Ha.
  destruct (action_to_direction a) as [d|e]; [|exact Ha].
  destruct Ha as [Ha Hd]. cbn [next_state truncated agent_location
    target_location start_location].
  rewrite (clip_unit_step g _ d Hb Hd).
  split; [exact Ha|].
  destruct (outside g (add_pos (agent_location s) d)) eqn:Eo.
  - rewrite Hw. repeat split; auto; apply Hb.
  - destruct (position_is_not_in_wall g (add_pos (agent_location s) d)) eqn:Ew.
    + apply outside_on_board in Eo.
      repeat split; auto; try apply Eo. right. exists d. auto.
    + repeat split; auto; apply Hb.
Qed.

(** The reward is 1, 0 or -1; it is 1 exactly when the step reports
    termination, which it does exactly when the agent now stands on the
    target, that is when the reported distance is 0. *)
Theorem step_reward_is_one_exactly_on_target (g : grid) (s : state) (a : Z) :
  forall r, step g s a = Done r ->
    (reward r = 1 \/ reward r = 0 \/ reward r = -1)%Z /\
    (reward r = 1%Z <-> terminated r = true) /\
    (terminated r = true <->
       agent_location (next_state r) = target_location (next_state r)) /\
    (info_distance r = 0%Z <-> terminated r = true).
Proof.
  intros r. unfold step.
  destruct (action_to_direction a) as [d|e]; [|discriminate].
  intros [= <-]. cbn [reward terminated next_state info_distance
    agent_location target_location].
  set (cand := clip_pos (add_pos (agent_location s) d) 0 (size g - 1)).
  set (ag := if position_is_not_in_wall g cand then cand else agent_location s).
  assert (Hd : distance {| agent_location := ag;
                           target_location := target_location s;
                           start_location := start_location s |} = 0%Z
               <-> ag = target_location s).
  { unfold distance. cbn. destruct ag as [x y], (target_location s) as [u v]. cbn.
    split; [intros H; f_equal; lia | intros [= -> ->]; lia]. }
  rewrite Hd, array_equal_eq.
  destruct (array_equal ag (target_location s)) eqn:Et.
  - apply array_equal_eq in Et. intuition congruence.
  - apply array_equal_neq in Et.
    destruct (negb (position_is_not_in_wall g cand)),
             (outside g (add_pos ag d));
      intuition (try congruence; try lia).
Qed.

End FourRoomStep.

Section FourRoomMoves.
Import FourRoom.

(** What a step does, by the cell [q] one step ahead of the agent.  If
    [q] is off the board or a wall cell the agent stays and is charged
    -1 (unless it stands on the target, which pays 1).  If [q] is a free
    board cell the agent moves there, and is paid 1 if [q] is the
    target, charged -1 if the cell after [q] in the same direction is
    off the board, and paid 0 otherwise: a successful move onto the rim
    of the board, heading outwards, costs as much as a collision. *)
Theorem step_outcome_by_cell_ahead (g : grid) (s : state) (a : Z) (d : Z * Z) :
  on_board g (agent_location s) ->
  position_is_not_in_wall g (agent_location s) = true ->
  action_to_direction a = Done d ->
  let p := agent_location s in
  let q := add_pos p d in
  exists r, step g s a = Done r /\
    (outside g q = true \/ position_is_not_in_wall g q = false ->
       agent_location (next_state r) = p /\
       reward r = if array_equal p (target_location s) then 1%Z else (-1)%Z) /\
    (outside g q = false -> position_is_not_in_wall g q = true ->
       agent_location (next_state r) = q /\
       reward r = if array_equal q (target_location s) then 1%Z
                  else if outside g (add_pos q d) then (-1)%Z else 0%Z).
Proof.
  intros Hb Hw Ha p q. unfold step. rewrite Ha.
  eexists. split; [reflexivity|].
  cbn [next_state reward agent_location].
  pose proof (action_to_direction_cases a) as Hd. rewrite Ha in Hd.
  destruct Hd as [_ Hd].
  rewrite (clip_unit_step g _ d Hb Hd). fold p q.
  destruct (outside g q) eqn:Eo.
  - fold p in Hw. rewrite Hw. cbn [negb]. fold q. rewrite Eo.
    split; [intros _; split; reflexivity | intros C; discriminate C].
  - destruct (position_is_not_in_wall g q) eqn:Ew; cbn [negb].
    + split; [intros [C|C]; discriminate C | intros _ _; split; reflexivity].
    + fold q. rewrite Eo.
      split; [intros _; split; reflexivity | intros _ C; discriminate C].
Qed.

(** ** Reset *)

Lemma draw_until_spec (ok : Z * Z -> bool) (draws : list (Z * Z))
    (p : Z * Z) (rest : list (Z * Z)) :
  draw_until ok draws = Some (p, rest) <->
  exists pre, draws = pre ++ p :: rest /\
              Forall (fun x => ok x = false) pre /\ ok p = true.
Proof.
  split.
  - revert p rest. induction draws as [|x draws IH]; intros p rest H; [discriminate|].
    cbn in H. destruct (ok x) eqn:E.
    + injection H as <- <-. exists []. auto.
    + destruct (IH _ _ H) as (pre & -> & Hpre & Hp).
      exists (x :: pre). auto.
  - intros (pre & -> & Hpre & Hp).
    induction Hpre as [|x pre Hx _ IH]; cbn.
    + rewrite Hp. reflexivity.
    + rewrite Hx. exact IH.
Qed.

Lemma draw_until_none (ok : Z * Z -> bool) (draws : list (Z * Z)) :
  draw_until ok draws = None <-> Forall (fun x => ok x = false) draws.
Proof.
  induction draws as [|x draws IH]; cbn.
  - split; auto.
  - destruct (ok x) eqn:E.
    + split; [discriminate|]. intros H. apply Forall_cons in H.
      destruct H as [H _]. congruence.
    + rewrite IH. split; [auto | intros H; apply Forall_cons in H; tauto].
Qed.

(** [reset] returns exactly when the generator yields, after possibly
    some wall cells, a free cell (the agent), and later on a free cell
    other than the agent's (the target).  The agent is the first free
    cell drawn, the target the first free cell drawn afterwards that
    differs from it, and the start equals the agent; the draws in
    between are discarded. *)
Theorem reset_takes_first_free_cells (g : grid) (draws : list (Z * Z))
    (s : state) (rest : list (Z * Z)) :
  reset g draws = Some (s, rest) <->
  exists pre1 pre2,
    draws = pre1 ++ agent_location s :: pre2 ++ target_location s :: rest /\
    Forall (fun x => position_is_not_in_wall g x = false) pre1 /\
    position_is_not_in_wall g (agent_location s) = true /\
    Forall (fun x => position_is_not_in_wall g x = false \/ x = agent_location s) pre2 /\
    position_is_not_in_wall g (target_location s) = true /\
    target_location s <> agent_location s /\
    start_location s = agent_location s.
Proof.
  unfold reset. split.
  - destruct (draw_until (position_is_not_in_wall g) draws) as [[ag r1]|] eqn:E1;
      [|discriminate].
    destruct (draw_until _ r1) as [[tg r2]|] eqn:E2; [|discriminate].
    intros [= <- <-]. cbn.
    apply draw_until_spec in E1. destruct E1 as (pre1 & -> & H1 & Hag).
    apply draw_until_spec in E2. destruct E2 as (pre2 & -> & H2 & Htg).
    apply andb_true_iff in Htg. destruct Htg as [Htg Hne].
    apply negb_true_iff, array_equal_neq in Hne.
    exists pre1, pre2. repeat split; auto.
    eapply Forall_impl; [exact H2|]. cbn. intros x Hx.
    apply andb_false_iff in Hx. destruct Hx as [Hx|Hx]; [left; exact Hx|].
    right. apply negb_false_iff, array_equal_eq in Hx. exact Hx.
  - intros (pre1 & pre2 & -> & H1 & Hag & H2 & Htg & Hne & Hst).
    assert (E1 : draw_until (position_is_not_in_wall g)
                   (pre1 ++ agent_location s :: pre2 ++ target_location s :: rest)
                 = Some (agent_location s, pre2 ++ target_location s :: rest)).
    { apply draw_until_spec. exists pre1. auto. }
    rewrite E1.
    assert (E2 : draw_until
                   (fun p => position_is_not_in_wall g p
                             && negb (array_equal p (agent_location s)))
                   (pre2 ++ target_location s :: rest)
                 = Some (target_location s, rest)).
    { apply draw_until_spec. exists pre2. split; [reflexivity|]. split.
      - eapply Forall_impl; [exact H2|]. cbn. intros x [Hx| ->].
        + rewrite Hx. reflexivity.
        + apply andb_false_iff. right. apply negb_false_iff, array_equal_eq.
          reflexivity.
      - rewrite Htg. cbn. apply negb_true_iff, array_equal_neq. exact Hne. }
    rewrite E2. destruct s as [ag tg st]. cbn in *. subst st. reflexivity.
Qed.

End FourRoomMoves.

(** ** Discounted returns *)

Lemma qsum_scale_nat (f : nat -> Q) (c : Q) (l : list nat) :
  qsum (map (fun k => f k * c) l) == qsum (map f l) * c.
Proof.
  induction l as [|x l IH]; cbn; [ring|]. rewrite IH. ring.
Qed.

(** The loop of [compute_returns], one reward at a time from the front. *)
Lemma compute_returns_cons (r : Q) (rs : list Q) (gamma : Q) :
  ActorCritic.compute_returns (r :: rs) gamma
  = (r + gamma * hd 0 (ActorCritic.compute_returns rs gamma))
    :: ActorCritic.compute_returns rs gamma.
Proof.
  unfold ActorCritic.compute_returns. cbn [rev].
  rewrite fold_left_app. cbn [fold_left snd fst].
  set (body := fun (st : Q * list Q) (reward : Q) =>
                 (reward + gamma * fst st, reward + gamma * fst st :: snd st)).
  assert (H : forall l, fst (fold_left body l (0, []))
                        = hd 0 (snd (fold_left body l (0, [])))).
  { intros l. induction l as [|x l IH] using rev_ind; [reflexivity|].
    rewrite fold_left_app. reflexivity. }
  rewrite (H (rev rs)). reflexivity.
Qed.

Lemma length_compute_returns (rs : list Q) (gamma : Q) :
  length (ActorCritic.compute_returns rs gamma) = length rs.
Proof.
  induction rs as [|r rs IH]; [reflexivity|].
  rewrite compute_returns_cons. cbn. rewrite IH. reflexivity.
Qed.

Lemma discounted_sum_cons (gamma r : Q) (rs : list Q) :
  discounted_sum gamma (r :: rs) == r + gamma * discounted_sum gamma rs.
Proof.
  unfold discounted_sum. cbn [length].
  change (seq 0 (S (length rs))) with (0%nat :: seq 1 (length rs)).
  cbn [map qsum nth qpow].
  rewrite <- seq_shift, map_map. cbn [nth qpow].
  transitivity (1 * r + qsum (map (fun k => (qpow gamma k * nth k rs 0) * gamma)
                                  (seq 0 (length rs)))).
  - apply Qplus_comp; [reflexivity|].
    apply qsum_ext. intros i _. ring.
  - rewrite (qsum_scale_nat _ gamma). ring.
Qed.

Lemma nth_compute_returns (rs : list Q) (gamma : Q) (t : nat) :
  (t < length rs)%nat ->
  nth t (ActorCritic.compute_returns rs gamma) 0
  == discounted_sum gamma (drop t rs).
Proof.
  revert t. induction rs as [|r rs IH]; intros t Ht; [cbn in Ht; lia|].
  rewrite compute_returns_cons.
  destruct t as [|t].
  - cbn [nth drop]. rewrite discounted_sum_cons.
    destruct rs as [|r' rs'].
    + reflexivity.
    + rewrite <- (IH 0%nat) by (cbn; lia).
      destruct (ActorCritic.compute_returns (r' :: rs') gamma) eqn:E.
      * apply (f_equal (@length Q)) in E.
        rewrite length_compute_returns in E. discriminate E.
      * reflexivity.
  - cbn [nth drop]. apply IH. cbn in Ht. lia.
Qed.

(** [compute_returns] keeps the length of the reward list, and entry [t]
    of its result is the discounted sum of the rewards from step [t]
    on: [r_t + gamma r_(t+1) + gamma^2 r_(t+2) + ...]. *)
Theorem compute_returns_is_discounted_tail_sum (rs : list Q) (gamma : Q) :
  length (ActorCritic.compute_returns rs gamma) = length rs /\
  forall t, (t < length rs)%nat ->
    nth t (ActorCritic.compute_returns rs gamma) 0
    == discounted_sum gamma (drop t rs).
Proof.
  split; [apply length_compute_returns | apply nth_compute_returns].
Qed.

(** ** Running statistics over their lifetime *)

Lemma qsum_app (x y : list Q) : qsum (x ++ y) == qsum x + qsum y.
Proof. induction x as [|a x IH]; cbn; [ring|]. rewrite IH. ring. Qed.

Lemma qlen_app (x y : list Q) : qlen (x ++ y) == qlen x + qlen y.
Proof.
  unfold qlen. rewrite length_app, Nat2Z.inj_add, inject_Z_plus. reflexivity.
Qed.

Lemma qlen_cons (a : Q) (x : list Q) : qlen (a :: x) == 1 + qlen x.
Proof. unfold qlen. cbn [length]. apply inject_Z_S. Qed.

Lemma square_nonneg (x : Q) : 0 <= square x.
Proof.
  unfold square. destruct (Qlt_le_dec x 0) as [H|H].
  - assert (E : x * x == (- x) * (- x)) by ring.
    rewrite E. apply Qmult_le_0_compat; lra.
  - apply Qmult_le_0_compat; exact H.
Qed.

Lemma qsum_squares_nonneg (c : Q) (x : list Q) :
  0 <= qsum (map (fun xi => square (xi - c)) x).
Proof.
  induction x as [|a x IH]; cbn; [lra|].
  pose proof (square_nonneg (a - c)). lra.
Qed.

(** The unbiased variance of a batch of at least two samples is not
    negative. *)
Lemma torch_var_nonneg (x : list Q) : (2 <= length x)%nat -> 0 <= torch_var x.
Proof.
  intros H. unfold torch_var.
  assert (Hn : 0 < qlen x - 1).
  { destruct x as [|a [|b x]]; cbn in H; try lia.
    rewrite !qlen_cons. pose proof (qlen_nonneg x). lra. }
  apply Qle_shift_div_l; [exact Hn|].
  pose proof (qsum_squares_nonneg (torch_mean x) x). lra.
Qed.

Lemma update_from_moments_var_pos (s : RunningMeanStd.t) (bm bv bc : Q) :
  0 < RunningMeanStd.count s -> 0 < RunningMeanStd.var s ->
  0 <= bv -> 0 <= bc ->
  0 < RunningMeanStd.var (RunningMeanStd.update_from_moments s bm bv bc).
Proof.
  intros Hc Hv Hbv Hbc. destruct s as [m v c].
  unfold RunningMeanStd.update_from_moments, update_mean_var_count_from_moments.
  cbn [RunningMeanStd.count RunningMeanStd.var RunningMeanStd.mean] in *.
  assert (Ht : 0 < c + bc) by lra.
  apply Qlt_shift_div_l; [exact Ht|].
  assert (H1 : 0 < v * c) by (apply Qmult_lt_0_compat; assumption).
  assert (H2 : 0 <= bv * bc) by (apply Qmult_le_0_compat; assumption).
  assert (H3 : 0 <= square (bm - m) * c * bc / (c + bc)).
  { apply Qle_shift_div_l; [exact Ht|].
    pose proof (square_nonneg (bm - m)) as Hq.
    assert (0 <= square (bm - m) * c)
      by (apply Qmult_le_0_compat; [exact Hq | lra]).
    assert (0 <= square (bm - m) * c * bc)
      by (apply Qmult_le_0_compat; assumption).
    lra. }
  lra.
Qed.

(** A statistic that starts with a positive count and variance keeps
    both positive whatever batches of two or more samples it is shown,
    so [sqrt(var)] is never the square root of zero or of a negative
    number; and its count is the initial count plus the number of
    samples seen. *)
Theorem statistic_keeps_positive_variance_and_counts_samples
    (s : RunningMeanStd.t) (batches : list (list Q)) :
  0 < RunningMeanStd.count s -> 0 < RunningMeanStd.var s ->
  Forall (fun x => (2 <= length x)%nat) batches ->
  0 < RunningMeanStd.var (update_all s batches) /\
  0 < RunningMeanStd.count (update_all s batches) /\
  RunningMeanStd.count (update_all s batches)
  == RunningMeanStd.count s + qlen (concat batches).
Proof.
  unfold update_all. revert s.
  induction batches as [|x batches IH]; intros s Hc Hv Hb.
  - cbn. repeat split; try assumption. unfold qlen. cbn. ring.
  - apply Forall_cons in Hb. destruct Hb as [Hx Hb]. cbn [fold_left concat].
    assert (Hc' : 0 < RunningMeanStd.count (RunningMeanStd.update s x))
      by (apply count_positive_update; exact Hc).
    assert (Hv' : 0 < RunningMeanStd.var (RunningMeanStd.update s x)).
    { unfold RunningMeanStd.update.
      apply update_from_moments_var_pos; auto using torch_var_nonneg, qlen_nonneg. }
    destruct (IH _ Hc' Hv' Hb) as (H1 & H2 & H3).
    repeat split; try assumption.
    rewrite H3, qlen_app. unfold RunningMeanStd.update.
    rewrite count_update_from_moments. ring.
Qed.

(** The merged mean is the count-weighted average of the two means, so
    it lies between them. *)
Theorem merged_mean_is_weighted_average
    (s : RunningMeanStd.t) (bm bv bc : Q) :
  0 < RunningMeanStd.count s -> 0 <= bc ->
  let s' := RunningMeanStd.update_from_moments s bm bv bc in
  RunningMeanStd.mean s' * (RunningMeanStd.count s + bc)
    == RunningMeanStd.mean s * RunningMeanStd.count s + bm * bc /\
  Qmin (RunningMeanStd.mean s) bm <= RunningMeanStd.mean s'
    <= Qmax (RunningMeanStd.mean s) bm.
Proof.
  intros Hc Hb s'. destruct s as [m v c]. subst s'. cbn in *.
  assert (Ht : 0 < c + bc) by lra.
  assert (E : (m + (bm - m) * bc / (c + bc)) * (c + bc) == m * c + bm * bc)
    by (field; lra).
  split; [exact E|].
  set (m' := m + (bm - m) * bc / (c + bc)) in *.
  pose proof (Q.le_min_l m bm). pose proof (Q.le_min_r m bm).
  pose proof (Q.le_max_l m bm). pose proof (Q.le_max_r m bm).
  split.
  - apply Qnot_lt_le. intros C.
    assert (m' * (c + bc) < Qmin m bm * (c + bc)) by nra. nra.
  - apply Qnot_lt_le. intros C.
    assert (Qmax m bm * (c + bc) < m' * (c + bc)) by nra. nra.
Qed.

(** Folding two batches' moments into a statistic gives the same
    statistic in either order. *)
Lemma merge_is_commutative (s A B : RunningMeanStd.t) :
  0 < RunningMeanStd.count s ->
  0 <= RunningMeanStd.count A -> 0 <= RunningMeanStd.count B ->
  RunningMeanStd.eqv
    (RunningMeanStd.absorb (RunningMeanStd.absorb s A) B)
    (RunningMeanStd.absorb (RunningMeanStd.absorb s B) A).
Proof.
  intros Hs HA HB.
  destruct s as [ms vs cs], A as [mA vA cA], B as [mB vB cB].
  cbn in *. unfold RunningMeanStd.eqv, RunningMeanStd.absorb. cbn.
  unfold square.
  repeat split; field; repeat split; lra.
Qed.

Lemma qsum_sq_expand (c : Q) (x : list Q) :
  qsum (map (fun xi => square (xi - c)) x)
  == qsum (map square x) - 2 * c * qsum x + qlen x * c * c.
Proof.
  induction x as [|a x IH].
  - unfold qlen. cbn. ring.
  - cbn [map qsum]. rewrite IH, qlen_cons. unfold square. ring.
Qed.

(** The merge is exact on population moments: folding the mean, the
    divisor-[n] variance and the size of a second sample into those of
    a first gives the mean, variance and size of the two samples taken
    together. *)
Theorem merge_is_exact_on_population_moments (x y : list Q) :
  x <> [] -> y <> [] ->
  RunningMeanStd.eqv
    (RunningMeanStd.absorb (moments_of x) (moments_of y))
    (moments_of (x ++ y)).
Proof.
  intros Hx Hy.
  pose proof (qlen_pos x Hx) as Px. pose proof (qlen_pos y Hy) as Py.
  unfold RunningMeanStd.eqv, RunningMeanStd.absorb, moments_of,
    RunningMeanStd.update_from_moments, update_mean_var_count_from_moments.
  cbn [RunningMeanStd.mean RunningMeanStd.var RunningMeanStd.count].
  unfold pop_var.
  rewrite !qsum_sq_expand.
  unfold torch_mean.
  rewrite map_app, !qsum_app, !qlen_app.
  generalize dependent (qlen x). intros n Pn.
  generalize dependent (qlen y). intros m Pm.
  generalize (qsum x) (qsum y) (qsum (map square x)) (qsum (map square y)).
  intros sx sy qx qy. unfold square.
  repeat split; field; repeat split; lra.
Qed.

(** ** What the filter writes, and what it leaves alone *)

Section FilterFrame.
Import Store.

Lemma length_storage_put st v j x l :
  length (storage (put st v j x) l) = length (storage st l).
Proof.
  destruct (decide (l = base v)) as [->|E].
  - rewrite storage_put_same. apply length_insert.
  - rewrite storage_put_other by exact E. reflexivity.
Qed.

Lemma nth_storage_put st v j x l i :
  l <> base v \/ i <> (off v + j)%nat ->
  nth i (storage (put st v j x) l) 0 = nth i (storage st l) 0.
Proof.
  intros H. destruct (decide (l = base v)) as [->|E].
  - rewrite storage_put_same. apply nth_insert_other.
    destruct H as [H|H]; [contradiction | congruence].
  - rewrite storage_put_other by exact E. reflexivity.
Qed.

Lemma length_storage_index_put st v mask vals l :
  length (storage (index_put st v mask vals) l) = length (storage st l).
Proof.
  unfold index_put. generalize (zip mask vals). intros z. revert st.
  induction z as [|[j x] z IH]; intros st; cbn; [reflexivity|].
  rewrite IH. apply length_storage_put.
Qed.

Lemma nth_storage_index_put st v mask vals l i :
  l <> base v \/ (forall j, In j mask -> i <> (off v + j)%nat) ->
  nth i (storage (index_put st v mask vals) l) 0 = nth i (storage st l) 0.
Proof.
  unfold index_put. revert vals st.
  induction mask as [|j mask IH]; intros vals st H; [reflexivity|].
  destruct vals as [|x vals]; [reflexivity|].
  cbn [zip zip_with fold_left fst snd].
  rewrite IH.
  - apply nth_storage_put. destruct H as [H|H]; [left; exact H|].
    right. apply H. left. reflexivity.
  - destruct H as [H|H]; [left; exact H|].
    right. intros k Hk. apply H. right. exact Hk.
Qed.

Lemma storage_index_put_other st v mask vals l :
  l <> base v -> storage (index_put st v mask vals) l = storage st l.
Proof.
  intros Hl. unfold index_put. generalize (zip mask vals). intros z. revert st.
  induction z as [|[j x] z IH]; intros st; cbn; [reflexivity|].
  rewrite IH. apply storage_put_other. exact Hl.
Qed.

(** The masked assignment, entry by entry. *)
Lemma get_masked_assignment (g : Q) (acc rews : view) (nd : list Q) st (j : nat) :
  valid st acc -> length nd = len acc -> (j < len acc)%nat ->
  get (index_put st acc (where_eq nd 1)
         (map (fun j => get st acc j * g + get st rews j) (where_eq nd 1)))
      acc j
  = if Qeq_bool (nth j nd 0) 1
    then get st acc j * g + get st rews j
    else get st acc j.
Proof.
  intros Hv Hl Hj.
  rewrite (get_index_put (fun j => get st acc j * g + get st rews j)).
  - destruct (in_dec Nat.eq_dec j (where_eq nd 1)) as [Hin|Hout].
    + apply in_where_eq in Hin. destruct Hin as [_ ->]. reflexivity.
    + destruct (Qeq_bool (nth j nd 0) 1) eqn:E; [|reflexivity].
      exfalso. apply Hout. apply in_where_eq. split; [lia | exact E].
  - exact Hv.
  - intros i Hi. apply in_where_eq in Hi. lia.
Qed.

(** A call with [not_done] writes nothing but the accumulator's entries
    whose [not_done] is 1: every other tensor, every entry of the
    accumulator's storage outside its window, and every entry whose
    [not_done] is not 1 read as before, and no storage changes
    length. *)
Theorem masked_update_writes_only_not_done_slots
    (f : RewardForwardFilter.t) (acc rews : view) (nd : list Q)
    (st : gmap nat (list Q)) :
  RewardForwardFilter.rewems f = Some acc ->
  let st' := fst (fst (RewardForwardFilter.update f rews (Some nd) st)) in
  (forall l, l <> base acc -> storage st' l = storage st l) /\
  (forall l, length (storage st' l) = length (storage st l)) /\
  (forall i, (i < off acc)%nat \/ (off acc + length nd <= i)%nat ->
     nth i (storage st' (base acc)) 0 = nth i (storage st (base acc)) 0) /\
  (forall j, Qeq_bool (nth j nd 0) 1 = false ->
     get st' acc j = get st acc j).
Proof.
  intros Hacc. unfold RewardForwardFilter.update. rewrite Hacc. cbn [fst].
  split; [|split; [|split]].
  - intros l Hl. apply storage_index_put_other. exact Hl.
  - intros l. apply length_storage_index_put.
  - intros i Hi. apply nth_storage_index_put. right.
    intros j Hj. apply in_where_eq in Hj. lia.
  - intros j Hj. unfold get. apply nth_storage_index_put. right.
    intros k Hk. apply in_where_eq in Hk. destruct Hk as [_ Hk].
    intros E. assert (k = j) by lia. subst k.
    rewrite Hj in Hk. discriminate Hk.
Qed.

(** A call without [not_done] writes into no existing tensor.  The
    first such call takes the caller's tensor as accumulator; a later
    one makes a new tensor holding [accumulator * gamma + rewards]; in
    both cases the tensor handed back is the accumulator itself, not a
    copy of it. *)
Lemma unmasked_update_returns_the_accumulator
    (f : RewardForwardFilter.t) (rews : view) (st : gmap nat (list Q)) :
  let '(st', f', ret) := RewardForwardFilter.update f rews None st in
  (forall l x, st !! l = Some x -> st' !! l = Some x) /\
  (exists v, ret = RewardForwardFilter.Ref v /\
             RewardForwardFilter.rewems f' = Some v) /\
  RewardForwardFilter.gamma f' = RewardForwardFilter.gamma f /\
  RewardForwardFilter.values st' ret
  = match RewardForwardFilter.rewems f with
    | None => load st rews
    | Some acc =>
        zip_with (fun a r => a * RewardForwardFilter.gamma f + r)
                 (load st acc) (load st rews)
    end.
Proof.
  unfold RewardForwardFilter.update.
  destruct (RewardForwardFilter.rewems f) as [acc|].
  - unfold alloc. cbn [RewardForwardFilter.values RewardForwardFilter.rewems
      RewardForwardFilter.gamma].
    set (vals := zip_with _ (load st acc) (load st rews)).
    assert (Hf : st !! fresh (dom st) = None).
    { apply not_elem_of_dom. apply is_fresh. }
    split; [|split; [|split]].
    + intros l x Hl. rewrite lookup_insert_ne; [exact Hl|].
      intros E. subst l.
      assert (C : None = Some x)
        by (etransitivity; [symmetry; exact Hf | exact Hl]).
      discriminate C.
    + eexists. split; reflexivity.
    + reflexivity.
    + unfold load, storage. cbn [base off len].
      rewrite lookup_insert_eq. cbn [default drop]. apply firstn_all.
  - cbn. split; [auto|]. split; [eexists; split; reflexivity|]. auto.
Qed.

End FilterFrame.

(** ** The filter over the rows of one rollout *)

Section FilterRows.
Import Store.
Variables (g : Q) (buf : loc) (N : nat).

Let row0 : view := row buf N 0.
Let bound : RewardForwardFilter.t :=
  {| RewardForwardFilter.rewems := Some row0; RewardForwardFilter.gamma := g |}.

Lemma nth_load_row0 st (n : nat) :
  (n < N)%nat -> nth n (load st row0) 0 = nth n (storage st buf) 0.
Proof. intros H. unfold row0. rewrite nth_load by exact H. reflexivity. Qed.

Lemma length_load_row0 st :
  (N <= length (storage st buf))%nat -> length (load st row0) = N.
Proof. intros H. apply length_load. unfold valid, row0. cbn. lia. Qed.

(** Once the accumulator is row 0 of the buffer, the calls on the rows
    [i0, i0 + 1, ...] write into row 0 only. *)
Lemma update_rows_bound (nds : list (list Q)) :
  forall (i0 : nat) (st : gmap nat (list Q)),
    (N <= length (storage st buf))%nat ->
    Forall (fun nd => length nd = N) nds ->
    let S := storage st buf in
    let '(st', f', outs) := RewardForwardFilter.update_rows bound buf N i0 nds st in
    f' = bound /\
    length outs = length nds /\
    length (storage st' buf) = length S /\
    (forall i, (N <= i)%nat -> nth i (storage st' buf) 0 = nth i S 0) /\
    (forall k n, (k < length nds)%nat -> (n < N)%nat ->
       at2 outs k n =
         let prev := if (k =? 0)%nat then nth n S 0 else at2 outs (k - 1) n in
         if Qeq_bool (at2 nds k n) 1
         then prev * g + nth ((i0 + k) * N + n) S 0
         else prev) /\
    (forall n, (n < N)%nat ->
       nth n (storage st' buf) 0 =
         if (length nds =? 0)%nat then nth n S 0
         else at2 outs (length nds - 1) n).
Proof.
  induction nds as [|nd rest IH]; intros i0 st HN Hnds S.
  - cbn. repeat split; auto. intros k n Hk. lia.
  - apply Forall_cons in Hnds. destruct Hnds as [Hnd Hrest].
    cbn [RewardForwardFilter.update_rows].
    unfold RewardForwardFilter.update at 1.
    cbn [RewardForwardFilter.rewems RewardForwardFilter.gamma bound].
    fold bound.
    set (st1 := index_put st row0 (where_eq nd 1)
                  (map (fun j => get st row0 j * g + get st (row buf N i0) j)
                       (where_eq nd 1))).
    assert (Hv : valid st row0) by (unfold valid, row0; cbn; lia).
    assert (L1 : length (storage st1 buf) = length S)
      by apply length_storage_index_put.
    assert (F1 : forall i, (N <= i)%nat -> nth i (storage st1 buf) 0 = nth i S 0).
    { intros i Hi'. apply nth_storage_index_put. right.
      intros j Hj. apply in_where_eq in Hj. unfold row0. cbn. lia. }
    assert (G1 : forall n, (n < N)%nat ->
              nth n (storage st1 buf) 0 =
                if Qeq_bool (nth n nd 0) 1
                then nth n S 0 * g + nth (i0 * N + n) S 0
                else nth n S 0).
    { intros n Hn.
      pose proof (get_masked_assignment g row0 (row buf N i0) nd st n Hv
                    Hnd Hn) as H.
      exact H. }
    assert (HN1 : (N <= length (storage st1 buf))%nat)
      by (rewrite L1; exact HN).
    specialize (IH (Datatypes.S i0) st1 HN1 Hrest).
    cbv zeta in IH.
    destruct (RewardForwardFilter.update_rows bound buf N (Datatypes.S i0) rest st1)
      as [[st2 f2] outs'].
    destruct IH as (E & Lo & L2 & F2 & R2 & Z2).
    cbn [RewardForwardFilter.values].
    split; [exact E|]. split; [cbn; rewrite Lo; reflexivity|].
    split; [rewrite L2; exact L1|].
    split; [intros i Hi'; rewrite F2 by exact Hi'; apply F1; exact Hi'|].
    split.
    + intros k n Hk Hn. destruct k as [|k].
      * cbn [Nat.eqb]. unfold at2 at 1 2. cbn [nth].
        rewrite nth_load_row0 by exact Hn.
        rewrite Nat.add_0_r. apply G1. exact Hn.
      * cbn [length] in Hk.
        change (at2 (load st1 row0 :: outs') (Datatypes.S k) n) with (at2 outs' k n).
        change (at2 (nd :: rest) (Datatypes.S k) n) with (at2 rest k n).
        rewrite (R2 k n ltac:(lia) Hn). cbv zeta.
        replace ((Datatypes.S i0 + k) * N + n)%nat
          with ((i0 + Datatypes.S k) * N + n)%nat by lia.
        rewrite (F1 ((i0 + Datatypes.S k) * N + n)%nat) by nia.
        cbn [Nat.eqb]. replace (Datatypes.S k - 1)%nat with k by lia.
        destruct k as [|k].
        -- cbn [Nat.eqb]. unfold at2 at 3 4. cbn [nth].
           rewrite nth_load_row0 by exact Hn. reflexivity.
        -- cbn [Nat.eqb].
           change (at2 (load st1 row0 :: outs') (Datatypes.S k) n)
             with (at2 outs' k n).
           replace (Datatypes.S k - 1)%nat with k by lia. reflexivity.
    + intros n Hn. rewrite (Z2 n Hn). cbn [length Nat.eqb].
      replace (Datatypes.S (length rest) - 1)%nat with (length rest) by lia.
      destruct (length rest) as [|m] eqn:El.
      * cbn [Nat.eqb]. unfold at2. cbn [nth].
        rewrite nth_load_row0 by exact Hn. reflexivity.
      * cbn [Nat.eqb].
        change (at2 (load st1 row0 :: outs') (Datatypes.S m) n)
          with (at2 outs' m n).
        replace (Datatypes.S m - 1)%nat with m by lia. reflexivity.
Qed.

End FilterRows.

(** Whatever the filter refers to, a pass over the rows changes the
    length of no storage. *)
Lemma update_rows_length_storage (g : Q) (buf : Store.loc) (N : nat)
    (nds : list (list Q)) :
  forall (f : RewardForwardFilter.t) (i0 : nat) (st : gmap nat (list Q)),
    length (Store.storage
              (fst (fst (RewardForwardFilter.update_rows f buf N i0 nds st))) buf)
    = length (Store.storage st buf).
Proof.
  induction nds as [|nd rest IH]; intros f i0 st; [reflexivity|].
  cbn [RewardForwardFilter.update_rows].
  destruct (RewardForwardFilter.update f (Store.row buf N i0) (Some nd) st)
    as [[st1 f1] out] eqn:E1.
  specialize (IH f1 (S i0) st1).
  destruct (RewardForwardFilter.update_rows f1 buf N (S i0) rest st1)
    as [[st2 f2] outs]. cbn [fst] in *.
  rewrite IH.
  unfold RewardForwardFilter.update in E1.
  destruct (RewardForwardFilter.rewems f) as [acc|].
  - injection E1 as <- _ _. apply length_storage_index_put.
  - injection E1 as <- _ _. reflexivity.
Qed.

Lemma at2_cons_0 (x : list Q) (l : list (list Q)) (n : nat) :
  at2 (x :: l) 0 n = nth n x 0.
Proof. reflexivity. Qed.

Lemma at2_cons_S (x : list Q) (l : list (list Q)) (k n : nat) :
  at2 (x :: l) (S k) n = at2 l k n.
Proof. reflexivity. Qed.

Lemma get_row (st : gmap nat (list Q)) (buf : Store.loc) (N t n : nat) :
  Store.get st (Store.row buf N t) n = nth (t * N + n) (Store.storage st buf) 0.
Proof. reflexivity. Qed.

Section FilterPasses.
Import Store.
Variables (g : Q) (buf : loc) (N : nat).

Lemma first_pass_buffer
    (nd0 : list Q) (rest : list (list Q)) (st : gmap nat (list Q)) :
  (N <= length (storage st buf))%nat ->
  Forall (fun nd => length nd = N) rest ->
  let '(st', f', outs) :=
    RewardForwardFilter.update_rows (RewardForwardFilter.init g) buf N 0
      (nd0 :: rest) st in
  (forall t n, (1 <= t)%nat -> (n < N)%nat ->
     get st' (row buf N t) n = get st (row buf N t) n) /\
  (forall n, (n < N)%nat ->
     get st' (row buf N 0) n = at2 outs (length (nd0 :: rest) - 1) n).
Proof.
  intros HN Hrest.
  cbn [RewardForwardFilter.update_rows].
  rewrite update_first_call. cbn [RewardForwardFilter.values].
  pose proof (update_rows_bound g buf N rest 1 st HN Hrest) as H.
  cbv zeta in H.
  destruct (RewardForwardFilter.update_rows _ buf N 1 rest st) as [[st' f'] outs'].
  destruct H as (_ & _ & _ & F & _ & Z).
  split.
  { intros t n Ht Hn. rewrite !get_row. apply F. nia. }
  intros n Hn. rewrite get_row, Nat.mul_0_l, Nat.add_0_l.
  rewrite (Z n Hn). cbn [length].
  replace (Datatypes.S (length rest) - 1)%nat with (length rest) by lia.
  destruct (length rest) as [|m] eqn:El.
  - cbn [Nat.eqb]. rewrite at2_cons_0, nth_load by exact Hn.
    rewrite get_row, Nat.mul_0_l, Nat.add_0_l. reflexivity.
  - cbn [Nat.eqb]. rewrite at2_cons_S.
    replace (Datatypes.S m - 1)%nat with m by lia. reflexivity.
Qed.

(** The filter's first pass over a rollout (the accumulator does not
    exist yet).  The first call ignores [not_done]: it returns row 0 of
    the buffer and makes that row the accumulator.  From row 1 on, the
    stream value is the previous one times gamma plus the row's reward
    where [not_done] is 1, and the previous one unchanged elsewhere.
    Rows 1 and up of the buffer are left as they were, but row 0 ends up
    holding the last stream value. *)
Theorem first_pass_accumulates_in_buffer_row_zero
    (nd0 : list Q) (rest : list (list Q)) (st : gmap nat (list Q)) :
  (N <= length (storage st buf))%nat ->
  Forall (fun nd => length nd = N) rest ->
  let nds := nd0 :: rest in
  let T := length nds in
  let raw := fun t n => get st (row buf N t) n in
  let '(st', f', outs) :=
    RewardForwardFilter.update_rows (RewardForwardFilter.init g) buf N 0 nds st in
  RewardForwardFilter.rewems f' = Some (row buf N 0) /\
  length outs = T /\
  (forall n, (n < N)%nat -> at2 outs 0 n = raw 0%nat n) /\
  (forall t n, (1 <= t < T)%nat -> (n < N)%nat ->
     at2 outs t n =
       if Qeq_bool (at2 nds t n) 1
       then at2 outs (t - 1) n * g + raw t n
       else at2 outs (t - 1) n) /\
  (forall t n, (1 <= t)%nat -> (n < N)%nat ->
     get st' (row buf N t) n = raw t n) /\
  (forall n, (n < N)%nat -> get st' (row buf N 0) n = at2 outs (T - 1) n).
Proof.
  intros HN Hrest nds T raw. subst nds T raw.
  cbn [RewardForwardFilter.update_rows].
  rewrite update_first_call. cbn [RewardForwardFilter.values].
  pose proof (update_rows_bound g buf N rest 1 st HN Hrest) as H.
  cbv zeta in H.
  destruct (RewardForwardFilter.update_rows _ buf N 1 rest st) as [[st' f'] outs'].
  destruct H as (E & Lo & L & F & R & Z).
  split; [rewrite E; reflexivity|].
  split; [cbn; rewrite Lo; reflexivity|].
  split.
  { intros n Hn. rewrite at2_cons_0, nth_load by exact Hn. reflexivity. }
  split.
  { intros t n Ht Hn. destruct t as [|k]; [lia|].
    cbn [length] in Ht.
    rewrite !at2_cons_S. rewrite (R k n ltac:(lia) Hn). cbv zeta.
    replace (Datatypes.S k - 1)%nat with k by lia.
    rewrite get_row.
    replace ((1 + k) * N + n)%nat with (Datatypes.S k * N + n)%nat by lia.
    destruct k as [|k].
    - cbn [Nat.eqb]. rewrite at2_cons_0, nth_load by exact Hn.
      rewrite get_row, Nat.mul_0_l, Nat.add_0_l. reflexivity.
    - cbn [Nat.eqb]. rewrite at2_cons_S.
      replace (Datatypes.S k - 1)%nat with k by lia. reflexivity. }
  split.
  { intros t n Ht Hn. rewrite !get_row. apply F. nia. }
  intros n Hn. rewrite get_row, Nat.mul_0_l, Nat.add_0_l.
  rewrite (Z n Hn). cbn [length].
  replace (Datatypes.S (length rest) - 1)%nat with (length rest) by lia.
  destruct (length rest) as [|m] eqn:El.
  - cbn [Nat.eqb]. rewrite at2_cons_0, nth_load by exact Hn.
    rewrite get_row, Nat.mul_0_l, Nat.add_0_l. reflexivity.
  - cbn [Nat.eqb]. rewrite at2_cons_S.
    replace (Datatypes.S m - 1)%nat with m by lia. reflexivity.
Qed.

(** A later pass (the accumulator is row 0 of the buffer, which by then
    holds the new rollout's first rewards).  The stream starts from the
    buffer's row 0 itself: where [not_done] is 1 its first value is that
    reward times gamma plus the same reward, elsewhere the reward; no
    value from an earlier rollout enters.  The following values and the
    rows of the buffer behave as in the first pass. *)
Theorem later_pass_restarts_from_buffer_row_zero
    (nds : list (list Q)) (st : gmap nat (list Q)) :
  (N <= length (storage st buf))%nat ->
  Forall (fun nd => length nd = N) nds ->
  nds <> [] ->
  let T := length nds in
  let raw := fun t n => get st (row buf N t) n in
  let bound := {| RewardForwardFilter.rewems := Some (row buf N 0);
                  RewardForwardFilter.gamma := g |} in
  let '(st', f', outs) := RewardForwardFilter.update_rows bound buf N 0 nds st in
  f' = bound /\
  length outs = T /\
  (forall n, (n < N)%nat ->
     at2 outs 0 n =
       if Qeq_bool (at2 nds 0 n) 1
       then raw 0%nat n * g + raw 0%nat n
       else raw 0%nat n) /\
  (forall t n, (1 <= t < T)%nat -> (n < N)%nat ->
     at2 outs t n =
       if Qeq_bool (at2 nds t n) 1
       then at2 outs (t - 1) n * g + raw t n
       else at2 outs (t - 1) n) /\
  (forall t n, (1 <= t)%nat -> (n < N)%nat ->
     get st' (row buf N t) n = raw t n) /\
  (forall n, (n < N)%nat -> get st' (row buf N 0) n = at2 outs (T - 1) n).
Proof.
  intros HN Hnds Hne T raw bound. subst T raw.
  pose proof (update_rows_bound g buf N nds 0 st HN Hnds) as H.
  cbv zeta in H. fold bound in H.
  destruct (RewardForwardFilter.update_rows bound buf N 0 nds st)
    as [[st' f'] outs].
  destruct H as (E & Lo & L & F & R & Z).
  assert (Hlen : (0 < length nds)%nat) by (destruct nds; [contradiction | cbn; lia]).
  split; [exact E|]. split; [exact Lo|].
  split.
  { intros n Hn. rewrite (R 0%nat n Hlen Hn). cbv zeta. cbn [Nat.eqb].
    rewrite get_row, Nat.mul_0_l, !Nat.add_0_l. reflexivity. }
  split.
  { intros t n Ht Hn. rewrite (R t n ltac:(lia) Hn). cbv zeta.
    destruct (Nat.eqb_spec t 0) as [C|_]; [lia|].
    rewrite get_row, Nat.add_0_l. reflexivity. }
  split.
  { intros t n Ht Hn. rewrite !get_row. apply F. nia. }
  intros n Hn. rewrite get_row, Nat.mul_0_l, Nat.add_0_l. rewrite (Z n Hn).
  destruct (Nat.eqb_spec (length nds) 0) as [C|_]; [lia | reflexivity].
Qed.

(** Reward normalization on the first rollout, row by row: the
    statistic absorbs the filter's stream; every row of the buffer from
    row 1 on ends as its raw rewards over [sqrt(var)]; row 0 ends as the
    last value of the discounted stream over [sqrt(var)]. *)
Theorem first_normalization_divides_rows_from_one_on
    (sqrt : Q -> Q) (d0 : list Q) (drest : list (list Q))
    (rms : RunningMeanStd.t) (st : gmap nat (list Q)) :
  (N <= length (storage st buf))%nat ->
  Forall (fun d => length d = N) drest ->
  let dones := d0 :: drest in
  let T := length dones in
  let stream :=
    snd (RewardForwardFilter.update_rows (RewardForwardFilter.init g) buf N 0
           (map (map (fun d => 1 - d)) dones) st) in
  let '(st', flt', rms') :=
    RewardNorm.normalize sqrt buf N dones (RewardForwardFilter.init g) rms st in
  let sigma := sqrt (RunningMeanStd.var rms') in
  rms' = RunningMeanStd.update rms (concat stream) /\
  (forall t n, (1 <= t)%nat -> (n < N)%nat ->
     (t * N + n < length (storage st buf))%nat ->
     get st' (row buf N t) n = get st (row buf N t) n / sigma) /\
  (forall n, (n < N)%nat ->
     get st' (row buf N 0) n = at2 stream (T - 1) n / sigma).
Proof.
  intros HN Hrest dones T stream. subst dones T stream.
  unfold RewardNorm.normalize.
  cbn [map].
  assert (Hrest' : Forall (fun nd => length nd = N)
                     (map (map (fun d => 1 - d)) drest)).
  { rewrite Forall_lookup in *. intros i x Hx.
    change (map (map (fun d => 1 - d)) drest)
      with (map (fun d => 1 - d) <$> drest) in Hx.
    rewrite list_lookup_fmap in Hx.
    destruct (drest !! i) as [r0|] eqn:E; [|discriminate].
    injection Hx as <-. rewrite length_map. exact (Hrest _ _ E). }
  pose proof (first_pass_buffer
                (map (fun d => 1 - d) d0) (map (map (fun d => 1 - d)) drest)
                st HN Hrest') as H.
  pose proof (update_rows_length_storage g buf N
                (map (fun d => 1 - d) d0 :: map (map (fun d => 1 - d)) drest)
                (RewardForwardFilter.init g) 0 st) as HL.
  destruct (RewardForwardFilter.update_rows (RewardForwardFilter.init g) buf N 0
              (map (fun d => 1 - d) d0 :: map (map (fun d => 1 - d)) drest) st)
    as [[st1 f1] outs].
  cbn [fst snd] in *.
  destruct H as (Hrows & Hrow0).
  split; [reflexivity|].
  assert (Hidiv : forall i s, (i < length (storage st1 buf))%nat ->
            nth i (storage (idiv st1 buf s) buf) 0 = nth i (storage st1 buf) 0 / s).
  { intros i s Hi. unfold idiv, storage at 1. rewrite lookup_insert_eq.
    cbn [default].
    exact (nth_map_from (fun x => x / s) (storage st1 buf) 0 i Hi). }
  split.
  - intros t n Ht Hn Hin. rewrite !get_row.
    rewrite Hidiv by (rewrite HL; exact Hin).
    pose proof (Hrows t n Ht Hn) as E. rewrite !get_row in E.
    rewrite E. reflexivity.
  - intros n Hn. rewrite get_row, Nat.mul_0_l, Nat.add_0_l.
    rewrite Hidiv by (rewrite HL; lia).
    pose proof (Hrow0 n Hn) as E.
    rewrite get_row, Nat.mul_0_l, Nat.add_0_l in E. rewrite E.
    cbn [length map]. rewrite !length_map. reflexivity.
Qed.

End FilterPasses.

(** ** Consequences of the advantage recurrence *)

Section GaeConsequences.
Variables (gamma gae_lambda : Q) (T N : nat).
Variables (rewards values dones : list (list Q)).
Variables (next_done next_value : list Q).
Hypothesis Hr : has_shape T N rewards.
Hypothesis Hv : has_shape T N values.
Hypothesis Hd : has_shape T N dones.
Hypothesis Lnd : length next_done = N.
Hypothesis Lnv : length next_value = N.

Let A : nat -> nat -> Q :=
  at2 (GAE.advantages
         (GAE.rle_loop gamma gae_lambda rewards values dones next_done next_value)).
Let R : nat -> nat -> Q :=
  at2 (GAE.returns gamma gae_lambda rewards values dones next_done next_value).

(** The done flag, the value and the advantage of the step after
    [(t, n)], as the loop takes them. *)
Let done_next (t n : nat) : Q :=
  if (t =? T - 1)%nat then nth n next_done 0 else at2 dones (t + 1) n.
Let v_next (t n : nat) : Q :=
  if (t =? T - 1)%nat then nth n next_value 0 else at2 values (t + 1) n.

(** The single-stream loop, entry by entry. *)
Lemma rle_recurrence (t n : nat) :
  (t < T)%nat -> (n < N)%nat ->
  has_shape T N
    (GAE.advantages
       (GAE.rle_loop gamma gae_lambda rewards values dones next_done next_value)) /\
  A t n
  = at2 rewards t n + gamma * v_next t n * (1 - done_next t n) - at2 values t n
    + gamma * gae_lambda * (1 - done_next t n)
      * (if (t =? T - 1)%nat then 0 else A (t + 1)%nat n).
Proof.
  intros Ht Hn.
  assert (HT : length rewards = T) by (destruct Hr; assumption).
  pose (mask := fun t =>
          if (t =? T - 1)%nat then tsub (Scalar 1) (Vec next_done)
          else tsub (Scalar 1) (row_of dones (t + 1))).
  pose (next := fun t =>
          if (t =? T - 1)%nat then Vec next_value else row_of values (t + 1)).
  assert (Fmask : forall t, (t < T)%nat -> fits N (mask t)).
  { intros k Hk. unfold mask, tsub.
    destruct (Nat.eqb_spec k (T - 1)) as [E|E];
      apply fits_broadcast; try exact I; [exact Lnd|].
    apply is_vec_fits, (is_vec_row_of T N); [exact Hd | lia]. }
  assert (Fnext : forall t, (t < T)%nat -> fits N (next t)).
  { intros k Hk. unfold next.
    destruct (Nat.eqb_spec k (T - 1)) as [E|E]; [exact Lnv|].
    apply is_vec_fits, (is_vec_row_of T N); [exact Hv | lia]. }
  pose proof (stream_loop_recurrence gamma (gamma * gae_lambda) T N
                rewards values next mask Hr Hv Fnext Fmask) as Hs.
  cbv zeta in Hs.
  pose proof (rle_fold gamma gae_lambda rewards values dones next_done next_value
                (rev (seq 0 T)) (GAE.rle_init rewards)) as Hf.
  cbv zeta in Hf. rewrite HT in Hf.
  assert (Hf' : (GAE.advantages
                   (GAE.rle_loop gamma gae_lambda rewards values dones
                      next_done next_value),
                 GAE.lastgaelam
                   (GAE.rle_loop gamma gae_lambda rewards values dones
                      next_done next_value))
                = fold_left (GAE.stream_body gamma (gamma * gae_lambda) rewards
                               values next mask)
                    (rev (seq 0 T)) (zeros_like rewards, Scalar 0)).
  { unfold GAE.rle_loop. rewrite HT. exact Hf. }
  rewrite <- Hf' in Hs. cbn [fst] in Hs. destruct Hs as [Hsh Hs].
  split; [exact Hsh|].
  unfold A. rewrite (Hs t n Ht Hn).
  assert (Em : entry (mask t) n = 1 - done_next t n).
  { unfold mask, done_next, tsub.
    destruct (Nat.eqb_spec t (T - 1)) as [E|E].
    - rewrite (entry_broadcast _ N); [reflexivity | exact I | exact Lnd | exact Hn].
    - rewrite (entry_broadcast _ N); [reflexivity | exact I | | exact Hn].
      apply is_vec_fits, (is_vec_row_of T N); [exact Hd | lia]. }
  assert (En : entry (next t) n = v_next t n).
  { unfold next, v_next. destruct (t =? T - 1)%nat; reflexivity. }
  rewrite Em, En. reflexivity.
Qed.

(** Where the next step starts a new episode ([done] of the next step
    is 1), and everywhere if gamma is 0, the advantage is the reward
    minus the value: nothing beyond the episode's end is counted. *)
Theorem advantage_ignores_what_follows_a_done (t n : nat) :
  (t < T)%nat -> (n < N)%nat ->
  done_next t n == 1 \/ gamma == 0 ->
  A t n == at2 rewards t n - at2 values t n.
Proof.
  intros Ht Hn Hc. destruct (rle_recurrence t n Ht Hn) as [_ E]. rewrite E.
  destruct Hc as [Hc|Hc]; rewrite Hc; ring.
Qed.

(** The returns obey the lambda-return recursion: the return of a step
    is its reward plus, unless the episode ended, gamma times the mix
    [(1 - lambda) * V + lambda * return] of the next step, the return
    after the last step being the bootstrap value. *)
Theorem returns_are_lambda_returns (t n : nat) :
  (t < T)%nat -> (n < N)%nat ->
  R t n ==
    at2 rewards t n
    + gamma * (1 - done_next t n)
      * ((1 - gae_lambda) * v_next t n
         + gae_lambda * (if (t =? T - 1)%nat then v_next t n else R (t + 1)%nat n)).
Proof.
  intros Ht Hn. destruct (rle_recurrence t n Ht Hn) as [Hsh E].
  assert (ER : forall k, (k < T)%nat -> R k n = A k n + at2 values k n).
  { intros k Hk. unfold R, GAE.returns. apply (at2_add2 T N); assumption. }
  rewrite (ER t Ht), E.
  destruct (Nat.eqb_spec t (T - 1)) as [El|El].
  - ring.
  - rewrite (ER (t + 1)%nat) by lia.
    unfold v_next. destruct (Nat.eqb_spec t (T - 1)) as [C|_]; [contradiction|].
    ring.
Qed.

End GaeConsequences.

Section GaeMonteCarlo.
Variables (gamma gae_lambda : Q) (T N : nat).
Variables (rewards values dones : list (list Q)).
Variables (next_done next_value : list Q).
Hypothesis Hr : has_shape T N rewards.
Hypothesis Hv : has_shape T N values.
Hypothesis Hd : has_shape T N dones.
Hypothesis Lnd : length next_done = N.
Hypothesis Lnv : length next_value = N.
Hypothesis Hlam : gae_lambda == 1.
Hypothesis Hval : forall t n, (t < T)%nat -> (n < N)%nat -> at2 values t n == 0.
Hypothesis Hdon : forall t n, (t < T)%nat -> (n < N)%nat -> at2 dones t n == 0.
Hypothesis Hnd : forall n, (n < N)%nat -> nth n next_done 0 == 0.
Hypothesis Hnv : forall n, (n < N)%nat -> nth n next_value 0 == 0.

(** The rewards of environment [n], step after step. *)
Let column (n : nat) : list Q := map (fun row => nth n row 0) rewards.

Lemma length_column (n : nat) : length (column n) = T.
Proof. unfold column. rewrite length_map. destruct Hr; assumption. Qed.

Lemma nth_column (n t : nat) : (t < T)%nat -> nth t (column n) 0 = at2 rewards t n.
Proof.
  intros Ht. unfold column, at2.
  destruct Hr as [HT _].
  exact (nth_map_from (fun row => nth n row 0) rewards [] t ltac:(lia)).
Qed.

Lemma gae_is_discounted_sum (n : nat) (Hn : (n < N)%nat) :
  forall m t, (T - t = m)%nat -> (t < T)%nat ->
    at2 (GAE.advantages
           (GAE.rle_loop gamma gae_lambda rewards values dones next_done next_value))
        t n
    == discounted_sum gamma (drop t (column n)).
Proof.
  induction m as [|m IH]; intros t Hm Ht; [lia|].
  destruct (rle_recurrence gamma gae_lambda T N rewards values dones
              next_done next_value Hr Hv Hd Lnd Lnv t n Ht Hn) as [_ E].
  cbv zeta in E. rewrite E. clear E.
  assert (Hdrop : drop t (column n)
                  = at2 rewards t n :: drop (Datatypes.S t) (column n)).
  { rewrite <- (nth_column n t Ht). apply drop_S.
    destruct (nth_lookup_or_length (column n) t 0) as [L|L]; [exact L|].
    rewrite length_column in L. lia. }
  rewrite Hdrop, discounted_sum_cons.
  destruct (Nat.eqb_spec t (T - 1)) as [El|El].
  - rewrite (Hval t n Ht Hn), (Hnd n Hn), (Hnv n Hn).
    rewrite drop_ge by (rewrite length_column; lia).
    unfold discounted_sum. cbn. ring.
  - rewrite (IH (t + 1)%nat ltac:(lia) ltac:(lia)).
    rewrite (Hval t n Ht Hn), Hlam.
    rewrite (Hdon (t + 1)%nat n ltac:(lia) Hn), (Hval (t + 1)%nat n ltac:(lia) Hn).
    replace (t + 1)%nat with (Datatypes.S t) by lia. ring.
Qed.

(** With lambda = 1, a critic that is zero everywhere and no episode
    end in the rollout, the advantage estimator computes, for every
    environment, what [compute_returns] computes from that
    environment's rewards: the discounted sum of the rewards to come. *)
Theorem gae_with_lambda_one_is_compute_returns (t n : nat) :
  (t < T)%nat -> (n < N)%nat ->
  at2 (GAE.advantages
         (GAE.rle_loop gamma gae_lambda rewards values dones next_done next_value))
      t n
  == nth t (ActorCritic.compute_returns (map (fun row => nth n row 0) rewards) gamma) 0.
Proof.
  intros Ht Hn.
  rewrite (gae_is_discounted_sum n Hn (T - t)%nat t eq_refl Ht).
  symmetry. apply nth_compute_returns. fold (column n).
  rewrite length_column. exact Ht.
Qed.

End GaeMonteCarlo.

(** ** Clipping *)

Lemma clamp_bounds (x lo hi : Q) : lo <= hi -> lo <= clamp x lo hi <= hi.
Proof.
  intros H. unfold clamp. split.
  - apply Q.min_glb; [apply Q.le_max_r | exact H].
  - apply Q.le_min_r.
Qed.

Lemma clamp_inside (x lo hi : Q) : lo <= x <= hi -> clamp x lo hi == x.
Proof.
  intros [H1 H2]. unfold clamp.
  rewrite (Q.max_l x lo H1). apply Q.min_l. exact H2.
Qed.

Lemma qsum_le (l1 l2 : list Q) : Forall2 Qle l1 l2 -> qsum l1 <= qsum l2.
Proof.
  induction 1 as [|x y l1 l2 Hxy _ IH]; cbn; [lra|]. lra.
Qed.

Lemma qsum_eqv (l1 l2 : list Q) : Forall2 Qeq l1 l2 -> qsum l1 == qsum l2.
Proof.
  induction 1 as [|x y l1 l2 Hxy _ IH]; cbn; [reflexivity|].
  rewrite Hxy, IH. reflexivity.
Qed.

Lemma qsum_nonneg (l : list Q) : Forall (fun x => 0 <= x) l -> 0 <= qsum l.
Proof. induction 1 as [|x l Hx _ IH]; cbn; lra. Qed.

Lemma qlen_inv_nonneg (l : list Q) : 0 <= / qlen l.
Proof. apply Qinv_le_0_compat, qlen_nonneg. Qed.

Lemma torch_mean_le (l1 l2 : list Q) :
  Forall2 Qle l1 l2 -> torch_mean l1 <= torch_mean l2.
Proof.
  intros H. unfold torch_mean, Qdiv, qlen.
  rewrite (Forall2_length _ _ _ H).
  apply Qmult_le_compat_r; [apply qsum_le; exact H|].
  apply (qlen_inv_nonneg l2).
Qed.

Lemma torch_mean_eqv (l1 l2 : list Q) :
  Forall2 Qeq l1 l2 -> torch_mean l1 == torch_mean l2.
Proof.
  intros H. unfold torch_mean, qlen.
  rewrite (Forall2_length _ _ _ H), (qsum_eqv _ _ H). reflexivity.
Qed.

Lemma torch_mean_nonneg (l : list Q) :
  Forall (fun x => 0 <= x) l -> 0 <= torch_mean l.
Proof.
  intros H. unfold torch_mean, Qdiv.
  apply Qmult_le_0_compat; [apply qsum_nonneg; exact H | apply qlen_inv_nonneg].
Qed.

(** Two lists built index by index from the same two lists are related
    entry by entry as soon as the builders are. *)
Lemma Forall2_zip_with (R : Q -> Q -> Prop) (f h : Q -> Q -> Q) (a b : list Q) :
  (forall x y, R (f x y) (h x y)) ->
  Forall2 R (zip_with f a b) (zip_with h a b).
Proof.
  intros H. revert b. induction a as [|x a IH]; intros [|y b]; cbn; constructor; auto.
Qed.

(** ** The policy loss, bounded and unclipped *)

Section PolicyBounds.
Variables (exp sqrt : Q -> Q).

Lemma pg_loss_unfold (norm_adv : bool) (clip_coef : Q)
    (b_advantages b_logprobs : list Q) (mb_inds : list nat) (newlogprob : list Q) :
  PPO.pg_loss exp sqrt norm_adv clip_coef b_advantages b_logprobs mb_inds newlogprob
  = let adv := Metrics.mb_advantages sqrt norm_adv b_advantages mb_inds in
    let ratio := PPO.ratio exp newlogprob b_logprobs mb_inds in
    torch_mean
      (zip_with Qmax
         (zip_with (fun a r => - a * r) adv ratio)
         (zip_with (fun a r => - a * clamp r (1 - clip_coef) (1 + clip_coef))
                   adv ratio)).
Proof. unfold PPO.pg_loss, Metrics.mb_advantages. destruct norm_adv; reflexivity. Qed.

Lemma zip_with_max_zip (f h : Q -> Q -> Q) (a b : list Q) :
  zip_with Qmax (zip_with f a b) (zip_with h a b)
  = zip_with (fun x y => Qmax (f x y) (h x y)) a b.
Proof.
  revert b. induction a as [|x a IH]; intros [|y b]; cbn; [reflexivity..|].
  rewrite IH. reflexivity.
Qed.

(** For a minibatch whose advantages are not normalized, or that holds
    at least two samples (with one sample the normalized advantages are
    NaN), the clipped policy loss is never below the unclipped surrogate
    loss of the same minibatch: clipping can only make the loss
    larger. *)
Theorem pg_loss_is_at_least_the_unclipped_surrogate
    (norm_adv : bool) (clip_coef : Q)
    (b_advantages b_logprobs : list Q) (mb_inds : list nat) (newlogprob : list Q) :
  norm_adv = false \/ (2 <= length mb_inds)%nat ->
  Metrics.surrogate
    (Metrics.mb_advantages sqrt norm_adv b_advantages mb_inds)
    (PPO.ratio exp newlogprob b_logprobs mb_inds)
  <= PPO.pg_loss exp sqrt norm_adv clip_coef b_advantages b_logprobs mb_inds
       newlogprob.
Proof.
  intros _.
  rewrite pg_loss_unfold. cbv zeta. unfold Metrics.surrogate.
  rewrite zip_with_max_zip.
  apply torch_mean_le. apply Forall2_zip_with.
  intros x y. apply Q.le_max_l.
Qed.

Lemma clipfrac_zero (clip_coef : Q) (ratio : list Q) :
  ratio <> [] -> Metrics.clipfrac clip_coef ratio == 0 ->
  Forall (fun r => Qabs (r - 1) <= clip_coef) ratio.
Proof.
  intros Hne H. unfold Metrics.clipfrac, torch_mean in H.
  set (ind := map _ ratio) in H.
  assert (Hl : 0 < qlen ind).
  { apply qlen_pos. subst ind. destruct ratio; [contradiction | discriminate]. }
  assert (Hs : qsum ind == 0).
  { assert (E : qsum ind == qsum ind / qlen ind * qlen ind) by (field; lra).
    rewrite E, H. ring. }
  clear H Hl Hne. subst ind.
  induction ratio as [|r ratio IH]; [constructor|].
  cbn [map qsum] in Hs.
  assert (Hnn : 0 <= qsum (map (fun r => if Qlt_le_dec clip_coef (Qabs (r - 1))
                                         then 1 else 0) ratio)).
  { apply qsum_nonneg. apply Forall_forall. intros x Hx.
    apply list_elem_of_In, in_map_iff in Hx. destruct Hx as (y & <- & _).
    destruct (Qlt_le_dec clip_coef (Qabs (y - 1))); lra. }
  destruct (Qlt_le_dec clip_coef (Qabs (r - 1))) as [C|C].
  - exfalso. lra.
  - constructor; [exact C|]. apply IH. lra.
Qed.

(** When the logged clip fraction of a minibatch is 0, no ratio left
    the band [1 - clip_coef, 1 + clip_coef], and the policy loss is the
    unclipped surrogate loss; for a minibatch whose advantages are not
    normalized, or that holds at least two samples (with one sample the
    normalized advantages are NaN). *)
Theorem zero_clipfrac_means_unclipped_loss
    (norm_adv : bool) (clip_coef : Q)
    (b_advantages b_logprobs : list Q) (mb_inds : list nat) (newlogprob : list Q) :
  let ratio := PPO.ratio exp newlogprob b_logprobs mb_inds in
  ratio <> [] ->
  Metrics.clipfrac clip_coef ratio == 0 ->
  norm_adv = false \/ (2 <= length mb_inds)%nat ->
  Forall (fun r => 1 - clip_coef <= r <= 1 + clip_coef) ratio /\
  PPO.pg_loss exp sqrt norm_adv clip_coef b_advantages b_logprobs mb_inds
    newlogprob
  == Metrics.surrogate
       (Metrics.mb_advantages sqrt norm_adv b_advantages mb_inds) ratio.
Proof.
  intros ratio Hne Hz _.
  pose proof (clipfrac_zero clip_coef ratio Hne Hz) as Hin.
  assert (Hband : Forall (fun r => 1 - clip_coef <= r <= 1 + clip_coef) ratio).
  { eapply Forall_impl; [exact Hin|]. cbv beta. intros r Hr.
    apply Qabs_Qle_condition in Hr. lra. }
  split; [exact Hband|].
  rewrite pg_loss_unfold. cbv zeta. fold ratio. unfold Metrics.surrogate.
  rewrite zip_with_max_zip.
  apply torch_mean_eqv.
  generalize (Metrics.mb_advantages sqrt norm_adv b_advantages mb_inds).
  intros adv. revert adv. clear Hne Hz Hin. clearbody ratio.
  induction Hband as [|r rs Hr _ IH]; intros [|a adv]; cbn; try constructor.
  - assert (Hc : clamp r (1 - clip_coef) (1 + clip_coef) == r).
    { apply clamp_inside. exact Hr. }
    rewrite Hc. apply Q.max_id.
  - apply IH.
Qed.

End PolicyBounds.

(** ** The value loss, bounded *)

Lemma sq_nonneg (x : Q) : 0 <= x ^ 2.
Proof.
  assert (E : x ^ 2 == square x) by (unfold square; ring).
  rewrite E. apply square_nonneg.
Qed.

(** The value loss is never negative, and clipping never lowers it: the
    clipped loss is at least the plain 0.5 * mean squared error. *)
Theorem value_loss_clipping_never_lowers_the_loss
    (clip_coef : Q) (newvalue b_returns b_values : list Q) (mb_inds : list nat) :
  length newvalue = length mb_inds ->
  0 <= PPO.v_loss_plain newvalue b_returns mb_inds /\
  PPO.v_loss_plain newvalue b_returns mb_inds
  <= PPO.v_loss_clip clip_coef newvalue b_returns b_values mb_inds.
Proof.
  intros Hl. unfold PPO.v_loss_plain, PPO.v_loss_clip. split.
  - apply Qmult_le_0_compat; [vm_compute; discriminate|].
    apply torch_mean_nonneg.
    generalize (gather b_returns mb_inds). intros rs. revert rs. clear Hl.
    induction newvalue as [|v vs IH]; intros [|r rs]; cbn [zip_with];
      constructor; [apply sq_nonneg | apply IH].
  - rewrite !(Qmult_comm 0.5).
    apply Qmult_le_compat_r; [|vm_compute; discriminate].
    apply torch_mean_le.
    set (u := zip_with (fun v r => (v - r) ^ 2) newvalue (gather b_returns mb_inds)).
    set (c := zip_with (fun v r => (v - r) ^ 2) _ (gather b_returns mb_inds)).
    assert (Lu : length u = length mb_inds).
    { subst u. rewrite length_zip_with, length_gather. lia. }
    assert (Lc : length c = length mb_inds).
    { subst c. rewrite !length_zip_with, length_map, !length_zip_with, !length_gather.
      lia. }
    clearbody u c. revert c Lc Lu. generalize (length mb_inds). intros m.
    revert m. induction u as [|x u IH]; intros m [|y c] Lc Lu;
      cbn [length zip_with] in *; try constructor; try lia.
    + apply Q.le_max_l.
    + destruct m as [|m]; [lia|]. apply (IH m); lia.
Qed.

(** ** The curiosity reward and the predictor loss *)

Lemma qsum_squares_zero (l : list Q) :
  qsum (map (fun d => d ^ 2) l) == 0 <-> Forall (fun d => d == 0) l.
Proof.
  induction l as [|d l IH]; cbn [map qsum].
  - split; [constructor | reflexivity].
  - assert (Hd : 0 <= d ^ 2) by apply sq_nonneg.
    assert (Hs : 0 <= qsum (map (fun d => d ^ 2) l)).
    { apply qsum_nonneg. apply Forall_forall. intros x Hx.
      apply list_elem_of_In, in_map_iff in Hx. destruct Hx as (y & <- & _).
      apply sq_nonneg. }
    split.
    + intros H. assert (Hd0 : d ^ 2 == 0) by lra.
      constructor.
      * destruct (Qeq_dec d 0) as [E|E]; [exact E|]. exfalso.
        assert (P : 0 < d * d).
        { destruct (Qlt_le_dec 0 d) as [G|G].
          - apply Qmult_lt_0_compat; exact G.
          - assert (G' : 0 < - d) by lra.
            assert (E2 : d * d == (- d) * (- d)) by ring.
            rewrite E2. apply Qmult_lt_0_compat; exact G'. }
        assert (E3 : d ^ 2 == d * d) by ring. lra.
      * apply IH. lra.
    + intros H. inversion H as [|? ? H0 Hl]; subst.
      apply IH in Hl. rewrite Hl, H0. ring.
Qed.

(** The curiosity reward of an environment is half the squared distance
    between the target's and the predictor's features: it is never
    negative, and for feature rows of one length it is 0 exactly when
    the predictor reproduces the target. *)
Theorem curiosity_reward_is_zero_only_on_exact_prediction
    (target predict : list (list Q)) (i : nat) (t p : list Q) :
  target !! i = Some t -> predict !! i = Some p ->
  0 <= nth i (Curiosity.curiosity_rewards target predict) 0 /\
  (length t = length p ->
   (nth i (Curiosity.curiosity_rewards target predict) 0 == 0
    <-> Forall2 Qeq t p)).
Proof.
  intros Ht Hp.
  assert (E : nth i (Curiosity.curiosity_rewards target predict) 0
              = qsum (map (fun d => d ^ 2) (zip_with Qminus t p)) / 2).
  { apply nth_lookup_Some with (d := 0).
    unfold Curiosity.curiosity_rewards.
    rewrite lookup_zip_with, Ht. cbn. rewrite Hp. reflexivity. }
  rewrite E. clear E Ht Hp.
  assert (Hs : 0 <= qsum (map (fun d => d ^ 2) (zip_with Qminus t p))).
  { apply qsum_nonneg. apply Forall_forall. intros x Hx.
    apply list_elem_of_In, in_map_iff in Hx. destruct Hx as (y & <- & _).
    apply sq_nonneg. }
  split.
  - apply Qle_shift_div_l; lra.
  - intros Hl.
    assert (Hz : qsum (map (fun d => d ^ 2) (zip_with Qminus t p)) / 2 == 0
                 <-> qsum (map (fun d => d ^ 2) (zip_with Qminus t p)) == 0).
    { split; intros H.
      - assert (K : forall x, x == x / 2 * 2) by (intros; field).
        rewrite (K (qsum _)), H. ring.
      - rewrite H. field. }
    rewrite Hz, qsum_squares_zero. clear Hz Hs.
    revert p Hl. induction t as [|a t IH]; intros [|b p] Hl; cbn in Hl; try lia.
    + split; constructor.
    + cbn [zip_with]. split; intros H; inversion H; subst; constructor.
      * lra.
      * apply IH; [lia | assumption].
      * lra.
      * apply IH; [lia | assumption].
Qed.

(** Whatever the running mean and variance are, also a variance whose
    square root is 0, every feature of a normalized observation lies in
    [-5, 5], and a feature within 5 standard deviations of its mean is
    passed on unclipped. *)
Lemma normalized_observations_stay_within_five
    (sqrt : Q -> Q) (mean var obs : list Q) (i : nat) :
  (i < length obs)%nat -> (i < length mean)%nat -> (i < length var)%nat ->
  let z := (nth i obs 0 - nth i mean 0) / sqrt (nth i var 0) in
  let out := nth i (Curiosity.normalize_obs sqrt mean var obs) 0 in
  -5 <= out <= 5 /\ (-5 <= z <= 5 -> out == z).
Proof.
  intros Ho Hm Hv z out.
  assert (E : out = clamp z (-5) 5).
  { subst out z. unfold Curiosity.normalize_obs.
    rewrite nth_map_lt by (rewrite !length_zip_with; lia).
    rewrite nth_zip_with_lt by (rewrite ?length_zip_with; lia).
    rewrite nth_zip_with_lt by lia. reflexivity. }
  rewrite E. split.
  - apply clamp_bounds. lra.
  - apply clamp_inside.
Qed.

Lemma sample_mask_all (rand : nat -> Q) (p : Q) (n : nat) :
  (forall i, (i < n)%nat -> rand i < p) ->
  RND.sample_mask rand p n = map (fun _ => 1) (seq 0 n).
Proof.
  intros H. unfold RND.sample_mask. apply map_ext_in. intros i Hi.
  apply in_seq in Hi.
  destruct (Qlt_le_dec (rand i) p) as [_|C]; [reflexivity|].
  specialize (H i ltac:(lia)). lra.
Qed.

Lemma qsum_mul_ones {A : Type} (x : list Q) (l : list A) :
  length l = length x ->
  qsum (zip_with Qmult x (map (fun _ => 1) l)) == qsum x.
Proof.
  revert l. induction x as [|a x IH]; intros [|b l] Hl; cbn in *;
    try reflexivity; try lia.
  rewrite IH by lia. ring.
Qed.

Lemma qsum_ones {A : Type} (l : list A) :
  qsum (map (fun _ => 1) l) == inject_Z (Z.of_nat (length l)).
Proof.
  induction l as [|x l IH]; [reflexivity|].
  cbn [map qsum length]. rewrite inject_Z_S, IH. ring.
Qed.

Lemma mse_per_sample_nonneg (predict target : list (list Q)) :
  Forall (fun x => 0 <= x) (RND.mse_per_sample predict target).
Proof.
  unfold RND.mse_per_sample. revert target.
  induction predict as [|p predict IH]; intros [|t target]; cbn [zip_with];
    constructor; [|apply IH].
  apply torch_mean_nonneg. clear. revert t.
  induction p as [|a p IH]; intros [|b t]; cbn [zip_with]; constructor;
    [apply sq_nonneg | apply IH].
Qed.

(** Whatever the random mask draws, the predictor loss is never
    negative. *)
Lemma forward_loss_is_nonnegative
    (predict target : list (list Q)) (rand : nat -> Q) (update_proportion : Q) :
  0 <= RND.forward_loss predict target rand update_proportion.
Proof.
  unfold RND.forward_loss. cbv zeta.
  apply Qle_shift_div_l.
  - unfold RND.divisor.
    pose proof (Q.le_max_r (qsum (RND.sample_mask rand update_proportion
                  (length (RND.mse_per_sample predict target)))) 1). lra.
  - rewrite Qmult_0_l. apply qsum_nonneg.
    pose proof (mse_per_sample_nonneg predict target) as H.
    unfold RND.sample_mask.
    generalize (seq 0 (length (RND.mse_per_sample predict target))).
    induction H as [|x l Hx _ IH]; intros [|i s]; cbn [map zip_with];
      constructor; [|apply IH].
    destruct (Qlt_le_dec (rand i) update_proportion).
    + lra.
    + lra.
Qed.

(** When every draw of the mask is below [update_proportion] (as with
    a proportion above 1) and the minibatch is not empty, the predictor
    loss is the plain mean of the per-sample losses. *)
Theorem forward_loss_is_plain_mean_when_all_selected
    (predict target : list (list Q)) (rand : nat -> Q) (update_proportion : Q) :
  let per_sample := RND.mse_per_sample predict target in
  per_sample <> [] ->
  (forall i, (i < length per_sample)%nat -> rand i < update_proportion) ->
  RND.forward_loss predict target rand update_proportion
  == torch_mean per_sample.
Proof.
  intros per_sample Hne Hall.
  unfold RND.forward_loss. cbv zeta. fold per_sample.
  rewrite (sample_mask_all _ _ _ Hall).
  unfold RND.divisor, torch_mean.
  rewrite qsum_mul_ones by (rewrite length_seq; reflexivity).
  rewrite qsum_ones, length_seq.
  change (inject_Z (Z.of_nat (length per_sample))) with (qlen per_sample).
  assert (H1 : 1 <= qlen per_sample).
  { destruct per_sample as [|x l]; [contradiction|].
    unfold qlen. cbn [length]. rewrite inject_Z_S.
    pose proof (qlen_nonneg l) as P. unfold qlen in P. lra. }
  rewrite (Q.max_l _ _ H1). reflexivity.
Qed.

(** ** Minibatches of an epoch *)

Lemma concat_slices {A : Type} (l : list A) (m n : nat) :
  concat (map (fun start => Loops.py_slice l start (start + m))
              (map (fun k => (k * m)%nat) (seq 0 n)))
  = take (n * m) l.
Proof.
  induction n as [|n IH].
  - reflexivity.
  - rewrite seq_S, !map_app, concat_app, IH. cbn [map concat plus].
    rewrite app_nil_r. unfold Loops.py_slice.
    replace (n * m + m - n * m)%nat with m by lia.
    replace (S n * m)%nat with (n * m + m)%nat by lia.
    apply take_take_drop.
Qed.

Lemma ceil_div_bounds (b m : nat) :
  (0 < m)%nat ->
  let n := ((b + m - 1) / m)%nat in
  (b <= n * m)%nat /\ (n * m < b + m)%nat.
Proof.
  intros Hm n.
  pose proof (Nat.div_mod_eq (b + m - 1) m) as E.
  pose proof (Nat.mod_upper_bound (b + m - 1) m ltac:(lia)) as U.
  fold n in E. split; nia.
Qed.

(** With a positive minibatch size the loop over [start] cuts the
    shuffled indices into consecutive minibatches that together are
    [b_inds] again, each index used exactly once per epoch: all but the
    last minibatch have [minibatch_size] entries, and the last one has
    between 1 and [minibatch_size]. *)
Theorem minibatches_cover_the_batch_once
    (b_inds : list nat) (batch_size minibatch_size : nat) :
  length b_inds = batch_size -> (0 < minibatch_size)%nat ->
  exists mbs,
    Loops.minibatches b_inds batch_size minibatch_size = Some mbs /\
    concat mbs = b_inds /\
    length mbs = ((batch_size + minibatch_size - 1) / minibatch_size)%nat /\
    forall k mb, mbs !! k = Some mb ->
      (0 < length mb <= minibatch_size)%nat /\
      ((S k < length mbs)%nat -> length mb = minibatch_size).
Proof.
  intros Hl Hm.
  unfold Loops.minibatches, Loops.py_range.
  destruct (Nat.eqb_spec minibatch_size 0) as [C|_]; [lia|].
  cbn [fmap option_fmap option_map].
  pose proof (ceil_div_bounds batch_size minibatch_size Hm) as [B1 B2].
  set (n := ((batch_size + minibatch_size - 1) / minibatch_size)%nat) in *.
  eexists. split; [reflexivity|]. split; [|split].
  - rewrite (concat_slices b_inds minibatch_size n).
    apply take_ge. lia.
  - rewrite !length_map, length_seq. reflexivity.
  - intros k mb Hk. rewrite !length_map, length_seq.
    rewrite !list_lookup_fmap in Hk.
    destruct (seq 0 n !! k) as [j|] eqn:Hj; [|discriminate].
    apply lookup_seq in Hj. destruct Hj as [-> Hj]. cbn in Hk.
    injection Hk as <-. unfold Loops.py_slice.
    rewrite length_take, length_drop. nia.
Qed.

Lemma minibatches_length (b_inds : list nat) (batch_size minibatch_size : nat) :
  (0 < minibatch_size)%nat ->
  exists mbs,
    Loops.minibatches b_inds batch_size minibatch_size = Some mbs /\
    length mbs = ((batch_size + minibatch_size - 1) / minibatch_size)%nat.
Proof.
  intros Hm. unfold Loops.minibatches, Loops.py_range.
  destruct (Nat.eqb_spec minibatch_size 0) as [C|_]; [lia|].
  eexists. split; [reflexivity|].
  rewrite !length_map, length_seq. reflexivity.
Qed.

(** The minibatch size [parse_args] derives decides how the epoch
    runs: with more minibatches requested than there are samples the
    size is 0 and the loop over [range] raises; with a batch that
    [num_minibatches] divides exactly [num_minibatches] minibatches are
    run; with any other batch more than [num_minibatches] are run. *)
Theorem minibatch_count_follows_the_floor_size
    (c : Config.Cli) (a : Config.Args) (b_inds : list nat) :
  Config.parse_args c = Ok a ->
  length b_inds = Z.to_nat (Config.batch_size a) ->
  let run := Loops.minibatches b_inds (Z.to_nat (Config.batch_size a))
                               (Z.to_nat (Config.minibatch_size a)) in
  let nm := Config.num_minibatches c in
  let batch := Config.batch_size a in
  ((0 <= batch < nm)%Z -> run = None) /\
  ((0 < nm <= batch)%Z ->
   exists mbs, run = Some mbs /\
     ((batch mod nm = 0)%Z -> Z.of_nat (length mbs) = nm) /\
     ((batch mod nm <> 0)%Z -> (nm < Z.of_nat (length mbs))%Z)).
Proof.
  intros Hp Hl run nm batch.
  unfold Config.parse_args, floordiv in Hp.
  destruct (Z.eqb_spec (Config.num_minibatches c) 0) as [C|C];
    [discriminate|].
  cbn in Hp. injection Hp as <-. cbn [Config.batch_size Config.minibatch_size] in *.
  set (b := (Config.num_envs c * Config.num_steps c)%Z) in *.
  subst batch run. cbn [Config.cli] in *.
  change (Config.num_minibatches c) with nm. split.
  - intros Hb. rewrite (Z.div_small b nm Hb). reflexivity.
  - intros Hb.
    pose proof (Z.div_mod b nm C) as E.
    pose proof (Z.mod_pos_bound b nm ltac:(lia)) as U.
    assert (Hq : (0 < b / nm)%Z).
    { apply Z.div_str_pos. lia. }
    destruct (minibatches_length b_inds (Z.to_nat b)
                (Z.to_nat (b / nm)) ltac:(lia)) as (mbs & -> & Hn).
    exists mbs. split; [reflexivity|].
    pose proof (ceil_div_bounds (Z.to_nat b) (Z.to_nat (b / nm)) ltac:(lia))
      as [B1 B2].
    rewrite <- Hn in B1, B2.
    split; intros Hmod; nia.
Qed.

(** ** Learning-rate annealing *)

(** Over the updates 1 .. num_updates the annealed rate starts at
    [learning_rate], drops by [learning_rate / num_updates] with every
    update and never reaches 0: at the last update it is
    [learning_rate / num_updates]. *)
Theorem annealed_rate_decays_linearly_and_stays_positive
    (learning_rate : Q) (num_updates update : Z) :
  0 < learning_rate -> (1 <= update <= num_updates)%Z ->
  Loops.lrnow learning_rate num_updates 1 == learning_rate /\
  Loops.lrnow learning_rate num_updates (update + 1)
  == Loops.lrnow learning_rate num_updates update
     - learning_rate / inject_Z num_updates /\
  Loops.lrnow learning_rate num_updates num_updates
  == learning_rate / inject_Z num_updates /\
  learning_rate / inject_Z num_updates
  <= Loops.lrnow learning_rate num_updates update <= learning_rate.
Proof.
  intros Hlr [H1 H2]. unfold Loops.lrnow. cbv zeta.
  assert (Hn : 0 < inject_Z num_updates).
  { change 0 with (inject_Z 0). rewrite <- Zlt_Qlt. lia. }
  assert (Hu1 : 1 <= inject_Z update).
  { change 1 with (inject_Z 1). rewrite <- Zle_Qle. lia. }
  assert (Hu2 : inject_Z update <= inject_Z num_updates).
  { rewrite <- Zle_Qle. lia. }
  rewrite inject_Z_plus. change (inject_Z 1) with 1.
  set (n := inject_Z num_updates) in *. set (u := inject_Z update) in *.
  split; [|split; [|split; [|split]]].
  - field. lra.
  - field. lra.
  - field. lra.
  - assert (E : (1 - (u - 1) / n) * learning_rate - learning_rate / n
                == (n - u) * (learning_rate / n)) by (field; lra).
    assert (P : 0 <= (n - u) * (learning_rate / n)).
    { apply Qmult_le_0_compat; [lra|]. apply Qle_shift_div_l; lra. }
    lra.
  - assert (E : learning_rate - (1 - (u - 1) / n) * learning_rate
                == (u - 1) * (learning_rate / n)) by (field; lra).
    assert (P : 0 <= (u - 1) * (learning_rate / n)).
    { apply Qmult_le_0_compat; [lra|]. apply Qle_shift_div_l; lra. }
    lra.
Qed.

(** ** Warm-up of the observation statistic *)

Lemma warmup_collect (T : nat) (obs : nat -> list Q) (a m : nat)
    (r : RunningMeanStd.t) (pending : list (list Q)) :
  (0 < T)%nat -> (m < T)%nat ->
  fold_left (Loops.warmup_body T obs) (seq (a * T + 1) m) (r, pending)
  = (r, pending ++ map obs (seq (a * T + 1) m)).
Proof.
  intros HT. induction m as [|m IH]; intros Hm.
  - cbn. rewrite app_nil_r. reflexivity.
  - rewrite seq_S, fold_left_app, IH by lia. cbn [fold_left Loops.warmup_body].
    replace ((a * T + 1 + m) mod T)%nat with (S m).
    + cbn [Nat.eqb]. rewrite map_app, app_assoc. reflexivity.
    + apply Nat.mod_unique with (q := a); lia.
Qed.

Lemma warmup_block (T : nat) (obs : nat -> list Q) (k : nat)
    (r : RunningMeanStd.t) (pending : list (list Q)) :
  (0 < T)%nat ->
  fold_left (Loops.warmup_body T obs) (seq (k * T) T) (r, pending)
  = (RunningMeanStd.update r (concat (pending ++ [obs (k * T)%nat])),
     map obs (seq (k * T + 1) (T - 1))).
Proof.
  intros HT. destruct T as [|T]; [lia|].
  cbn [seq fold_left Loops.warmup_body].
  replace ((k * S T) mod S T)%nat with 0%nat
    by (apply Nat.mod_unique with (q := k); lia).
  cbn [Nat.eqb].
  replace (S (k * S T)) with (k * S T + 1)%nat by lia.
  rewrite warmup_collect by lia.
  replace (S T - 1)%nat with T by lia. reflexivity.
Qed.

Lemma warmup_unfold
    (num_steps K : nat) (next_obs_at : nat -> list Q) (obs_rms : RunningMeanStd.t) :
  (0 < num_steps)%nat ->
  Loops.warmup num_steps (S K) next_obs_at obs_rms
  = (fold_left
       (fun r k =>
          RunningMeanStd.update r
            (concat (map next_obs_at (seq (k * num_steps + 1) num_steps))))
       (seq 0 K)
       (RunningMeanStd.update obs_rms (next_obs_at 0%nat)),
     map next_obs_at (seq (K * num_steps + 1) (num_steps - 1))).
Proof.
  intros HT. unfold Loops.warmup.
  induction K as [|K IH].
  - rewrite Nat.mul_1_r.
    change (seq 0 num_steps) with (seq (0 * num_steps) num_steps).
    rewrite (warmup_block num_steps next_obs_at 0 obs_rms [] HT).
    cbn [app concat fold_left seq Nat.mul Nat.add]. rewrite app_nil_r.
    reflexivity.
  - replace (num_steps * S (S K))%nat with (num_steps * S K + num_steps)%nat by lia.
    rewrite seq_app, fold_left_app, IH. cbn [Nat.add].
    replace (num_steps * S K)%nat with (S K * num_steps)%nat by lia.
    rewrite warmup_block by exact HT.
    rewrite (seq_S K 0), fold_left_app. cbn [fold_left Nat.add].
    f_equal. f_equal. f_equal.
    rewrite <- map_app with (l' := [(S K * num_steps)%nat]).
    f_equal.
    replace (S K * num_steps)%nat
      with (K * num_steps + 1 + (num_steps - 1))%nat by lia.
    rewrite <- seq_S. f_equal. lia.
Qed.

Lemma count_fold_update (f : nat -> list Q) (ks : list nat) (r : RunningMeanStd.t) :
  RunningMeanStd.count
    (fold_left (fun r k => RunningMeanStd.update r (f k)) ks r)
  == RunningMeanStd.count r + qsum (map (fun k => qlen (f k)) ks).
Proof.
  revert r. induction ks as [|k ks IH]; intros r; cbn [fold_left map qsum].
  - ring.
  - rewrite IH. unfold RunningMeanStd.update.
    rewrite count_update_from_moments. ring.
Qed.

Lemma length_concat_rows (num_envs : nat) (f : nat -> list Q) (ks : list nat) :
  (forall k, length (f k) = num_envs) ->
  length (concat (map f ks)) = (num_envs * length ks)%nat.
Proof.
  intros H. induction ks as [|k ks IH]; cbn [map concat length]; [lia|].
  rewrite length_app, IH, H. lia.
Qed.

Lemma qsum_const {A : Type} (c : Q) (f : A -> Q) (l : list A) :
  (forall x, f x == c) ->
  qsum (map f l) == inject_Z (Z.of_nat (length l)) * c.
Proof.
  intros H. induction l as [|x l IH]; cbn [map qsum length].
  - ring.
  - rewrite inject_Z_S, IH, H. ring.
Qed.

(** The warm-up loop tests [step % num_steps == 0] after appending, so
    its first batch is the observation of step 0 alone; every later
    batch is the [num_steps] observations that end at a multiple of
    [num_steps]; and the [num_steps - 1] observations collected after
    the last such multiple are left in [next_ob], never passed to the
    statistic.  With [num_envs] observations per step the statistic so
    counts [num_envs * ((iterations - 1) * num_steps + 1)] of the
    [num_envs * iterations * num_steps] observations taken. *)
Theorem warmup_batches_end_at_multiples_of_num_steps
    (num_steps K num_envs : nat) (next_obs_at : nat -> list Q)
    (obs_rms : RunningMeanStd.t) :
  (0 < num_steps)%nat ->
  let final := Loops.warmup num_steps (S K) next_obs_at obs_rms in
  final
  = (fold_left
       (fun r k =>
          RunningMeanStd.update r
            (concat (map next_obs_at (seq (k * num_steps + 1) num_steps))))
       (seq 0 K)
       (RunningMeanStd.update obs_rms (next_obs_at 0%nat)),
     map next_obs_at (seq (K * num_steps + 1) (num_steps - 1))) /\
  ((forall step, length (next_obs_at step) = num_envs) ->
   RunningMeanStd.count (fst final)
   == RunningMeanStd.count obs_rms
      + inject_Z (Z.of_nat (num_envs * (K * num_steps + 1)))).
Proof.
  intros HT final. subst final. rewrite (warmup_unfold _ _ _ _ HT).
  split; [reflexivity|]. intros Hlen. cbn [fst].
  rewrite (count_fold_update
             (fun k => concat (map next_obs_at (seq (k * num_steps + 1) num_steps)))).
  rewrite (qsum_const (inject_Z (Z.of_nat (num_envs * num_steps)))).
  - unfold RunningMeanStd.update. rewrite count_update_from_moments.
    unfold qlen. rewrite Hlen, length_seq.
    rewrite <- inject_Z_mult, <- Qplus_assoc, <- inject_Z_plus.
    apply Qplus_comp; [reflexivity|].
    apply inject_Z_injective. lia.
  - intros k. unfold qlen.
    rewrite (length_concat_rows num_envs next_obs_at _ Hlen), length_seq.
    reflexivity.
Qed.

(** ** Latents of random latent exploration *)

Lemma nth_zip_with_gen {A B C : Type} (f : A -> B -> C) (a : list A) (b : list B)
    (n : nat) (da : A) (db : B) (dc : C) :
  (n < length a)%nat -> (n < length b)%nat ->
  nth n (zip_with f a b) dc = f (nth n a da) (nth n b db).
Proof.
  revert b n. induction a as [|x a IH]; intros [|y b] n Ha Hb; cbn in *; try lia.
  destruct n; [reflexivity|]. apply IH; lia.
Qed.

Lemma assign_rows_spec {A : Type} (d : A) (mask : list bool) (old new : list A) :
  length mask = length old -> length new = RLE.count_true mask ->
  exists r,
    RLE.assign_rows mask old new = Some r /\
    length r = length old /\
    forall n, (n < length old)%nat ->
      nth n r d
      = if nth n mask false
        then nth (RLE.count_true (take n mask)) new d
        else nth n old d.
Proof.
  revert old new. induction mask as [|m mask IH]; intros old new Hl Hn.
  - destruct old; [|discriminate]. destruct new; [|discriminate].
    exists []. split; [reflexivity|]. split; [reflexivity|].
    intros n Hlt. cbn in Hlt. lia.
  - destruct old as [|o old]; [discriminate|]. cbn [length] in Hl.
    destruct m.
    + destruct new as [|x new]; [discriminate|].
      unfold RLE.count_true in Hn. cbn in Hn.
      destruct (IH old new ltac:(lia) ltac:(unfold RLE.count_true; lia))
        as (r & E & Lr & Hr).
      exists (x :: r). cbn [RLE.assign_rows]. rewrite E.
      split; [reflexivity|]. split; [cbn; lia|].
      intros [|n] Hlt; [reflexivity|]. cbn [nth take].
      rewrite (Hr n) by (cbn in Hlt; lia).
      destruct (nth n mask false); reflexivity.
    + unfold RLE.count_true in Hn. cbn in Hn.
      destruct (IH old new ltac:(lia) ltac:(unfold RLE.count_true; lia))
        as (r & E & Lr & Hr).
      exists (o :: r). cbn [RLE.assign_rows]. rewrite E.
      split; [reflexivity|]. split; [cbn; lia|].
      intros [|n] Hlt; [reflexivity|]. cbn [nth take].
      rewrite (Hr n) by (cbn in Hlt; lia).
      destruct (nth n mask false); reflexivity.
Qed.

Lemma count_true_nth (mask : list bool) (n : nat) :
  nth n mask false = true -> (1 <= RLE.count_true mask)%nat.
Proof.
  revert n. induction mask as [|b mask IH]; intros n H.
  - destruct n; discriminate H.
  - unfold RLE.count_true. destruct n as [|n].
    + cbn in H. subst b. cbn. lia.
    + cbn [nth] in H. specialize (IH n H). unfold RLE.count_true in IH.
      destruct b; cbn; lia.
Qed.

Lemma count_true_before_the_only_one (mask : list bool) (n : nat) :
  RLE.count_true mask = 1%nat -> nth n mask false = true ->
  RLE.count_true (take n mask) = 0%nat.
Proof.
  revert n. induction mask as [|b mask IH]; intros n H1 Hn.
  - destruct n; discriminate Hn.
  - destruct n as [|n]; [reflexivity|].
    cbn [nth] in Hn. pose proof (count_true_nth mask n Hn) as P.
    unfold RLE.count_true in *. destruct b; cbn in H1.
    + lia.
    + cbn [take List.filter length]. apply IH; [exact H1 | exact Hn].
Qed.

Lemma masked_assign_spec {A : Type} (d : A) (mask : list bool) (old new : list A) :
  length mask = length old -> length new = RLE.count_true mask ->
  exists r,
    RLE.masked_assign mask old new = Some r /\
    length r = length old /\
    forall n, (n < length old)%nat ->
      nth n r d
      = if nth n mask false
        then nth (RLE.count_true (take n mask)) new d
        else nth n old d.
Proof.
  intros Hl Hn.
  destruct new as [|x [|y new]].
  - apply assign_rows_spec; assumption.
  - unfold RLE.masked_assign. rewrite Hl, Nat.eqb_refl.
    eexists. split; [reflexivity|].
    split; [rewrite length_zip_with; lia|].
    intros n Hlt.
    rewrite (nth_zip_with_gen _ mask old n false d d) by lia.
    destruct (nth n mask false) eqn:Em; [|reflexivity].
    cbn [length] in Hn.
    rewrite (count_true_before_the_only_one mask n (eq_sym Hn) Em).
    reflexivity.
  - apply assign_rows_spec; assumption.
Qed.

Lemma existsb_id_false (mask : list bool) :
  existsb (fun b : bool => b) mask = false ->
  forall n, nth n mask false = false.
Proof.
  induction mask as [|m mask IH]; intros H n.
  - destruct n; reflexivity.
  - cbn in H. apply orb_false_iff in H. destruct H as [-> H].
    destruct n; [reflexivity|]. apply IH. exact H.
Qed.

Lemma nth_map_gen {A B : Type} (f : A -> B) (a : list A) (n : nat) (da : A) (db : B) :
  (n < length a)%nat -> nth n (map f a) db = f (nth n a da).
Proof.
  revert n. induction a as [|x a IH]; intros n Ha; cbn in *; [lia|].
  destruct n; [reflexivity|]. apply IH; lia.
Qed.

(** One pass of the latent bookkeeping over [N] environments never
    fails.  An environment whose episode did not end and whose counter,
    once incremented, is still below [z_reset_frequency] keeps its
    latent and its incremented counter; every other environment gets
    counter 0 and the next unused row of the fresh draw, in environment
    order.  With a positive frequency every counter ends below it. *)
Theorem latents_change_only_on_done_or_timeout
    (z_reset_frequency : Q) (sample_z : nat -> list (list Q))
    (next_done : list bool) (latent_vectors : list (list Q))
    (steps_since_z_reset : list Q) (N : nat) :
  length next_done = N -> length latent_vectors = N ->
  length steps_since_z_reset = N ->
  (forall k, length (sample_z k) = k) ->
  let due n :=
    (if Qlt_le_dec (nth n steps_since_z_reset 0 + 1) z_reset_frequency
     then false else true) || nth n next_done false in
  exists latents' steps',
    RLE.resample z_reset_frequency sample_z next_done latent_vectors
                 steps_since_z_reset = Some (latents', steps') /\
    length latents' = N /\ length steps' = N /\
    forall n, (n < N)%nat ->
      (due n = false ->
       nth n latents' [] = nth n latent_vectors [] /\
       nth n steps' 0 = nth n steps_since_z_reset 0 + 1) /\
      (due n = true ->
       nth n latents' []
       = nth (RLE.count_true (map due (seq 0 n)))
             (sample_z (RLE.count_true (map due (seq 0 N)))) [] /\
       nth n steps' 0 = 0) /\
      (0 < z_reset_frequency -> nth n steps' 0 < z_reset_frequency).
Proof.
  intros Ld Ll Ls Hz due.
  unfold RLE.resample. cbv zeta.
  set (steps := map (fun s => s + 1) steps_since_z_reset).
  set (reset_z := zip_with orb _ next_done).
  assert (Lsteps : length steps = N) by (subst steps; rewrite length_map; exact Ls).
  assert (Lr : length reset_z = N).
  { subst reset_z. rewrite length_zip_with, length_map. lia. }
  assert (Hdue : forall n, (n < N)%nat -> nth n reset_z false = due n).
  { intros n Hn. subst reset_z due. cbv beta.
    rewrite (nth_zip_with_gen orb _ _ n false false false)
      by (rewrite ?length_map; lia).
    rewrite (nth_map_gen _ steps n 0 false) by lia.
    subst steps. rewrite (nth_map_gen _ steps_since_z_reset n 0 0) by lia.
    reflexivity. }
  assert (Hmask : forall n, (n <= N)%nat -> take n reset_z = map due (seq 0 n)).
  { intros n Hn. apply nth_ext with (d := false) (d' := false).
    - rewrite length_take, length_map, length_seq. lia.
    - intros i Hi. rewrite length_take in Hi.
      rewrite (nth_map_gen due (seq 0 n) i 0%nat false) by (rewrite length_seq; lia).
      rewrite seq_nth by lia. cbn [Nat.add].
      rewrite <- Hdue by lia.
      rewrite !nth_lookup, lookup_take_lt by lia. reflexivity. }
  assert (Hall : reset_z = map due (seq 0 N)).
  { rewrite <- (Hmask N) by lia. symmetry. apply take_ge. lia. }
  assert (Hstep : forall n, (n < N)%nat ->
            nth n steps 0 = nth n steps_since_z_reset 0 + 1).
  { intros n Hn. subst steps.
    apply (nth_map_gen (fun s => s + 1) steps_since_z_reset n 0 0). lia. }
  assert (Hlow : forall n, (n < N)%nat -> due n = false ->
            nth n steps_since_z_reset 0 + 1 < z_reset_frequency).
  { intros n Hn Hd. subst due. cbv beta in Hd.
    destruct (Qlt_le_dec (nth n steps_since_z_reset 0 + 1) z_reset_frequency)
      as [G|G]; [exact G | discriminate]. }
  destruct (existsb (fun b : bool => b) reset_z) eqn:Hany.
  - destruct (masked_assign_spec [] reset_z latent_vectors
                (sample_z (RLE.count_true reset_z)) ltac:(lia) (Hz _))
      as (r & E & Lr' & Hr).
    rewrite E. cbn [fmap option_fmap option_map].
    eexists _, _. split; [reflexivity|].
    split; [lia|]. split; [rewrite length_zip_with; lia|].
    intros n Hn.
    rewrite (nth_zip_with_gen _ reset_z steps n false 0 0) by lia.
    rewrite (Hr n) by lia. rewrite (Hdue n Hn), (Hstep n Hn).
    rewrite (Hmask n) by lia. rewrite <- Hall.
    split; [|split].
    + intros ->. split; reflexivity.
    + intros ->. split; reflexivity.
    + intros Hf. destruct (due n) eqn:Hd; [exact Hf|].
      apply Hlow; assumption.
  - pose proof (existsb_id_false reset_z Hany) as Hnone.
    eexists _, _. split; [reflexivity|].
    split; [exact Ll|]. split; [exact Lsteps|].
    intros n Hn. rewrite (Hstep n Hn).
    assert (Hd : due n = false) by (rewrite <- Hdue by lia; apply Hnone).
    split; [|split].
    + intros _. split; reflexivity.
    + intros C. rewrite Hd in C. discriminate.
    + intros _. apply Hlow; assumption.
Qed.

(** ** The feature network *)

(** For the networks as they are built, with at least one latent
    dimension, [update_from_policy_net] leaves the first layer's weight
    as it is, because the policy's first layer also takes the latent and
    so has another shape, but blends the first layer's bias and both
    parameters of the second layer; the policy's output layer is not
    looked at. *)
Theorem first_layer_weight_is_never_blended
    (tau : Q) (state_dims feature_size n_actions : nat)
    (W1 b1 W2 b2 V1 c1 V2 c2 V3 c3 : list Q) :
  (0 < feature_size)%nat ->
  RLE.update_from_policy_net tau
    [ RLE.linear state_dims 64 W1 b1; RLE.linear 64 64 W2 b2 ]
    [ RLE.linear (state_dims + feature_size) 64 V1 c1;
      RLE.linear 64 64 V2 c2;
      RLE.linear 64 n_actions V3 c3 ]
  = [ RLE.linear state_dims 64 W1 (RLE.mix tau c1 b1);
      RLE.linear 64 64 (RLE.mix tau V2 W2) (RLE.mix tau c2 b2) ].
Proof.
  intros HF. unfold RLE.update_from_policy_net, RLE.linear.
  cbn [length take RLE.zip_in_place].
  unfold RLE.blend. cbn [RLE.shape RLE.data].
  destruct (decide ([64%nat; state_dims] = [64%nat; (state_dims + feature_size)%nat]))
    as [C|_]; [injection C; lia|].
  repeat (destruct (decide _) as [_|C]; [|contradiction]).
  reflexivity.
Qed.

(** A blended parameter lies between the feature network's and the
    policy's value: the distance to the policy's entry shrinks by the
    factor [1 - tau]. *)
Lemma blend_moves_matching_parameters_toward_the_policy
    (tau : Q) (feat_param policy_param : RLE.param) (i : nat) :
  RLE.shape feat_param = RLE.shape policy_param ->
  (i < length (RLE.data feat_param))%nat ->
  (i < length (RLE.data policy_param))%nat ->
  RLE.shape (RLE.blend tau feat_param policy_param) = RLE.shape feat_param /\
  nth i (RLE.data (RLE.blend tau feat_param policy_param)) 0
  - nth i (RLE.data policy_param) 0
  == (1 - tau) * (nth i (RLE.data feat_param) 0 - nth i (RLE.data policy_param) 0).
Proof.
  intros Hs Hf Hp. unfold RLE.blend.
  destruct (decide (RLE.shape feat_param = RLE.shape policy_param)) as [_|C];
    [|contradiction].
  cbn [RLE.shape RLE.data]. split; [reflexivity|].
  unfold RLE.mix. rewrite nth_zip_with_lt by assumption. ring.
Qed.

(** Each sampled latent lies on the unit sphere, whenever the draw is
    not the zero vector and the square root is exact on its squared
    length. *)
Theorem sampled_latents_have_unit_length
    (sqrt : Q -> Q) (z : list (list Q)) (i : nat) (row : list Q) :
  z !! i = Some row ->
  let s := qsum (map (fun x => x ^ 2) row) in
  sqrt s * sqrt s == s -> ~ s == 0 ->
  qsum (map (fun x => x ^ 2) (nth i (RLE.sample_z sqrt z) [])) == 1.
Proof.
  intros Hrow s Hsq Hnz.
  assert (E : nth i (RLE.sample_z sqrt z) [] = map (fun x => x / RLE.norm sqrt row) row).
  { apply nth_lookup_Some with (d := []). unfold RLE.sample_z.
    change (map ?f z) with (f <$> z). rewrite list_lookup_fmap, Hrow. reflexivity. }
  rewrite E. unfold RLE.norm. fold s.
  assert (Hn : ~ sqrt s == 0).
  { intros C. apply Hnz. rewrite <- Hsq, C. ring. }
  rewrite map_map.
  assert (G : forall l,
            qsum (map (fun x => (x / sqrt s) ^ 2) l)
            == qsum (map (fun x => x ^ 2) l) * / s).
  { intros l. rewrite <- (qsum_scale (fun x => x ^ 2) (/ s) l).
    apply qsum_eqv.
    assert (E2 : / s == / (sqrt s * sqrt s)) by (rewrite Hsq; reflexivity).
    induction l as [|x l IH]; cbn [map]; constructor; [|exact IH].
    rewrite E2. field. exact Hn. }
  rewrite (G row). fold s. field. exact Hnz.
Qed.

(** ** The intrinsic reward of random latent exploration *)

Lemma cauchy_schwarz_step (a b A B C : Q) :
  0 <= A -> 0 <= B -> C * C <= A * B ->
  2 * (a * b) * C <= a * a * B + A * (b * b).
Proof.
  intros HA HB HC.
  set (x := 2 * (a * b) * C). set (y := a * a * B + A * (b * b)).
  assert (Hy : 0 <= y).
  { subst y. pose proof (Qmult_le_0_compat _ _ (square_nonneg a) HB) as P.
    pose proof (Qmult_le_0_compat _ _ HA (square_nonneg b)) as P'.
    unfold square in P, P'. lra. }
  destruct (Qlt_le_dec y x) as [G|G]; [exfalso | exact G].
  assert (P1 : 0 < (x - y) * (x + y)) by (apply Qmult_lt_0_compat; lra).
  pose proof (square_nonneg (a * a * B - A * (b * b))) as P2.
  assert (P3 : 0 <= (2 * (a * b)) * (2 * (a * b)) * (A * B - C * C)).
  { apply Qmult_le_0_compat; [apply (square_nonneg (2 * (a * b))) | lra]. }
  assert (E : (x - y) * (x + y)
              == - square (a * a * B - A * (b * b))
                 - (2 * (a * b)) * (2 * (a * b)) * (A * B - C * C))
    by (subst x y; unfold square; ring).
  lra.
Qed.

Lemma squares_sum_nonneg (l : list Q) : 0 <= qsum (map (fun x => x ^ 2) l).
Proof.
  apply qsum_nonneg. apply Forall_forall. intros x Hx.
  apply list_elem_of_In, in_map_iff in Hx. destruct Hx as (y & <- & _).
  apply sq_nonneg.
Qed.

Lemma cauchy_schwarz (a b : list Q) :
  qsum (zip_with Qmult a b) ^ 2
  <= qsum (map (fun x => x ^ 2) a) * qsum (map (fun x => x ^ 2) b).
Proof.
  revert b. induction a as [|x a IH]; intros [|y b]; cbn [zip_with map qsum].
  - lra.
  - lra.
  - pose proof (squares_sum_nonneg (x :: a)) as P. cbn [map qsum] in P.
    assert (E : (x ^ 2 + qsum (map (fun x => x ^ 2) a)) * 0 == 0) by ring.
    rewrite E. lra.
  - specialize (IH b).
    pose proof (squares_sum_nonneg a) as PA.
    pose proof (squares_sum_nonneg b) as PB.
    set (A := qsum (map (fun x => x ^ 2) a)) in *.
    set (B := qsum (map (fun x => x ^ 2) b)) in *.
    set (C := qsum (zip_with Qmult a b)) in *.
    assert (IH' : C * C <= A * B).
    { assert (E : C * C == C ^ 2) by ring. rewrite E. exact IH. }
    pose proof (cauchy_schwarz_step x y A B C PA PB IH') as S.
    assert (E1 : (x * y + C) ^ 2 == x * x * (y * y) + 2 * (x * y) * C + C * C)
      by ring.
    assert (E2 : (x ^ 2 + A) * (y ^ 2 + B)
                 == x * x * (y * y) + (x * x * B + A * (y * y)) + A * B) by ring.
    rewrite E1, E2. lra.
Qed.

(** With a latent on the unit sphere, the intrinsic reward of an
    environment, the dot product of its normalized features with its
    latent, is bounded in square by the squared length of the
    normalized features. *)
Theorem intrinsic_reward_is_bounded_by_the_feature_norm
    (feat_mean feat_std : list Q) (raw_features z : list (list Q))
    (i : nat) (f zr : list Q) :
  raw_features !! i = Some f -> z !! i = Some zr ->
  qsum (map (fun x => x ^ 2) zr) == 1 ->
  nth i (RLE.compute_reward feat_mean feat_std raw_features z) 0 ^ 2
  <= qsum (map (fun x => x ^ 2) (RLE.normalize_features feat_mean feat_std f)).
Proof.
  intros Hf Hz Hunit.
  assert (E : nth i (RLE.compute_reward feat_mean feat_std raw_features z) 0
              = qsum (zip_with Qmult
                        (RLE.normalize_features feat_mean feat_std f) zr)).
  { apply nth_lookup_Some with (d := 0). unfold RLE.compute_reward.
    rewrite lookup_zip_with, Hf. cbn. rewrite Hz. reflexivity. }
  rewrite E.
  pose proof (cauchy_schwarz (RLE.normalize_features feat_mean feat_std f) zr) as CS.
  rewrite Hunit in CS. lra.
Qed.

(** * Instances of the further properties *)

(** The board of [size=10], at its first hole. *)
Lemma wall_lines_are_open_only_at_holes_witness :
  let g := {| FourRoom.size := 11; FourRoom.x_wall_position := 5;
              FourRoom.y_wall_position := 5;
              FourRoom.hole_1_position := (5, 0)%Z;
              FourRoom.hole_2_position := (5, 10)%Z;
              FourRoom.hole_3_position := (0, 5)%Z;
              FourRoom.hole_4_position := (10, 5)%Z |} in
  (FourRoom.make 10 = FourRoom.Done g /\
   FourRoom.position_is_not_in_wall g (5, 0)%Z = true) /\
  ((5, 0)%Z = FourRoom.hole_1_position g \/ (5, 0)%Z = FourRoom.hole_2_position g).
Proof.
  intros g.
  assert (H1 : FourRoom.make 10 = FourRoom.Done g) by reflexivity.
  assert (H2 : FourRoom.position_is_not_in_wall g (5, 0)%Z = true) by reflexivity.
  split; [auto|].
  exact (proj1 (wall_lines_are_open_only_at_holes 10 g (5, 0)%Z H1 H2) eq_refl).
Defined.

(** A step to the right from the corner of the same board. *)
Lemma step_keeps_agent_on_free_board_cells_witness :
  let g := {| FourRoom.size := 11; FourRoom.x_wall_position := 5;
              FourRoom.y_wall_position := 5;
              FourRoom.hole_1_position := (5, 0)%Z;
              FourRoom.hole_2_position := (5, 10)%Z;
              FourRoom.hole_3_position := (0, 5)%Z;
              FourRoom.hole_4_position := (10, 5)%Z |} in
  let s := {| FourRoom.agent_location := (0, 0)%Z;
              FourRoom.target_location := (3, 3)%Z;
              FourRoom.start_location := (0, 0)%Z |} in
  (FourRoom.on_board g (FourRoom.agent_location s) /\
   FourRoom.position_is_not_in_wall g (FourRoom.agent_location s) = true) /\
  match FourRoom.step g s 0 with
  | FourRoom.Done r =>
      FourRoom.on_board g (FourRoom.agent_location (FourRoom.next_state r))
  | FourRoom.Fail _ => False
  end.
Proof.
  intros g s.
  assert (H1 : FourRoom.on_board g (FourRoom.agent_location s))
    by (unfold FourRoom.on_board; cbn; lia).
  assert (H2 : FourRoom.position_is_not_in_wall g (FourRoom.agent_location s) = true)
    by reflexivity.
  split; [auto|].
  pose proof (step_keeps_agent_on_free_board_cells g s 0 H1 H2) as H.
  destruct (FourRoom.step g s 0) as [r|e].
  - destruct H as (_ & H & _). exact H.
  - destruct H as [_ [C|C]]; lia.
Defined.

(** A step to the left at the left rim: the agent stays and is charged. *)
Lemma step_reward_is_one_exactly_on_target_witness :
  let g := {| FourRoom.size := 11; FourRoom.x_wall_position := 5;
              FourRoom.y_wall_position := 5;
              FourRoom.hole_1_position := (5, 0)%Z;
              FourRoom.hole_2_position := (5, 10)%Z;
              FourRoom.hole_3_position := (0, 5)%Z;
              FourRoom.hole_4_position := (10, 5)%Z |} in
  let s := {| FourRoom.agent_location := (0, 0)%Z;
              FourRoom.target_location := (3, 3)%Z;
              FourRoom.start_location := (0, 0)%Z |} in
  let r := {| FourRoom.next_state := s; FourRoom.reward := -1;
              FourRoom.terminated := false; FourRoom.truncated := false;
              FourRoom.info_distance := 6 |} in
  FourRoom.step g s 2 = FourRoom.Done r /\
  (FourRoom.reward r = 1%Z <-> FourRoom.terminated r = true).
Proof.
  intros g s r.
  assert (H1 : FourRoom.step g s 2 = FourRoom.Done r) by reflexivity.
  split; [exact H1|].
  exact (proj1 (proj2 (step_reward_is_one_exactly_on_target g s 2 r H1))).
Defined.

(** The same step, read from the cell ahead. *)
Lemma step_outcome_by_cell_ahead_witness :
  let g := {| FourRoom.size := 11; FourRoom.x_wall_position := 5;
              FourRoom.y_wall_position := 5;
              FourRoom.hole_1_position := (5, 0)%Z;
              FourRoom.hole_2_position := (5, 10)%Z;
              FourRoom.hole_3_position := (0, 5)%Z;
              FourRoom.hole_4_position := (10, 5)%Z |} in
  let s := {| FourRoom.agent_location := (0, 0)%Z;
              FourRoom.target_location := (3, 3)%Z;
              FourRoom.start_location := (0, 0)%Z |} in
  (FourRoom.on_board g (FourRoom.agent_location s) /\
   FourRoom.position_is_not_in_wall g (FourRoom.agent_location s) = true /\
   FourRoom.action_to_direction 2 = FourRoom.Done (-1, 0)%Z) /\
  exists r, FourRoom.step g s 2 = FourRoom.Done r /\ FourRoom.reward r = (-1)%Z.
Proof.
  intros g s.
  assert (H1 : FourRoom.on_board g (FourRoom.agent_location s))
    by (unfold FourRoom.on_board; cbn; lia).
  assert (H2 : FourRoom.position_is_not_in_wall g (FourRoom.agent_location s) = true)
    by reflexivity.
  assert (H3 : FourRoom.action_to_direction 2 = FourRoom.Done (-1, 0)%Z)
    by reflexivity.
  split; [auto|].
  destruct (step_outcome_by_cell_ahead g s 2 (-1, 0)%Z H1 H2 H3)
    as (r & E & Hblocked & _).
  exists r. split; [exact E|].
  destruct (Hblocked (or_introl eq_refl)) as [_ Hr]. exact Hr.
Defined.

(** The default statistic shown a batch of two and a batch of three. *)
Lemma statistic_keeps_positive_variance_and_counts_samples_witness :
  (0 < RunningMeanStd.count RunningMeanStd.default /\
   0 < RunningMeanStd.var RunningMeanStd.default /\
   Forall (fun x : list Q => (2 <= length x)%nat) [[1; 2]; [3; 4; 5]]) /\
  0 < RunningMeanStd.var (update_all RunningMeanStd.default [[1; 2]; [3; 4; 5]]).
Proof.
  assert (H1 : 0 < RunningMeanStd.count RunningMeanStd.default) by reflexivity.
  assert (H2 : 0 < RunningMeanStd.var RunningMeanStd.default) by reflexivity.
  assert (H3 : Forall (fun x : list Q => (2 <= length x)%nat) [[1; 2]; [3; 4; 5]])
    by (repeat constructor).
  split; [auto|].
  exact (proj1 (statistic_keeps_positive_variance_and_counts_samples
                  RunningMeanStd.default [[1; 2]; [3; 4; 5]] H1 H2 H3)).
Defined.

(** The default statistic merged with a batch of mean 1 and size 2. *)
Lemma merged_mean_is_weighted_average_witness :
  (0 < RunningMeanStd.count RunningMeanStd.default /\ 0 <= 2) /\
  RunningMeanStd.mean (RunningMeanStd.update_from_moments RunningMeanStd.default 1 0 2)
  <= Qmax (RunningMeanStd.mean RunningMeanStd.default) 1.
Proof.
  assert (H1 : 0 < RunningMeanStd.count RunningMeanStd.default) by reflexivity.
  assert (H2 : 0 <= 2) by discriminate.
  split; [auto|].
  exact (proj2 (proj2 (merged_mean_is_weighted_average
                         RunningMeanStd.default 1 0 2 H1 H2))).
Defined.

(** Samples 1, 2 and 3. *)
Lemma merge_is_exact_on_population_moments_witness :
  ([1; 2] <> [] /\ [3] <> []) /\
  RunningMeanStd.eqv
    (RunningMeanStd.absorb (moments_of [1; 2]) (moments_of [3]))
    (moments_of ([1; 2] ++ [3])).
Proof.
  assert (H1 : [1; 2] <> ([] : list Q)) by discriminate.
  assert (H2 : [3] <> ([] : list Q)) by discriminate.
  split; [auto|].
  exact (merge_is_exact_on_population_moments [1; 2] [3] H1 H2).
Defined.

(** A call on an ended episode: the accumulator keeps its 1.5. *)
Lemma masked_update_writes_only_not_done_slots_witness :
  let f := {| RewardForwardFilter.rewems := Some (Store.row 0 1 0);
              RewardForwardFilter.gamma := 0.5 |} in
  let st : gmap nat (list Q) := {[ 0%nat := [1.5; 1; 1] ]} in
  let st' :=
    fst (fst (RewardForwardFilter.update f (Store.row 0 1 2) (Some [0]) st)) in
  RewardForwardFilter.rewems f = Some (Store.row 0 1 0) /\
  Store.get st' (Store.row 0 1 0) 0 = Store.get st (Store.row 0 1 0) 0.
Proof.
  intros f st st'.
  assert (H1 : RewardForwardFilter.rewems f = Some (Store.row 0 1 0)) by reflexivity.
  split; [exact H1|].
  destruct (masked_update_writes_only_not_done_slots f (Store.row 0 1 0)
              (Store.row 0 1 2) [0] st H1) as (_ & _ & _ & H).
  exact (H 0%nat eq_refl).
Defined.

(** Two steps of one environment, rewards -1 and -1. *)
Lemma first_pass_accumulates_in_buffer_row_zero_witness :
  let st : gmap nat (list Q) := {[ 0%nat := [-1; -1] ]} in
  ((1 <= length (Store.storage st 0))%nat /\
   Forall (fun nd : list Q => length nd = 1%nat) [[1]]) /\
  let '(st', f', outs) :=
    RewardForwardFilter.update_rows (RewardForwardFilter.init 0.99) 0 1 0
      [[1]; [1]] st in
  RewardForwardFilter.rewems f' = Some (Store.row 0 1 0).
Proof.
  intros st.
  assert (H1 : (1 <= length (Store.storage st 0))%nat) by (vm_compute; lia).
  assert (H2 : Forall (fun nd : list Q => length nd = 1%nat) [[1]])
    by (repeat constructor).
  split; [auto|].
  pose proof (first_pass_accumulates_in_buffer_row_zero 0.99 0%nat 1%nat [1] [[1]]
                st H1 H2) as H.
  cbv zeta in H.
  destruct (RewardForwardFilter.update_rows (RewardForwardFilter.init 0.99) 0 1 0
              [[1]; [1]] st) as [[st' f'] outs].
  destruct H as [H _]. exact H.
Defined.

(** The pass over the second rollout of the same environment. *)
Lemma later_pass_restarts_from_buffer_row_zero_witness :
  let st : gmap nat (list Q) := {[ 0%nat := [-1; -1] ]} in
  let bound := {| RewardForwardFilter.rewems := Some (Store.row 0 1 0);
                  RewardForwardFilter.gamma := 0.99 |} in
  ((1 <= length (Store.storage st 0))%nat /\
   Forall (fun nd : list Q => length nd = 1%nat) [[1]; [1]] /\
   [[1]; [1]] <> ([] : list (list Q))) /\
  let '(st', f', outs) :=
    RewardForwardFilter.update_rows bound 0 1 0 [[1]; [1]] st in
  f' = bound.
Proof.
  intros st bound.
  assert (H1 : (1 <= length (Store.storage st 0))%nat) by (vm_compute; lia).
  assert (H2 : Forall (fun nd : list Q => length nd = 1%nat) [[1]; [1]])
    by (repeat constructor).
  assert (H3 : [[1]; [1]] <> ([] : list (list Q))) by discriminate.
  split; [auto|].
  pose proof (later_pass_restarts_from_buffer_row_zero 0.99 0%nat 1%nat [[1]; [1]]
                st H1 H2 H3) as H.
  cbv zeta in H. fold bound in H.
  destruct (RewardForwardFilter.update_rows bound 0 1 0 [[1]; [1]] st)
    as [[st' f'] outs].
  destruct H as [H _]. exact H.
Defined.

(** The first normalization of that rollout, with a stand-in for the
    square root. *)
Lemma first_normalization_divides_rows_from_one_on_witness :
  let st : gmap nat (list Q) := {[ 0%nat := [-1; -1] ]} in
  let sqrt := fun _ : Q => 2 in
  ((1 <= length (Store.storage st 0))%nat /\
   Forall (fun d : list Q => length d = 1%nat) [[0]]) /\
  let '(st', _, rms') :=
    RewardNorm.normalize sqrt 0 1 [[0]; [0]] (RewardForwardFilter.init 0.99)
      RunningMeanStd.default st in
  Store.get st' (Store.row 0 1 1) 0 = Store.get st (Store.row 0 1 1) 0 / 2.
Proof.
  intros st sqrt.
  assert (H1 : (1 <= length (Store.storage st 0))%nat) by (vm_compute; lia).
  assert (H2 : Forall (fun d : list Q => length d = 1%nat) [[0]])
    by (repeat constructor).
  split; [auto|].
  pose proof (first_normalization_divides_rows_from_one_on 0.99 0%nat 1%nat sqrt
                [0] [[0]] RunningMeanStd.default st H1 H2) as H.
  cbv zeta in H.
  destruct (RewardNorm.normalize sqrt 0 1 [[0]; [0]] (RewardForwardFilter.init 0.99)
              RunningMeanStd.default st) as [[st' flt'] rms'].
  destruct H as (_ & H & _).
  apply (H 1%nat 0%nat); [lia | lia | vm_compute; lia].
Defined.

(** Two steps of one environment whose episode ends with the rollout. *)
Lemma advantage_ignores_what_follows_a_done_witness :
  let rewards : list (list Q) := [[1]; [-1]] in
  let values : list (list Q) := [[0.1]; [0.2]] in
  let dones : list (list Q) := [[0]; [0]] in
  (has_shape 2 1 rewards /\ has_shape 2 1 values /\ has_shape 2 1 dones /\
   nth 0 [1] 0 == 1) /\
  at2 (GAE.advantages (GAE.rle_loop 0.99 0.95 rewards values dones [1] [0.7])) 1 0
  == at2 rewards 1 0 - at2 values 1 0.
Proof.
  intros rewards values dones.
  assert (Sh : forall x y : Q, has_shape 2 1 [[x]; [y]])
    by (intros x y; split; [reflexivity | repeat constructor]).
  assert (Hc : nth 0 [1] 0 == 1) by reflexivity.
  split; [repeat split; try reflexivity; repeat constructor|].
  exact (advantage_ignores_what_follows_a_done 0.99 0.95 2 1 rewards values dones
           [1] [0.7] (Sh _ _) (Sh _ _) (Sh _ _) eq_refl eq_refl 1%nat 0%nat
           (le_n 2) (le_n 1) (or_introl Hc)).
Defined.

(** The same rollout, at its first step. *)
Lemma returns_are_lambda_returns_witness :
  let rewards : list (list Q) := [[1]; [-1]] in
  let values : list (list Q) := [[0.1]; [0.2]] in
  let dones : list (list Q) := [[0]; [0]] in
  (has_shape 2 1 rewards /\ has_shape 2 1 values /\ has_shape 2 1 dones) /\
  at2 (GAE.returns 0.99 0.95 rewards values dones [1] [0.7]) 0 0
  == 1 + 0.99 * (1 - 0)
         * ((1 - 0.95) * 0.2
            + 0.95 * at2 (GAE.returns 0.99 0.95 rewards values dones [1] [0.7]) 1 0).
Proof.
  intros rewards values dones.
  assert (Sh : forall x y : Q, has_shape 2 1 [[x]; [y]])
    by (intros x y; split; [reflexivity | repeat constructor]).
  split; [repeat split; try reflexivity; repeat constructor|].
  exact (returns_are_lambda_returns 0.99 0.95 2 1 rewards values dones
           [1] [0.7] (Sh _ _) (Sh _ _) (Sh _ _) eq_refl eq_refl 0%nat 0%nat
           (Nat.lt_0_succ 1) (le_n 1)).
Defined.

(** A two-step episode without value estimates. *)
Lemma gae_with_lambda_one_is_compute_returns_witness :
  let rewards : list (list Q) := [[1]; [-1]] in
  let zeros : list (list Q) := [[0]; [0]] in
  (has_shape 2 1 rewards /\ has_shape 2 1 zeros /\ 1 == 1) /\
  at2 (GAE.advantages (GAE.rle_loop 0.99 1 rewards zeros zeros [0] [0])) 0 0
  == nth 0 (ActorCritic.compute_returns [1; -1] 0.99) 0.
Proof.
  intros rewards zeros.
  assert (Sh : forall x y : Q, has_shape 2 1 [[x]; [y]])
    by (intros x y; split; [reflexivity | repeat constructor]).
  assert (Z2 : forall t n, (t < 2)%nat -> (n < 1)%nat -> at2 zeros t n == 0).
  { intros [|[|t]] [|n] Ht Hn; try lia; reflexivity. }
  assert (Z1 : forall n, (n < 1)%nat -> nth n [0] 0 == 0).
  { intros [|n] Hn; [reflexivity | lia]. }
  split; [repeat split; try reflexivity; repeat constructor|].
  exact (gae_with_lambda_one_is_compute_returns 0.99 1 2 1 rewards zeros zeros
           [0] [0] (Sh _ _) (Sh _ _) (Sh _ _) eq_refl eq_refl (Qeq_refl 1)
           Z2 Z2 Z1 Z1 0%nat 0%nat (Nat.lt_0_succ 1) (le_n 1)).
Defined.

(** A minibatch of two transitions out of a batch of four, with the
    advantages normalized. *)
Lemma pg_loss_is_at_least_the_unclipped_surrogate_witness :
  let exp := fun x : Q => 1 + x in
  let sqrt := fun x : Q => x in
  (true = false \/ (2 <= length [1%nat; 3%nat])%nat) /\
  Metrics.surrogate
    (Metrics.mb_advantages sqrt true [1; 2; 3; 4] [1%nat; 3%nat])
    (PPO.ratio exp [0.5; -0.5] [0; 0; 0; 0] [1%nat; 3%nat])
  <= PPO.pg_loss exp sqrt true 0.2 [1; 2; 3; 4] [0; 0; 0; 0] [1%nat; 3%nat]
       [0.5; -0.5].
Proof.
  intros exp sqrt.
  assert (H : true = false \/ (2 <= length [1%nat; 3%nat])%nat)
    by (right; apply le_n).
  split; [exact H|].
  exact (pg_loss_is_at_least_the_unclipped_surrogate exp sqrt true 0.2
           [1; 2; 3; 4] [0; 0; 0; 0] [1%nat; 3%nat] [0.5; -0.5] H).
Defined.

(** A minibatch whose policy did not change: both ratios are 1. *)
Lemma zero_clipfrac_means_unclipped_loss_witness :
  let exp := fun x : Q => 1 + x in
  let sqrt := fun x : Q => x in
  let ratio := PPO.ratio exp [0; 0] [0; 0; 0; 0] [1%nat; 3%nat] in
  (ratio <> [] /\ Metrics.clipfrac 0.2 ratio == 0 /\
   (true = false \/ (2 <= length [1%nat; 3%nat])%nat)) /\
  PPO.pg_loss exp sqrt true 0.2 [1; 2; 3; 4] [0; 0; 0; 0] [1%nat; 3%nat] [0; 0]
  == Metrics.surrogate
       (Metrics.mb_advantages sqrt true [1; 2; 3; 4] [1%nat; 3%nat]) ratio.
Proof.
  intros exp sqrt ratio.
  assert (H1 : ratio <> []) by discriminate.
  assert (H2 : Metrics.clipfrac 0.2 ratio == 0) by reflexivity.
  assert (H3 : true = false \/ (2 <= length [1%nat; 3%nat])%nat)
    by (right; apply le_n).
  split; [auto|].
  exact (proj2 (zero_clipfrac_means_unclipped_loss exp sqrt true 0.2 [1; 2; 3; 4]
                  [0; 0; 0; 0] [1%nat; 3%nat] [0; 0] H1 H2 H3)).
Defined.

(** A minibatch of one transition. *)
Lemma value_loss_clipping_never_lowers_the_loss_witness :
  length [1] = length [0%nat] /\
  PPO.v_loss_plain [1] [3] [0%nat] <= PPO.v_loss_clip 0.2 [1] [3] [0] [0%nat].
Proof.
  split; [reflexivity|].
  exact (proj2 (value_loss_clipping_never_lowers_the_loss 0.2 [1] [3] [0] [0%nat]
                  eq_refl)).
Defined.

(** One environment whose predictor is off by 1 in one feature. *)
Lemma curiosity_reward_is_zero_only_on_exact_prediction_witness :
  ([[1; 2]] !! 0%nat = Some [1; 2] /\ [[1; 3]] !! 0%nat = Some [1; 3]) /\
  0 <= nth 0 (Curiosity.curiosity_rewards [[1; 2]] [[1; 3]]) 0.
Proof.
  split; [split; reflexivity|].
  exact (proj1 (curiosity_reward_is_zero_only_on_exact_prediction
                  [[1; 2]] [[1; 3]] 0 [1; 2] [1; 3] eq_refl eq_refl)).
Defined.

(** A draw that selects both samples. *)
Lemma forward_loss_is_plain_mean_when_all_selected_witness :
  let predict : list (list Q) := [[1; 2]; [3; 4]] in
  let target : list (list Q) := [[0; 0]; [0; 0]] in
  RND.mse_per_sample predict target <> [] /\
  RND.forward_loss predict target (fun _ => 0.1) 0.25
  == torch_mean (RND.mse_per_sample predict target).
Proof.
  intros predict target.
  assert (H1 : RND.mse_per_sample predict target <> []) by discriminate.
  assert (H2 : forall i, (i < length (RND.mse_per_sample predict target))%nat ->
                         (fun _ : nat => 0.1) i < 0.25)
    by (intros i _; reflexivity).
  split; [exact H1|].
  exact (forward_loss_is_plain_mean_when_all_selected predict target
           (fun _ => 0.1) 0.25 H1 H2).
Defined.

(** Five indices in minibatches of two. *)
Lemma minibatches_cover_the_batch_once_witness :
  let b_inds := [3; 1; 0; 2; 4]%nat in
  (length b_inds = 5%nat /\ (0 < 2)%nat) /\
  exists mbs, Loops.minibatches b_inds 5 2 = Some mbs /\ concat mbs = b_inds.
Proof.
  intros b_inds. split; [split; [reflexivity | apply Nat.lt_0_succ]|].
  destruct (minibatches_cover_the_batch_once b_inds 5 2 eq_refl (Nat.lt_0_succ 1))
    as (mbs & E & Hc & _).
  exists mbs. split; assumption.
Defined.

(** Ten samples with four minibatches requested: five are run. *)
Lemma minibatch_count_follows_the_floor_size_witness :
  let c := {| Config.num_envs := 2; Config.num_steps := 5;
              Config.num_minibatches := 4; Config.total_timesteps := 100;
              Config.reward_free := "True" |} in
  let a := {| Config.cli := c; Config.batch_size := 10;
              Config.minibatch_size := 2 |} in
  (Config.parse_args c = Ok a /\
   length (seq 0 10) = Z.to_nat (Config.batch_size a)) /\
  exists mbs, Loops.minibatches (seq 0 10) 10 2 = Some mbs /\
              (4 < Z.of_nat (length mbs))%Z.
Proof.
  intros c a.
  assert (H1 : Config.parse_args c = Ok a) by reflexivity.
  assert (H2 : length (seq 0 10) = Z.to_nat (Config.batch_size a)) by reflexivity.
  split; [auto|].
  destruct (minibatch_count_follows_the_floor_size c a (seq 0 10) H1 H2)
    as [_ H].
  destruct (H ltac:(cbn; lia)) as (mbs & E & _ & Hn).
  exists mbs. split; [exact E|]. apply Hn. cbn. discriminate.
Defined.

(** The third of ten updates. *)
Lemma annealed_rate_decays_linearly_and_stays_positive_witness :
  (0 < 0.001 /\ (1 <= 3 <= 10)%Z) /\
  Loops.lrnow 0.001 10 3 <= 0.001.
Proof.
  assert (H1 : 0 < 0.001) by reflexivity.
  assert (H2 : (1 <= 3 <= 10)%Z) by lia.
  split; [auto|].
  exact (proj2 (proj2 (proj2 (proj2
           (annealed_rate_decays_linearly_and_stays_positive 0.001 10 3 H1 H2))))).
Defined.

(** Two warm-up iterations of two steps with one environment. *)
Lemma warmup_batches_end_at_multiples_of_num_steps_witness :
  let obs := fun k : nat => [inject_Z (Z.of_nat k)] in
  (0 < 2)%nat /\
  snd (Loops.warmup 2 2 obs RunningMeanStd.default) = [obs 3%nat].
Proof.
  intros obs. split; [apply Nat.lt_0_succ|].
  destruct (warmup_batches_end_at_multiples_of_num_steps 2 1 1 obs
              RunningMeanStd.default (Nat.lt_0_succ 1)) as [H _].
  rewrite H. reflexivity.
Defined.

(** Two environments: the first ends its episode, the second goes on. *)
Lemma latents_change_only_on_done_or_timeout_witness :
  let sample_z := fun k : nat => map (fun _ : nat => [1; 0]) (seq 0 k) in
  (length [true; false] = 2%nat /\ length [[0; 1]; [0; 1]] = 2%nat /\
   length [0; 0] = 2%nat) /\
  exists latents' steps',
    RLE.resample 3 sample_z [true; false] [[0; 1]; [0; 1]] [0; 0]
    = Some (latents', steps') /\
    length latents' = 2%nat.
Proof.
  intros sample_z. split; [repeat split|].
  assert (Hz : forall k, length (sample_z k) = k).
  { intros k. unfold sample_z. rewrite length_map, length_seq. reflexivity. }
  destruct (latents_change_only_on_done_or_timeout 3 sample_z [true; false]
              [[0; 1]; [0; 1]] [0; 0] 2 eq_refl eq_refl eq_refl Hz)
    as (l' & s' & E & Hl & _).
  exists l', s'. split; assumption.
Defined.

(** Two observation features and four latent dimensions. *)
Lemma first_layer_weight_is_never_blended_witness :
  (0 < 4)%nat /\
  RLE.update_from_policy_net 0.005
    [ RLE.linear 2 64 [1] [2]; RLE.linear 64 64 [3] [4] ]
    [ RLE.linear (2 + 4) 64 [5] [6]; RLE.linear 64 64 [7] [8];
      RLE.linear 64 4 [9] [10] ]
  = [ RLE.linear 2 64 [1] (RLE.mix 0.005 [6] [2]);
      RLE.linear 64 64 (RLE.mix 0.005 [7] [3]) (RLE.mix 0.005 [8] [4]) ].
Proof.
  split; [apply Nat.lt_0_succ|].
  exact (first_layer_weight_is_never_blended 0.005 2 4 4 [1] [2] [3] [4]
           [5] [6] [7] [8] [9] [10] (Nat.lt_0_succ 3)).
Defined.

(** The draw (3, 4), whose length is 5. *)
Lemma sampled_latents_have_unit_length_witness :
  let sqrt := fun _ : Q => 5 in
  let s := qsum (map (fun x => x ^ 2) [3; 4]) in
  ([[3; 4]] !! 0%nat = Some [3; 4] /\ sqrt s * sqrt s == s /\ ~ s == 0) /\
  qsum (map (fun x => x ^ 2) (nth 0 (RLE.sample_z sqrt [[3; 4]]) [])) == 1.
Proof.
  intros sqrt s.
  assert (H1 : [[3; 4]] !! 0%nat = Some [3; 4]) by reflexivity.
  assert (H2 : sqrt s * sqrt s == s) by reflexivity.
  assert (H3 : ~ s == 0) by discriminate.
  split; [auto|].
  exact (sampled_latents_have_unit_length sqrt [[3; 4]] 0 [3; 4] H1 H2 H3).
Defined.

(** Features (1, 2) under the initial statistics, latent (1, 0). *)
Lemma intrinsic_reward_is_bounded_by_the_feature_norm_witness :
  ([[1; 2]] !! 0%nat = Some [1; 2] /\ [[1; 0]] !! 0%nat = Some [1; 0] /\
   qsum (map (fun x => x ^ 2) [1; 0]) == 1) /\
  nth 0 (RLE.compute_reward [0; 0] [1; 1] [[1; 2]] [[1; 0]]) 0 ^ 2
  <= qsum (map (fun x => x ^ 2) (RLE.normalize_features [0; 0] [1; 1] [1; 2])).
Proof.
  assert (H3 : qsum (map (fun x => x ^ 2) [1; 0]) == 1) by reflexivity.
  split; [repeat split; exact H3|].
  exact (intrinsic_reward_is_bounded_by_the_feature_norm [0; 0] [1; 1]
           [[1; 2]] [[1; 0]] 0 [1; 2] [1; 0] eq_refl eq_refl H3).
Defined.
